(** * antigravity-skills: the discovery-and-ranking pipeline

    A shallow embedding of the scoring engine (lib/skill-ranker.js), the
    repository catalog store (lib/repo-catalog.js), the rate-limited client,
    repository search and the crawl (lib/github-scanner.js) and the
    inventory builder (scripts/consolidate.js), with the properties the
    design document states about them and further properties of the code.

    Conventions of the embedding.
    - A JavaScript string is a [string]; a character is read as the code unit
      of the same number (U+0000..U+00FF), so [String.length] is [.length].
    - A JavaScript number that holds an integer is a [Z]; [NaN] is explicit.
      The quotient computed by [jaccardSimilarity] is the rational it rounds
      to (in lowest terms): two such quotients of counts below 2^26 are equal,
      or ordered, as doubles exactly when the rationals are, and the same
      holds against the literals 0.7, 0.5 and 0.3.
    - The clock ([new Date()]), the network and the file system are inputs of
      the functions that read them, and outputs of the functions that write
      them. *)

From stdpp Require Import gmap strings list.
From Stdlib Require Import Ascii String ZArith QArith Qreduction Lia.
From Stdlib Require Import Permutation Sorted DecimalString.

Local Open Scope string_scope.
Local Open Scope list_scope.
Local Open Scope Z_scope.

(** ** Numbers and optional values *)

Inductive number := Num (z : Z) | NaN.

(** A property read that may give [undefined] or [null]. *)
Inductive js (A : Type) := Undefined | Null | Def (a : A).
Arguments Undefined {A}.
Arguments Null {A}.
Arguments Def {A} a.

Definition ToNumber (v : js number) : number :=
  match v with
  | Undefined => NaN
  | Null => Num 0
  | Def n => n
  end.

(** [a + b] and [a - b] on numbers. *)
Definition js_add (a b : number) : number :=
  match a, b with
  | Num x, Num y => Num (x + y)
  | _, _ => NaN
  end.

Definition js_sub (a b : number) : number :=
  match a, b with
  | Num x, Num y => Num (x - y)
  | _, _ => NaN
  end.

(** [a >= b]: every comparison with [NaN] is false. *)
Definition js_ge (a b : number) : bool :=
  match a, b with
  | Num x, Num y => y <=? x
  | _, _ => false
  end.

(** Truthiness of a number: [0] and [NaN] are falsy. *)
Definition truthy (a : number) : bool :=
  match a with
  | Num x => negb (x =? 0)
  | NaN => false
  end.

(** [a || b] on numbers. *)
Definition js_or (a b : number) : number := if truthy a then a else b.

(** ** Characters and strings *)

Definition code (c : ascii) : N := N_of_ascii c.

(** [\s]: tab, line feed, vertical tab, form feed, carriage return, space and
    the no-break space. *)
Definition is_space (c : ascii) : bool :=
  let n := code c in
  ((9 <=? n) && (n <=? 13) || (n =? 32) || (n =? 160))%N.

(** A line terminator, for [^] under the [m] flag. *)
Definition is_line_terminator (c : ascii) : bool :=
  let n := code c in ((n =? 10) || (n =? 13))%N.

(** [String.prototype.toLowerCase] on one code unit. *)
Definition lower (c : ascii) : ascii :=
  let n := code c in
  if ((65 <=? n) && (n <=? 90) ||
      (192 <=? n) && (n <=? 222) && negb (n =? 215))%N
  then ascii_of_N (n + 32) else c.

(** The canonical form used by the [i] flag: the upper-case code unit. *)
Definition canonicalize (c : ascii) : ascii :=
  let n := code c in
  if ((97 <=? n) && (n <=? 122) ||
      (224 <=? n) && (n <=? 254) && negb (n =? 247))%N
  then ascii_of_N (n - 32) else c.

Fixpoint toLowerCase (s : string) : string :=
  match s with
  | EmptyString => EmptyString
  | String c s' => String (lower c) (toLowerCase s')
  end.

Definition str_length (s : string) : Z := Z.of_nat (String.length s).

(** [Array.prototype.join]. *)
Fixpoint join (sep : string) (l : list string) : string :=
  match l with
  | [] => EmptyString
  | [x] => x
  | x :: rest => (x ++ sep ++ join sep rest)%string
  end.

(** ** Regular expressions

    The patterns of the ranker use literals, [\s], [^], grouping, alternation,
    [?], [*] and [+].  [rmatch] lists the ways a pattern can match at a
    position, in the order a backtracking matcher tries them; a position is
    the character before it (if any) and the rest of the input. *)

Inductive regex :=
| Chr (c : ascii)
| Space
| Bol
| Eps
| Seq (r1 r2 : regex)
| Alt (r1 r2 : regex)
| Star (r : regex).

Definition Plus (r : regex) : regex := Seq r (Star r).
Definition Opt (r : regex) : regex := Alt r Eps.

Fixpoint Lit (s : string) : regex :=
  match s with
  | EmptyString => Eps
  | String c s' => Seq (Chr c) (Lit s')
  end.

Definition position : Type := option ascii * list ascii.

Definition chr_eq (icase : bool) (c x : ascii) : bool :=
  if icase then Ascii.eqb (canonicalize c) (canonicalize x) else Ascii.eqb c x.

Definition at_line_start (p : position) : bool :=
  match fst p with
  | None => true
  | Some c => is_line_terminator c
  end.

Definition consumed (p q : position) : bool :=
  (List.length (snd q) <? List.length (snd p))%nat.

Fixpoint rmatch (icase : bool) (r : regex) (p : position) : list position :=
  match r with
  | Chr c =>
      match snd p with
      | x :: xs => if chr_eq icase c x then [(Some x, xs)] else []
      | [] => []
      end
  | Space =>
      match snd p with
      | x :: xs => if is_space x then [(Some x, xs)] else []
      | [] => []
      end
  | Bol => if at_line_start p then [p] else []
  | Eps => [p]
  | Seq r1 r2 => flat_map (rmatch icase r2) (rmatch icase r1 p)
  | Alt r1 r2 => rmatch icase r1 p ++ rmatch icase r2 p
  | Star r1 =>
      (fix iterate (fuel : nat) (q : position) : list position :=
         match fuel with
         | O => [q]
         | S fuel' =>
             flat_map (iterate fuel')
               (List.filter (consumed q) (rmatch icase r1 q)) ++ [q]
         end) (S (List.length (snd p))) p
  end.

(** [RegExp.prototype.test] without the [g] flag: is there a match starting
    at any position. *)
Fixpoint test_from (icase : bool) (r : regex) (prev : option ascii)
    (s : list ascii) : bool :=
  match rmatch icase r (prev, s) with
  | _ :: _ => true
  | [] =>
      match s with
      | [] => false
      | c :: s' => test_from icase r (Some c) s'
      end
  end.

Definition regex_test (icase : bool) (r : regex) (s : string) : bool :=
  test_from icase r None (list_ascii_of_string s).

(** The number of matches [String.prototype.match] returns under the [g]
    flag: the first match at or after the current position, then on from its
    end (from the next character after an empty match). *)
Fixpoint count_from (fuel : nat) (icase : bool) (r : regex) (p : position)
    : nat :=
  match fuel with
  | O => O
  | S fuel' =>
      let advance :=
        match snd p with
        | [] => O
        | c :: s' => count_from fuel' icase r (Some c, s')
        end in
      match rmatch icase r p with
      | q :: _ =>
          S (if consumed p q then count_from fuel' icase r q else advance)
      | [] => advance
      end
  end.

Definition match_count (icase : bool) (r : regex) (s : string) : Z :=
  let l := list_ascii_of_string s in
  Z.of_nat (count_from (S (List.length l)) icase r (None, l)).

Fixpoint Cat (l : list regex) : regex :=
  match l with
  | [] => Eps
  | [r] => r
  | r :: l' => Seq r (Cat l')
  end.

(** ** Sets of strings: [new Set(array)], [has] and [size]

    A [Set] keeps its elements in insertion order, each once. *)

Definition Set_has (s : list string) (x : string) : bool :=
  existsb (String.eqb x) s.

Definition Set_add (s : list string) (x : string) : list string :=
  if Set_has s x then s else s ++ [x].

Definition new_Set (l : list string) : list string :=
  fold_left Set_add l [].

Definition Set_size (s : list string) : Z := Z.of_nat (List.length s).

(** ** Records of the ranker (lib/skill-ranker.js, lib/github-scanner.js) *)

Module Source.
(** [source] of a discovered skill; [description] is read by the ranker
    and is absent from the records [discoverSkills] builds. *)
Record t := mk {
  repo : string;
  url : string;
  stars : Z;
  forks : Z;
  pushedAt : option string;
  path : string;
  description : option string
}.
End Source.

Module Skill.
(** A discovered skill, as [discoverSkills] builds it. *)
Record t := mk {
  id : string;
  name : string;
  description : string;
  tags : list string;
  content : string;
  source : option Source.t;
  parseErrors : list string
}.
End Skill.

Module Existing.
(** An entry of the existing catalog, as far as the ranker reads it. *)
Record t := mk {
  id : string;
  name : option string;
  description : option string
}.
End Existing.

Inductive Tier := Tier3 | Tier2 | Tier1 | Tier0.

Definition tier_label (t : Tier) : string :=
  match t with
  | Tier3 => "★★★"
  | Tier2 => "★★"
  | Tier1 => "★"
  | Tier0 => "⬡"
  end.

Module Breakdown.
Record t := mk {
  completeness : Z;
  uniqueness : js number;
  quality : Z;
  repoSignals : Z
}.
End Breakdown.

Module Ranked.
Record t := mk {
  id : string;
  name : string;
  description : string;
  category : string;
  tags : list string;
  source : option Source.t;
  score : number;
  tier : Tier;
  isDuplicate : js bool;
  duplicateOf : js string;
  breakdown : Breakdown.t
}.
End Ranked.

(** What [scoreUniqueness] returns: a bare number on its first [return], an
    object [{ score, duplicateOf, isDuplicate }] on the others. *)
Inductive uniq_result :=
| UNumber (n : Z)
| UObject (score : Z) (duplicateOf : js string) (isDuplicate : bool).

(** Property reads on that result; a number has none of the three. *)
Definition get_score (r : uniq_result) : js number :=
  match r with
  | UNumber _ => Undefined
  | UObject s _ _ => Def (Num s)
  end.

Definition get_isDuplicate (r : uniq_result) : js bool :=
  match r with
  | UNumber _ => Undefined
  | UObject _ _ b => Def b
  end.

Definition get_duplicateOf (r : uniq_result) : js string :=
  match r with
  | UNumber _ => Undefined
  | UObject _ d _ => d
  end.

(** [x || ''] on an optional string. *)
Definition or_empty (x : option string) : string :=
  match x with
  | Some s => s
  | None => EmptyString
  end.

Definition nonempty (s : string) : bool := negb (String.eqb s EmptyString).

Module Rule.
Record t := mk { name : string; keywords : list string }.
End Rule.

Definition CATEGORY_RULES : list Rule.t :=
  [ Rule.mk "security"
      [ "security"; "sast"; "compliance"; "privacy"; "threat"; "vulnerability";
        "owasp"; "pci"; "gdpr"; "secrets"; "risk"; "malware"; "forensics";
        "attack"; "incident"; "auth"; "mtls"; "zero"; "trust" ];
    Rule.mk "infrastructure"
      [ "kubernetes"; "k8s"; "helm"; "terraform"; "cloud"; "network"; "devops";
        "gitops"; "prometheus"; "grafana"; "observability"; "monitoring";
        "logging"; "tracing"; "deployment"; "istio"; "linkerd"; "service";
        "mesh"; "slo"; "sre"; "oncall"; "incident"; "pipeline"; "cicd"; "ci";
        "cd"; "kafka" ];
    Rule.mk "data-ai"
      [ "data"; "database"; "db"; "sql"; "postgres"; "mysql"; "analytics";
        "etl"; "warehouse"; "dbt"; "ml"; "ai"; "llm"; "rag"; "vector";
        "embedding"; "spark"; "airflow"; "cdc"; "pipeline" ];
    Rule.mk "development"
      [ "python"; "javascript"; "typescript"; "java"; "golang"; "go"; "rust";
        "csharp"; "dotnet"; "php"; "ruby"; "node"; "react"; "frontend";
        "backend"; "mobile"; "ios"; "android"; "flutter"; "fastapi"; "django";
        "nextjs"; "vue"; "api" ];
    Rule.mk "architecture"
      [ "architecture"; "c4"; "microservices"; "event"; "cqrs"; "saga";
        "domain"; "ddd"; "patterns"; "decision"; "adr" ];
    Rule.mk "testing" [ "testing"; "tdd"; "unit"; "e2e"; "qa"; "test" ];
    Rule.mk "business"
      [ "business"; "market"; "sales"; "finance"; "startup"; "legal"; "hr";
        "product"; "customer"; "seo"; "marketing"; "kpi"; "contract";
        "employment" ];
    Rule.mk "workflow"
      [ "workflow"; "orchestration"; "conductor"; "automation"; "process";
        "collaboration" ] ].

(** ** jaccardSimilarity *)

Definition jaccardSimilarity (tokensA tokensB : list string) : Q :=
  if (List.length tokensA =? 0)%nat || (List.length tokensB =? 0)%nat
  then 0%Q
  else
    let setA := new_Set tokensA in
    let setB := new_Set tokensB in
    let intersection :=
      fold_left (fun n token => if Set_has setB token then n + 1 else n)
        setA 0 in
    let union := Set_size setA + Set_size setB - intersection in
    if union =? 0 then 0%Q else Qred (intersection # Z.to_pos union).

(** ** scoreCompleteness *)

Definition re_use_this_skill_when : regex :=
  Cat [Lit "use"; Plus Space; Opt (Seq (Lit "this") (Plus Space));
       Lit "skill"; Plus Space; Lit "when"].

Definition re_h2_use_when : regex :=
  Cat [Lit "##"; Star Space; Lit "use"; Plus Space; Lit "when"].

Definition re_do_not_use : regex :=
  Cat [Lit "do"; Plus Space; Lit "not"; Plus Space; Lit "use"].

Definition re_h2_instructions : regex :=
  Cat [Lit "##"; Star Space;
       Alt (Lit "instructions") (Alt (Lit "steps") (Lit "how to"))].

Definition scoreCompleteness (skill : Skill.t) : Z :=
  let score := 0 in
  let score :=
    if nonempty (Skill.name skill)
       && negb (String.eqb (Skill.name skill) (Skill.id skill))
       && (2 <? str_length (Skill.name skill))
    then score + 5 else score in
  let score :=
    if nonempty (Skill.description skill)
       && (20 <? str_length (Skill.description skill))
    then score + 5
    else if nonempty (Skill.description skill)
            && (0 <? str_length (Skill.description skill))
    then score + 2 else score in
  let body := toLowerCase (Skill.content skill) in
  let score := if 100 <? str_length body then score + 3 else score in
  let score :=
    if regex_test true re_use_this_skill_when body
       || regex_test true re_h2_use_when body
    then score + 4 else score in
  let score :=
    if regex_test true re_do_not_use body then score + 3 else score in
  let score :=
    if regex_test true re_h2_instructions body then score + 3 else score in
  let score :=
    if (0 <? List.length (Skill.tags skill))%nat then score + 2 else score in
  Z.min score 25.

(** ** scoreQuality *)

Definition re_fence : regex := Lit "```".
Definition re_h2_line : regex := Cat [Bol; Lit "##"; Space].
Definition re_references : regex :=
  Cat [Lit "reference"; Opt (Chr "s"); Chr "/"].
Definition re_examples : regex :=
  Cat [Lit "example"; Opt (Chr "s"); Chr "/"].
Definition re_resources : regex :=
  Cat [Lit "resource"; Opt (Chr "s"); Chr "/"].
Definition re_h2_safety : regex := Cat [Lit "##"; Star Space; Lit "safety"].

Definition scoreQuality (skill : Skill.t) : Z :=
  let score := 0 in
  let body := Skill.content skill in
  let descLen := str_length (Skill.description skill) in
  let score :=
    if 100 <? descLen then score + 5
    else if 50 <? descLen then score + 3
    else if 20 <? descLen then score + 1 else score in
  let score :=
    if 2000 <? str_length body then score + 5
    else if 1000 <? str_length body then score + 4
    else if 500 <? str_length body then score + 3
    else if 200 <? str_length body then score + 2 else score in
  let score := if regex_test false re_fence body then score + 4 else score in
  let sectionCount := match_count false re_h2_line body in
  let score :=
    if 4 <=? sectionCount then score + 4
    else if 2 <=? sectionCount then score + 2
    else if 1 <=? sectionCount then score + 1 else score in
  let score :=
    if regex_test true re_references body || regex_test true re_examples body
       || regex_test true re_resources body
    then score + 3 else score in
  let score :=
    if regex_test true re_h2_safety body then score + 2 else score in
  let score :=
    if (List.length (Skill.parseErrors skill) =? 0)%nat
    then score + 2 else score in
  Z.min score 25.

(** ** assignTier *)

Definition assignTier (score : number) : Tier :=
  if js_ge score (Num 75) then Tier3
  else if js_ge score (Num 50) then Tier2
  else if js_ge score (Num 25) then Tier1
  else Tier0.

Definition Qgtb (a b : Q) : bool := negb (Qle_bool a b).
Definition Qltb (a b : Q) : bool := negb (Qle_bool b a).

(** ** Array.prototype.sort

    The comparator's result is read as a number, [NaN] counting as [0]; the
    sort is stable.  With a consistent comparator every conforming sort gives
    the result of this insertion sort. *)

Definition SortCompare {A} (comparefn : A -> A -> number) (x y : A) : Z :=
  match comparefn x y with
  | Num v => v
  | NaN => 0
  end.

Fixpoint sort_insert {A} (comparefn : A -> A -> number) (x : A) (l : list A)
    : list A :=
  match l with
  | [] => [x]
  | y :: l' =>
      if 0 <? SortCompare comparefn x y
      then y :: sort_insert comparefn x l'
      else x :: l
  end.

Fixpoint js_sort {A} (comparefn : A -> A -> number) (l : list A) : list A :=
  match l with
  | [] => []
  | x :: l' => sort_insert comparefn x (js_sort comparefn l')
  end.

Section Ranker.

(** [tokenize] of lib/skill-utils.js, which is not part of the sources at
    hand, and two functions of the host: the parser behind [new Date(s)]
    (milliseconds since the epoch, [None] for an invalid date) and
    [String.prototype.localeCompare]. *)
Variable tokenize : string -> list string.
Variable Date_parse : string -> option Z.
Variable localeCompare : string -> string -> Z.

(** *** scoreUniqueness *)

(** The [for] loop over the existing skills: [inl] is the [return] from
    inside the loop, [inr] the two loop variables at its end. *)
Fixpoint uniqueness_loop (skill : Skill.t) (skillTokens : list string)
    (existingSkills : list Existing.t) (maxSimilarity : Q)
    (bestMatchId : js string) : uniq_result + (Q * js string) :=
  match existingSkills with
  | [] => inr (maxSimilarity, bestMatchId)
  | existing :: rest =>
      if String.eqb (Existing.id existing) (Skill.id skill)
      then inl (UObject 0 (Def (Existing.id existing)) true)
      else
        let existingTokens :=
          tokenize (or_empty (Existing.name existing) ++ " "
                    ++ or_empty (Existing.description existing))%string in
        let similarity := jaccardSimilarity skillTokens existingTokens in
        if Qgtb similarity maxSimilarity
        then uniqueness_loop skill skillTokens rest similarity
               (Def (Existing.id existing))
        else uniqueness_loop skill skillTokens rest maxSimilarity
               bestMatchId
  end.

Definition scoreUniqueness (skill : Skill.t)
    (existingSkills : list Existing.t) : uniq_result :=
  if (List.length existingSkills =? 0)%nat then UNumber 25
  else
    let skillTokens :=
      tokenize (Skill.name skill ++ " " ++ Skill.description skill)%string in
    match uniqueness_loop skill skillTokens existingSkills 0%Q Null with
    | inl result => result
    | inr (maxSimilarity, bestMatchId) =>
        if Qgtb maxSimilarity (7 # 10) then UObject 3 bestMatchId true
        else if Qgtb maxSimilarity (5 # 10) then UObject 10 bestMatchId false
        else if Qgtb maxSimilarity (3 # 10) then UObject 18 Null false
        else UObject 25 Null false
    end.

(** *** scoreRepoSignals; [now] is the clock read by [new Date()]. *)

Definition scoreRepoSignals (now : Z) (skill : Skill.t) : Z :=
  let score := 0 in
  let source := Skill.source skill in
  let stars := from_option Source.stars 0 source in
  let score :=
    if 500 <=? stars then score + 8
    else if 100 <=? stars then score + 6
    else if 50 <=? stars then score + 5
    else if 10 <=? stars then score + 3
    else if 1 <=? stars then score + 1 else score in
  let forks := from_option Source.forks 0 source in
  let score :=
    if 100 <=? forks then score + 5
    else if 20 <=? forks then score + 4
    else if 5 <=? forks then score + 3
    else if 1 <=? forks then score + 1 else score in
  let score :=
    match source ≫= Source.pushedAt with
    | Some pushedAt =>
        if nonempty pushedAt then
          match Date_parse pushedAt with
          | Some pushedDate =>
              let monthsAgo :=
                ((now - pushedDate) # Z.to_pos (1000 * 60 * 60 * 24 * 30))%Q in
              if Qltb monthsAgo 1 then score + 7
              else if Qltb monthsAgo 3 then score + 6
              else if Qltb monthsAgo 6 then score + 5
              else if Qltb monthsAgo 12 then score + 3
              else if Qltb monthsAgo 24 then score + 1 else score
          | None => score
          end
        else score
    | None => score
    end in
  let score :=
    if nonempty (or_empty (source ≫= Source.description))
    then score + 2 else score in
  Z.min score 25.

(** *** categorizeSkill *)

Definition categorizeSkill (skill : Skill.t) : string :=
  let haystack :=
    new_Set (tokenize (Skill.id skill ++ " " ++ Skill.name skill ++ " "
                       ++ Skill.description skill ++ " "
                       ++ join " " (Skill.tags skill))%string) in
  match
    List.find (fun rule => existsb (Set_has haystack) (Rule.keywords rule))
      CATEGORY_RULES
  with
  | Some rule => Rule.name rule
  | None => "general"
  end.

(** *** rankSkill and rankAll *)

Definition rankSkill (now : Z) (skill : Skill.t)
    (existingSkills : list Existing.t) : Ranked.t :=
  let completeness := scoreCompleteness skill in
  let uniquenessResult := scoreUniqueness skill existingSkills in
  let quality := scoreQuality skill in
  let repoSignals := scoreRepoSignals now skill in
  let totalScore :=
    js_add
      (js_add
         (js_add (Num completeness) (ToNumber (get_score uniquenessResult)))
         (Num quality))
      (Num repoSignals) in
  let tier := assignTier totalScore in
  let category := categorizeSkill skill in
  {| Ranked.id := Skill.id skill;
     Ranked.name := Skill.name skill;
     Ranked.description := Skill.description skill;
     Ranked.category := category;
     Ranked.tags := Skill.tags skill;
     Ranked.source := Skill.source skill;
     Ranked.score := totalScore;
     Ranked.tier := tier;
     Ranked.isDuplicate := get_isDuplicate uniquenessResult;
     Ranked.duplicateOf := get_duplicateOf uniquenessResult;
     Ranked.breakdown :=
       {| Breakdown.completeness := completeness;
          Breakdown.uniqueness := get_score uniquenessResult;
          Breakdown.quality := quality;
          Breakdown.repoSignals := repoSignals |} |}.

(** The comparator handed to [sort]:
    [b.score - a.score || a.id.localeCompare(b.id)]. *)
Definition by_score_then_id (a b : Ranked.t) : number :=
  js_or (js_sub (Ranked.score b) (Ranked.score a))
    (Num (localeCompare (Ranked.id a) (Ranked.id b))).

(** [clock i] is the time at which the [i]-th skill is ranked. *)
Definition rankAll (clock : nat -> Z) (discoveredSkills : list Skill.t)
    (existingSkills : list Existing.t) : list Ranked.t :=
  let ranked :=
    imap (fun i skill => rankSkill (clock i) skill existingSkills)
      discoveredSkills in
  js_sort by_score_then_id ranked.

End Ranker.

(** ** The repository catalog store (lib/repo-catalog.js) *)

Module Check.
Record t := mk { timestamp : string; skillCount : Z; status : string }.
End Check.

Module Entry.
Record t := mk {
  firstSeen : string;
  lastChecked : string;
  checks : list Check.t;
  stars : Z;
  forks : Z;
  description : string;
  url : string;
  skillCount : Z;
  skillIds : list string;
  status : string
}.
End Entry.

Module Info.
(** The [info] argument of [logRepoCheck]; any field may be missing. *)
Record t := mk {
  stars : option Z;
  forks : option Z;
  description : option string;
  skillCount : option Z;
  skillIds : option (list string);
  status : option string
}.
End Info.

Module Catalog.
(** [repos] is the object keyed by [owner/name]. *)
Record t := mk { repos : gmap string Entry.t; lastUpdated : option string }.
End Catalog.

(** [x || d] for an optional number and for an optional string. *)
Definition num_or (x : option Z) (d : Z) : Z :=
  match x with
  | Some v => if v =? 0 then d else v
  | None => d
  end.

Definition str_or (x : option string) (d : string) : string :=
  match x with
  | Some s => if nonempty s then s else d
  | None => d
  end.

(** [array.slice(-n)]: the last [n] elements. *)
Definition slice_last {A} (n : nat) (l : list A) : list A :=
  drop (List.length l - n) l.

Definition empty_catalog : Catalog.t :=
  {| Catalog.repos := ∅; Catalog.lastUpdated := None |}.

(** The first half of [logRepoCheck]: create the entry or refresh it.  The
    lookup here is among the entries of the catalog; what the lookup of the
    code finds besides them is in [logRepoCheck_call] below. *)
Definition upsert_entry (now : string) (repos : gmap string Entry.t)
    (repoName : string) (info : Info.t) : gmap string Entry.t :=
  match repos !! repoName with
  | None =>
      <[repoName :=
          {| Entry.firstSeen := now;
             Entry.lastChecked := now;
             Entry.checks := [];
             Entry.stars := num_or (Info.stars info) 0;
             Entry.forks := num_or (Info.forks info) 0;
             Entry.description := str_or (Info.description info) EmptyString;
             Entry.url := ("https://github.com/" ++ repoName)%string;
             Entry.skillCount := num_or (Info.skillCount info) 0;
             Entry.skillIds := default [] (Info.skillIds info);
             Entry.status := str_or (Info.status info) "checked" |}]> repos
  | Some entry =>
      <[repoName :=
          {| Entry.firstSeen := Entry.firstSeen entry;
             Entry.lastChecked := now;
             Entry.checks := Entry.checks entry;
             Entry.stars := num_or (Info.stars info) (Entry.stars entry);
             Entry.forks := num_or (Info.forks info) (Entry.forks entry);
             Entry.description :=
               str_or (Info.description info) (Entry.description entry);
             Entry.url := Entry.url entry;
             Entry.skillCount :=
               num_or (Info.skillCount info) (Entry.skillCount entry);
             Entry.skillIds :=
               match Info.skillIds info with
               | Some (i :: ids) => i :: ids
               | _ => Entry.skillIds entry
               end;
             Entry.status := str_or (Info.status info) "checked" |}]> repos
  end.

(** The second half: push the visit on [checks], keep the last 20. *)
Definition push_check (now : string) (info : Info.t) (entry : Entry.t)
    : Entry.t :=
  let checks :=
    Entry.checks entry ++
    [ {| Check.timestamp := now;
         Check.skillCount := num_or (Info.skillCount info) 0;
         Check.status := str_or (Info.status info) "checked" |} ] in
  {| Entry.firstSeen := Entry.firstSeen entry;
     Entry.lastChecked := Entry.lastChecked entry;
     Entry.checks :=
       if (20 <? List.length checks)%nat then slice_last 20 checks else checks;
     Entry.stars := Entry.stars entry;
     Entry.forks := Entry.forks entry;
     Entry.description := Entry.description entry;
     Entry.url := Entry.url entry;
     Entry.skillCount := Entry.skillCount entry;
     Entry.skillIds := Entry.skillIds entry;
     Entry.status := Entry.status entry |}.

(** [logRepoCheck(catalog, repoName, info)]; [now] is
    [new Date().toISOString()].  The catalog is updated in place and
    returned: the result is the catalog after the call. *)
Definition logRepoCheck (now : string) (catalog : Catalog.t)
    (repoName : string) (info : Info.t) : Catalog.t :=
  {| Catalog.repos :=
       alter (push_check now info) repoName
         (upsert_entry now (Catalog.repos catalog) repoName info);
     Catalog.lastUpdated := Catalog.lastUpdated catalog |}.

(** A visit: the clock at the call, the repository and the [info]. *)
Definition visit : Type := string * string * Info.t.

Definition recordVisits (catalog : Catalog.t) (visits : list visit)
    : Catalog.t :=
  fold_left (fun c '(now, repoName, info) => logRepoCheck now c repoName info)
    visits catalog.

Module Stats.
Record t := mk {
  totalRepos : Z;
  reposWithSkills : Z;
  emptyRepos : Z;
  totalSkills : Z;
  oldestCheck : option string;
  newestCheck : option string;
  lastUpdated : option string
}.
End Stats.

(** [getCatalogStats].  The counts and the sum do not depend on the order of
    [Object.entries]; neither do the two extremes as long as no timestamp is
    the empty string. *)
Definition getCatalogStats (catalog : Catalog.t) : Stats.t :=
  let repos := map_to_list (Catalog.repos catalog) in
  let total := Z.of_nat (List.length repos) in
  let totalSkills :=
    fold_left (fun sum '(_, entry) => sum + Entry.skillCount entry) repos 0 in
  let withSkills :=
    Z.of_nat (List.length
      (List.filter (fun '(_, entry) => 0 <? Entry.skillCount entry) repos)) in
  let empty :=
    Z.of_nat (List.length
      (List.filter (fun '(_, entry) => Entry.skillCount entry =? 0) repos)) in
  let oldestCheck :=
    fold_left (fun (oldest : option string) '(_, entry) =>
      match oldest with
      | Some o =>
          if negb (nonempty o) || String.ltb (Entry.lastChecked entry) o
          then Some (Entry.lastChecked entry) else oldest
      | None => Some (Entry.lastChecked entry)
      end) repos None in
  let newestCheck :=
    fold_left (fun (newest : option string) '(_, entry) =>
      match newest with
      | Some n =>
          if negb (nonempty n) || String.ltb n (Entry.lastChecked entry)
          then Some (Entry.lastChecked entry) else newest
      | None => Some (Entry.lastChecked entry)
      end) repos None in
  {| Stats.totalRepos := total;
     Stats.reposWithSkills := withSkills;
     Stats.emptyRepos := empty;
     Stats.totalSkills := totalSkills;
     Stats.oldestCheck := oldestCheck;
     Stats.newestCheck := newestCheck;
     Stats.lastUpdated := Catalog.lastUpdated catalog |}.

(** ** The rate-limited client and repository search (lib/github-scanner.js) *)

#[local] Set Warnings "-register-all".

Inductive json :=
| JNull
| JBool (b : bool)
| JNumber (z : Z)
| JString (s : string)
| JArray (items : list json)
| JObject (fields : list (string * json)).

Definition json_truthy (v : json) : bool :=
  match v with
  | JNull => false
  | JBool b => b
  | JNumber z => negb (z =? 0)
  | JString s => nonempty s
  | JArray _ | JObject _ => true
  end.

Fixpoint assoc (k : string) (fields : list (string * json)) : js json :=
  match fields with
  | [] => Undefined
  | (k', v) :: rest => if String.eqb k k' then Def v else assoc k rest
  end.

(** [v.k]: [None] is the TypeError of reading a property of [null]. *)
Definition get_prop (v : json) (k : string) : option (js json) :=
  match v with
  | JNull => None
  | JObject fields => Some (assoc k fields)
  | _ => Some Undefined
  end.

(** [x || d] on a property that was read. *)
Definition json_or (x : js json) (d : json) : json :=
  match x with
  | Def v => if json_truthy v then v else d
  | _ => d
  end.

Module RawResponse.
(** What [httpsGet] resolves with. *)
Record t := mk {
  statusCode : Z;
  body : string;
  rateLimitRemaining : Z;
  rateLimitReset : Z
}.
End RawResponse.

Module Response.
(** What [rateLimitedGet] returns: the raw response, or the object it
    builds on a 422, which has no [rateLimitReset]. *)
Record t := mk {
  statusCode : Z;
  body : string;
  rateLimitRemaining : Z;
  rateLimitReset : js Z
}.
End Response.

Definition of_raw (r : RawResponse.t) : Response.t :=
  {| Response.statusCode := RawResponse.statusCode r;
     Response.body := RawResponse.body r;
     Response.rateLimitRemaining := RawResponse.rateLimitRemaining r;
     Response.rateLimitReset := Def (RawResponse.rateLimitReset r) |}.

Inductive Error :=
| NetworkError (msg : string)
| TypeError
| SyntaxError
| MkError (message : string).

Inductive Event :=
| LogRateLimited (waitSec : Z)
| LogServerError (statusCode : Z) (seconds : Z)
| LogRateLimitRemaining (remaining : Z)
| Sleep (ms : Z).

Module World.
(** The number of requests sent so far, the clock ([Date.now()]) and what
    was logged and slept, latest first. *)
Record t := mk { requests : nat; now : Z; trace : list Event }.
End World.

Inductive Result (A : Type) := Return (a : A) | Throw (e : Error).
Arguments Return {A} a.
Arguments Throw {A} e.

Definition M (A : Type) : Type := World.t -> Result A * World.t.

Definition ret {A} (a : A) : M A := fun w => (Return a, w).
Definition throw {A} (e : Error) : M A := fun w => (Throw e, w).
Definition bind {A B} (m : M A) (k : A -> M B) : M B :=
  fun w =>
    match m w with
    | (Return a, w') => k a w'
    | (Throw e, w') => (Throw e, w')
    end.

Notation "'let*' x ':=' m 'in' k" := (bind m (fun x => k))
  (at level 10, x name, m at level 200, k at level 200).

Definition emit (e : Event) : M unit :=
  fun w =>
    (Return tt,
     {| World.requests := World.requests w;
        World.now := World.now w;
        World.trace := e :: World.trace w |}).

(** [await sleep(ms)]: the clock moves on by [ms].  This is the sleep of
    the code for a delay its timer takes as given; see [timer_delay]
    below. *)
Definition sleep (ms : Z) : M unit :=
  fun w =>
    (Return tt,
     {| World.requests := World.requests w;
        World.now := World.now w + Z.max ms 0;
        World.trace := Sleep ms :: World.trace w |}).

Definition Date_now : M Z := fun w => (Return (World.now w), w).

(** [Math.ceil(a / b)] for [b > 0]. *)
Definition ceil_div (a b : Z) : Z := - ((- a) / b).

Definition show (z : Z) : string := NilZero.string_of_int (Z.to_int z).

Module RepoItem.
Record t := mk {
  repo : js json;
  repoUrl : js json;
  stars : json;
  forks : json;
  pushedAt : json;
  description : json;
  defaultBranch : json
}.
End RepoItem.

Module SearchResult.
Record t := mk { totalCount : json; items : list RepoItem.t }.
End SearchResult.

Definition dq : string := String (ascii_of_N 34) EmptyString.

(** The body [rateLimitedGet] makes up on a 422: an object whose [items] is
    the empty array. *)
Definition empty_items_body : string := "{" ++ dq ++ "items" ++ dq ++ ":[]}".

Section Scanner.

(** The host and the network: what the [n]-th request, to [url], meets (a
    connection error or a response), and [JSON.parse],
    [encodeURIComponent] and the string conversion of a JSON value. *)
Variable network : nat -> string -> string + RawResponse.t.
Variable JSON_parse : string -> option json.
Variable encodeURIComponent : string -> string.
Variable ToString : json -> string.

Definition GITHUB_API : string := "api.github.com".

Definition httpsGet (url : string) : M RawResponse.t :=
  fun w =>
    let w' :=
      {| World.requests := S (World.requests w);
         World.now := World.now w;
         World.trace := World.trace w |} in
    match network (World.requests w) url with
    | inl msg => (Throw (NetworkError msg), w')
    | inr r => (Return r, w')
    end.

(** The loop of [rateLimitedGet]: [left] iterations remain, that is
    [attempt <= retries] as long as [left] is not [0]; falling out of the
    loop returns [undefined]. *)
Fixpoint rateLimitedGet_loop (left : nat) (attempt retries : Z)
    (url : string) : M (option Response.t) :=
  match left with
  | O => ret None
  | S left' =>
      let* result := httpsGet url in
      if (RawResponse.statusCode result =? 403)
         && (RawResponse.rateLimitRemaining result =? 0)
      then
        let resetTime := RawResponse.rateLimitReset result * 1000 in
        let* now := Date_now in
        let waitMs := Z.max (resetTime - now) 1000 in
        let waitSec := ceil_div waitMs 1000 in
        if attempt <? retries then
          let* _ := emit (LogRateLimited waitSec) in
          let* _ := sleep waitMs in
          rateLimitedGet_loop left' (attempt + 1) retries url
        else
          throw (MkError ("GitHub API rate limit exceeded. Resets in "
                          ++ show waitSec
                          ++ "s. Set GITHUB_TOKEN for higher limits."))
      else if RawResponse.statusCode result =? 422 then
        ret (Some {| Response.statusCode := 422;
                     Response.body := empty_items_body;
                     Response.rateLimitRemaining :=
                       RawResponse.rateLimitRemaining result;
                     Response.rateLimitReset := Undefined |})
      else if (500 <=? RawResponse.statusCode result) && (attempt <? retries)
      then
        let* _ := emit (LogServerError (RawResponse.statusCode result)
                          (2 * (attempt + 1))) in
        let* _ := sleep (2000 * (attempt + 1)) in
        rateLimitedGet_loop left' (attempt + 1) retries url
      else
        let* _ :=
          if RawResponse.rateLimitRemaining result <? 10
          then emit (LogRateLimitRemaining
                       (RawResponse.rateLimitRemaining result))
          else ret tt in
        ret (Some (of_raw result))
  end.

Definition rateLimitedGet (url : string) (retries : nat)
    : M (option Response.t) :=
  rateLimitedGet_loop (S retries) 0 (Z.of_nat retries) url.

(** The text appended to the error message: [": " + parsed.message] when
    the body parses and has a truthy [message]; nothing otherwise (the
    [catch] swallows what [JSON.parse] or the property read throws). *)
Definition message_suffix (body : string) : string :=
  match JSON_parse body with
  | Some parsed =>
      match get_prop parsed "message" with
      | Some (Def m) =>
          if json_truthy m then
            (": " ++ match m with JString s => s | _ => ToString m end)%string
          else EmptyString
      | _ => EmptyString
      end
  | None => EmptyString
  end.

Definition to_repo_item (item : json) : option RepoItem.t :=
  full_name ← get_prop item "full_name";
  html_url ← get_prop item "html_url";
  stargazers_count ← get_prop item "stargazers_count";
  forks_count ← get_prop item "forks_count";
  pushed_at ← get_prop item "pushed_at";
  description ← get_prop item "description";
  default_branch ← get_prop item "default_branch";
  Some {| RepoItem.repo := full_name;
          RepoItem.repoUrl := html_url;
          RepoItem.stars := json_or stargazers_count (JNumber 0);
          RepoItem.forks := json_or forks_count (JNumber 0);
          RepoItem.pushedAt := json_or pushed_at JNull;
          RepoItem.description := json_or description (JString EmptyString);
          RepoItem.defaultBranch := json_or default_branch (JString "main") |}.

Definition searchRepos (query : string) (page perPage : Z)
    : M SearchResult.t :=
  let encoded := encodeURIComponent query in
  let url :=
    ("https://" ++ GITHUB_API ++ "/search/repositories?q=" ++ encoded
     ++ "&sort=stars&order=desc&per_page=" ++ show perPage
     ++ "&page=" ++ show page)%string in
  let* result := rateLimitedGet url 2 in
  match result with
  | None => throw TypeError
  | Some result =>
      if negb (Response.statusCode result =? 200) then
        throw (MkError
                 ("GitHub Repository Search API returned "
                  ++ show (Response.statusCode result)
                  ++ message_suffix (Response.body result)))
      else
        match JSON_parse (Response.body result) with
        | None => throw SyntaxError
        | Some data =>
            match get_prop data "total_count", get_prop data "items" with
            | Some total_count, Some items =>
                match json_or items (JArray []) with
                | JArray l =>
                    match mapM to_repo_item l with
                    | Some mapped =>
                        ret {| SearchResult.totalCount :=
                                 json_or total_count (JNumber 0);
                               SearchResult.items := mapped |}
                    | None => throw TypeError
                    end
                | _ => throw TypeError
                end
            | _, _ => throw TypeError
            end
        end
  end.

End Scanner.

(** ** The inventory builder (scripts/consolidate.js) *)

Module Options.
Record t := mk {
  query : option string;
  limit : option Z;
  minScore : option Z;
  output : option string;
  durationMs : option Z
}.
End Options.

(** The [duration] label: ['single pass'], or the hours of [durationMs]
    printed with one decimal and followed by [' hour(s)']. *)
Inductive DurationLabel := SinglePass | Hours (durationMs : Z).

Module Inventory.
Record t := mk {
  scannedAt : string;
  query : string;
  reposScanned : Z;
  totalDiscovered : Z;
  duration : DurationLabel;
  skills : list Ranked.t
}.
End Inventory.

(** What [consolidate] does to the outside, in the order it does it: the
    lines it logs, the crawl it starts, and the files it writes (the JSON of
    the inventory and the report rendered from it). *)
Inductive Effect :=
| LogStarting (limit : Z) (duration : DurationLabel)
| LogLoaded (existing : Z)
| Discover (queries : list string) (limit durationMs : Z)
| LogDiscovered (skills reposScanned : Z)
| LogNoSkills
| LogRepoCatalog (totalRepos reposWithSkills : Z)
| LogRanking
| LogFiltered (kept minScore : Z)
| WriteInventoryJson (dir file : string) (inventory : Inventory.t)
| WriteReport (dir file : string) (inventory : Inventory.t)
| LogOutput (dir file : string)
| LogRepoCatalogTotal (totalRepos reposWithSkills totalSkills : Z).

Module Env.
(** What [consolidate] reads from the outside: the skills of catalog.json
    ([loadExistingCatalog]), the outcome of the crawl ([discoverSkills]),
    the repository catalog on disk after the crawl ([loadRepoCatalog]) and
    the clock. *)
Record t := mk {
  existingSkills : list Existing.t;
  discoverSkills : list string -> Z -> Z -> Z * list Skill.t;
  repoCatalog : Catalog.t;
  scannedAt : string;
  clock : nat -> Z
}.
End Env.

Section Consolidate.

Variable tokenize : string -> list string.
Variable Date_parse : string -> option Z.
Variable localeCompare : string -> string -> Z.
(** The directory above the script. *)
Variable ROOT : string.

Definition consolidate (options : Options.t) (env : Env.t)
    : option Inventory.t * list Effect :=
  let query := str_or (Options.query options) "filename:SKILL.md path:skills" in
  let limit := num_or (Options.limit options) 20 in
  let minScore := num_or (Options.minScore options) 0 in
  let outputDir := str_or (Options.output options) ROOT in
  let durationMs := num_or (Options.durationMs options) 0 in
  let durationLabel :=
    if durationMs =? 0 then SinglePass else Hours durationMs in
  let existingSkills := Env.existingSkills env in
  let '(reposScanned, discovered) :=
    Env.discoverSkills env [query] limit durationMs in
  let effects :=
    [ LogStarting limit durationLabel;
      LogLoaded (Z.of_nat (List.length existingSkills));
      Discover [query] limit durationMs;
      LogDiscovered (Z.of_nat (List.length discovered)) reposScanned ] in
  if (List.length discovered =? 0)%nat then
    let stats := getCatalogStats (Env.repoCatalog env) in
    (None,
     effects ++
     [ LogNoSkills;
       LogRepoCatalog (Stats.totalRepos stats) (Stats.reposWithSkills stats) ])
  else
    let ranked :=
      rankAll tokenize Date_parse localeCompare (Env.clock env) discovered
        existingSkills in
    let '(ranked, effects) :=
      if 0 <? minScore then
        let kept :=
          List.filter (fun s => js_ge (Ranked.score s) (Num minScore))
            ranked in
        (kept,
         effects ++
         [ LogRanking; LogFiltered (Z.of_nat (List.length kept)) minScore ])
      else (ranked, effects ++ [ LogRanking ]) in
    let inventory :=
      {| Inventory.scannedAt := Env.scannedAt env;
         Inventory.query := query;
         Inventory.reposScanned := reposScanned;
         Inventory.totalDiscovered := Z.of_nat (List.length ranked);
         Inventory.duration := durationLabel;
         Inventory.skills := ranked |} in
    let stats := getCatalogStats (Env.repoCatalog env) in
    (Some inventory,
     effects ++
     [ WriteInventoryJson outputDir "discovered-skills.json" inventory;
       WriteReport outputDir "DISCOVERED.md" inventory;
       LogOutput outputDir "discovered-skills.json";
       LogOutput outputDir "DISCOVERED.md";
       LogRepoCatalogTotal (Stats.totalRepos stats)
         (Stats.reposWithSkills stats) (Stats.totalSkills stats) ]).

(** The files an effect writes: none for a log line or the crawl. *)
Definition is_inventory_write (e : Effect) : bool :=
  match e with
  | WriteInventoryJson _ _ _ | WriteReport _ _ _ => true
  | _ => false
  end.

End Consolidate.

(** ** More of the ranker, the catalog store and the inventory builder *)

(** The same skill, parsed without errors. *)
Definition without_parseErrors (skill : Skill.t) : Skill.t :=
  {| Skill.id := Skill.id skill;
     Skill.name := Skill.name skill;
     Skill.description := Skill.description skill;
     Skill.tags := Skill.tags skill;
     Skill.content := Skill.content skill;
     Skill.source := Skill.source skill;
     Skill.parseErrors := [] |}.

(** The tokens [categorizeSkill] looks the keywords up in. *)
Definition category_tokens (tokenize : string -> list string)
    (skill : Skill.t) : list string :=
  tokenize (Skill.id skill ++ " " ++ Skill.name skill ++ " "
            ++ Skill.description skill ++ " "
            ++ join " " (Skill.tags skill))%string.

(** The names every object inherits from [Object.prototype].  For such a
    name [catalog.repos[repoName]] is not [undefined] when the catalog has
    no entry of that name: it is the inherited function, or for
    ['__proto__'] the prototype itself. *)
Definition Object_prototype_names : list string :=
  [ "constructor"; "__defineGetter__"; "__defineSetter__"; "hasOwnProperty";
    "__lookupGetter__"; "__lookupSetter__"; "isPrototypeOf";
    "propertyIsEnumerable"; "toString"; "valueOf"; "__proto__";
    "toLocaleString" ].

Definition inherited (name : string) : bool :=
  existsb (String.eqb name) Object_prototype_names.

(** A call of [logRepoCheck] on a catalog whose [repos] is a plain object,
    [Object.prototype] being as the language defines it.  For a name of
    which the catalog has an entry, and for a name that is not inherited,
    the call is [logRepoCheck] above.  For an inherited name of which the
    catalog has no entry, the test [!catalog.repos[repoName]] finds the
    inherited value, so the update branch runs and writes its fields to
    that value; then [checks] is [undefined] and [checks.push] throws a
    TypeError.  The catalog has no new entry. *)
Definition logRepoCheck_call (now : string) (catalog : Catalog.t)
    (repoName : string) (info : Info.t) : Result Catalog.t :=
  match Catalog.repos catalog !! repoName with
  | None =>
      if inherited repoName then Throw TypeError
      else Return (logRepoCheck now catalog repoName info)
  | Some _ => Return (logRepoCheck now catalog repoName info)
  end.

(** A sequence of calls on the same catalog; the first that throws ends
    it. *)
Fixpoint recordVisits_calls (catalog : Catalog.t) (visits : list visit)
    : Result Catalog.t :=
  match visits with
  | [] => Return catalog
  | (now, repoName, info) :: rest =>
      match logRepoCheck_call now catalog repoName info with
      | Return catalog' => recordVisits_calls catalog' rest
      | Throw e => Throw e
      end
  end.

Section Stale.

(** [String.prototype.localeCompare] and [Date.prototype.toISOString]; the
    latter throws a RangeError ([None]) on a time out of range. *)
Variable localeCompare : string -> string -> Z.
Variable toISOString : Z -> option string.

(** [getStaleRepos(catalog, maxAgeHours)]; [now] is [Date.now()].  An entry
    of the result is the pair of [name] and the fields of the entry.  As for
    [getCatalogStats], the order of [Object.entries] only shows in the order
    of entries with the same [lastChecked]. *)
Definition getStaleRepos (now : Z) (catalog : Catalog.t) (maxAgeHours : Z)
    : option (list (string * Entry.t)) :=
  cutoff ← toISOString (now - maxAgeHours * 60 * 60 * 1000);
  let stale :=
    List.filter
      (fun '(_, entry) => String.ltb (Entry.lastChecked entry) cutoff)
      (map_to_list (Catalog.repos catalog)) in
  Some (js_sort
          (fun a b =>
             Num (localeCompare (Entry.lastChecked (snd a))
                    (Entry.lastChecked (snd b))))
          stale).

End Stale.

(** [value.slice(0, end)] on a string. *)
Definition slice_to (value : string) (e : Z) : string :=
  let len := str_length value in
  let to := if e <? 0 then Z.max (len + e) 0 else Z.min e len in
  String.substring 0 (Z.to_nat to) value.

(** [truncate(value, limit)] of scripts/consolidate.js; [None] is a missing
    value. *)
Definition truncate (value : option string) (limit : Z) : string :=
  match value with
  | None => EmptyString
  | Some v =>
      if negb (nonempty v) || (str_length v <=? limit) then v
      else (slice_to v (limit - 3) ++ "...")%string
  end.

(** ** More of the scanner: repository metadata and the tree listing *)

(** [s.endsWith(suffix)]. *)
Definition endsWith (s suffix : string) : bool :=
  let n := String.length suffix in
  (n <=? String.length s)%nat
  && String.eqb (String.substring (String.length s - n) n s) suffix.

Module RepoInfo.
Record t := mk {
  stars : json;
  forks : json;
  pushedAt : json;
  description : json;
  defaultBranch : json
}.
End RepoInfo.

(** What [fetchRepoInfo] answers when the request does not succeed. *)
Definition no_repo_info : RepoInfo.t :=
  {| RepoInfo.stars := JNumber 0;
     RepoInfo.forks := JNumber 0;
     RepoInfo.pushedAt := JNull;
     RepoInfo.description := JString EmptyString;
     RepoInfo.defaultBranch := JString "main" |}.

Module SkillFile.
Record t := mk { path : string; name : string }.
End SkillFile.

(** [v === 'text'] on a property that was read. *)
Definition is_string (text : string) (v : js json) : bool :=
  match v with
  | Def (JString s) => String.eqb s text
  | _ => false
  end.

(** The test of the [filter] in [listSkillFiles]:
    [node.type === 'blob' && node.path.endsWith('SKILL.md')]; [None] is the
    TypeError of a [null] node or of a [path] that is not a string. *)
Definition is_skill_blob (node : json) : option bool :=
  type ← get_prop node "type";
  if is_string "blob" type then
    path ← get_prop node "path";
    match path with
    | Def (JString p) => Some (endsWith p "SKILL.md")
    | _ => None
    end
  else Some false.

(** [tree.filter(...).map(...)]: the filter runs over the whole tree first. *)
Fixpoint skill_blobs (tree : list json) : option (list json) :=
  match tree with
  | [] => Some []
  | node :: rest =>
      match is_skill_blob node, skill_blobs rest with
      | Some keep, Some kept => Some (if keep then node :: kept else kept)
      | _, _ => None
      end
  end.

Definition to_skill_file (node : json) : option SkillFile.t :=
  match get_prop node "path" with
  | Some (Def (JString p)) =>
      Some {| SkillFile.path := p; SkillFile.name := "SKILL.md" |}
  | _ => None
  end.

Section Listing.

Variable network : nat -> string -> string + RawResponse.t.
Variable JSON_parse : string -> option json.
Variable ToString : json -> string.

(** The text of a JSON value inside a template string. *)
Definition template (v : json) : string :=
  match v with
  | JString s => s
  | _ => ToString v
  end.

Definition fetchRepoInfo (owner repo : string) : M RepoInfo.t :=
  let url :=
    ("https://" ++ GITHUB_API ++ "/repos/" ++ owner ++ "/" ++ repo)%string in
  let* result := rateLimitedGet network url 2 in
  match result with
  | None => throw TypeError
  | Some result =>
      if negb (Response.statusCode result =? 200) then ret no_repo_info
      else
        match JSON_parse (Response.body result) with
        | None => throw SyntaxError
        | Some data =>
            match
              get_prop data "stargazers_count", get_prop data "forks_count",
              get_prop data "pushed_at", get_prop data "description",
              get_prop data "default_branch"
            with
            | Some stars, Some forks, Some pushed, Some description,
              Some branch =>
                ret {| RepoInfo.stars := json_or stars (JNumber 0);
                       RepoInfo.forks := json_or forks (JNumber 0);
                       RepoInfo.pushedAt := json_or pushed JNull;
                       RepoInfo.description :=
                         json_or description (JString EmptyString);
                       RepoInfo.defaultBranch :=
                         json_or branch (JString "main") |}
            | _, _, _, _, _ => throw TypeError
            end
        end
  end.

(** [listSkillFiles(owner, repo, branch)] calls itself once more, with
    ['master'], when the listing of another branch does not succeed;
    [calls] bounds the depth of that recursion, and [None] is what is left
    when the bound is reached. *)
Fixpoint listSkillFiles_within (calls : nat) (owner repo : string)
    (branch : js json) : M (option (list SkillFile.t)) :=
  match calls with
  | O => ret None
  | S calls' =>
      let url :=
        ("https://" ++ GITHUB_API ++ "/repos/" ++ owner ++ "/" ++ repo
         ++ "/git/trees/" ++ template (json_or branch (JString "main"))
         ++ "?recursive=1")%string in
      let* result := rateLimitedGet network url 2 in
      match result with
      | None => throw TypeError
      | Some result =>
          if negb (Response.statusCode result =? 200) then
            if is_string "master" branch then ret (Some [])
            else
              listSkillFiles_within calls' owner repo (Def (JString "master"))
          else
            match JSON_parse (Response.body result) with
            | None => throw SyntaxError
            | Some data =>
                match get_prop data "tree" with
                | None => throw TypeError
                | Some tree =>
                    match json_or tree (JArray []) with
                    | JArray nodes =>
                        match skill_blobs nodes ≫= mapM to_skill_file with
                        | Some files => ret (Some files)
                        | None => throw TypeError
                        end
                    | _ => throw TypeError
                    end
                end
            end
      end
  end.

Definition listSkillFiles (owner repo : string) (branch : js json)
    : M (option (list SkillFile.t)) :=
  listSkillFiles_within 2 owner repo branch.

End Listing.

(** ** The ids of the skills found in a repository (lib/github-scanner.js) *)

(** [s.split(sep)] for a separator of one character: the parts between the
    separators, at least one. *)
Fixpoint split (sep : ascii) (s : string) : list string :=
  match s with
  | EmptyString => [EmptyString]
  | String c rest =>
      if Ascii.eqb c sep then EmptyString :: split sep rest
      else
        match split sep rest with
        | part :: parts => String c part :: parts
        | [] => [String c EmptyString]
        end
  end.

(** [s.replace(pattern, '')] for a string pattern: the first occurrence of
    the pattern is removed. *)
Fixpoint remove_first (pattern s : string) : string :=
  if String.prefix pattern s then
    String.substring (String.length pattern)
      (String.length s - String.length pattern) s
  else
    match s with
    | EmptyString => EmptyString
    | String c rest => String c (remove_first pattern rest)
    end.

(** The function [scanSingleRepo] maps over the paths of the files it
    found, for the [skillIds] of the catalog entry. *)
Definition scanned_skill_id (path : string) : string :=
  let parts := split "/" path in
  if (1 <? List.length parts)%nat
  then nth (List.length parts - 2) parts EmptyString
  else remove_first "/SKILL.md" path.

(** The [skillDir] of [discoverSkills], which becomes the [id] of the
    discovered skill. *)
Definition discovered_skill_id (path : string) : string :=
  let pathParts := split "/" path in
  if (1 <? List.length pathParts)%nat
  then nth (List.length pathParts - 2) pathParts EmptyString
  else remove_first ".md" (nth 0 pathParts EmptyString).

(** [c] is one of the characters of [s]. *)
Fixpoint has_char (c : ascii) (s : string) : bool :=
  match s with
  | EmptyString => false
  | String x rest => Ascii.eqb x c || has_char c rest
  end.

(** [pattern] occurs in [s]. *)
Fixpoint occurs (pattern s : string) : bool :=
  String.prefix pattern s
  || match s with
     | EmptyString => false
     | String _ rest => occurs pattern rest
     end.

(** ** The crawl: [scanSingleRepo] and [searchForSkillRepos]
       (lib/github-scanner.js) *)

Module Item.
(** An element of the list [searchForSkillRepos] returns. *)
Record t := mk {
  repo : js json;
  repoUrl : js json;
  path : js json;
  name : js json;
  htmlUrl : js json
}.
End Item.

(** What [log] is called with during the crawl. *)
Inductive Line :=
| LogSlowWalk (durationMs : Z)
| LogPhase1
| LogChecking (repoName : string)
| LogRepoInfo (repoInfo : RepoInfo.t)
| LogFound (skills : nat)
| LogNoSkillsFound
| LogPhase2
| LogExhausted
| LogSearch (query : string) (page : Z)
| LogNoResults
| LogSearchFailed (query : string) (err : Error)
| LogCoolingDown
| LogPhase3
| LogCodeSearch (query : string)
| LogCodeSearchFailed (query : string) (err : Error)
| LogDone
| LogChecked (repos : nat) (elapsedMs : Z) (found : nat)
| LogTracked (repos : nat).

Module Crawl.
(** The state of a crawl: the world of the requests, the catalog object
    [loadRepoCatalog] gave (it is updated in place), what [saveRepoCatalog]
    wrote to repo-catalog.json and what [log] printed (latest first), and
    the two locals [allItems] (in the order of the pushes) and
    [checkedRepos] (latest first) of [searchForSkillRepos]. *)
Record t := mk {
  world : World.t;
  catalog : Catalog.t;
  written : list Catalog.t;
  lines : list Line;
  allItems : list Item.t;
  checkedRepos : list (js json)
}.
End Crawl.

(** A run ends with a result or an exception, or leaves the embedding: the
    bound on the turns of a loop is used up, or a number or a text of the
    catalog would be a value of another type. *)
Inductive Stop := OutOfFuel | NotTyped.

Inductive Run (A : Type) :=
| Ran (r : Result A) (s : Crawl.t)
| Stopped (why : Stop).
Arguments Ran {A} r s.
Arguments Stopped {A} why.

Definition K (A : Type) : Type := Crawl.t -> Run A.

Definition kret {A} (a : A) : K A := fun s => Ran (Return a) s.
Definition kthrow {A} (e : Error) : K A := fun s => Ran (Throw e) s.
Definition stop {A} (why : Stop) : K A := fun _ => Stopped why.
Definition kbind {A B} (m : K A) (k : A -> K B) : K B :=
  fun s =>
    match m s with
    | Ran (Return a) s' => k a s'
    | Ran (Throw e) s' => Ran (Throw e) s'
    | Stopped why => Stopped why
    end.

Notation "'let+' x ':=' m 'in' k" := (kbind m (fun x => k))
  (at level 10, x name, m at level 200, k at level 200).

(** [try { m } catch (err) { handler }]. *)
Definition try_catch {A} (m : K A) (handler : Error -> K A) : K A :=
  fun s =>
    match m s with
    | Ran (Throw e) s' => handler e s'
    | run => run
    end.

Definition with_world (s : Crawl.t) (w : World.t) : Crawl.t :=
  {| Crawl.world := w;
     Crawl.catalog := Crawl.catalog s;
     Crawl.written := Crawl.written s;
     Crawl.lines := Crawl.lines s;
     Crawl.allItems := Crawl.allItems s;
     Crawl.checkedRepos := Crawl.checkedRepos s |}.

(** A request, a pause or a look at the clock, inside a crawl. *)
Definition lift {A} (m : M A) : K A :=
  fun s => let '(r, w) := m (Crawl.world s) in Ran r (with_world s w).

Definition read {A} (f : Crawl.t -> A) : K A := fun s => Ran (Return (f s)) s.

Definition log (line : Line) : K unit :=
  fun s =>
    Ran (Return tt)
      {| Crawl.world := Crawl.world s;
         Crawl.catalog := Crawl.catalog s;
         Crawl.written := Crawl.written s;
         Crawl.lines := line :: Crawl.lines s;
         Crawl.allItems := Crawl.allItems s;
         Crawl.checkedRepos := Crawl.checkedRepos s |}.

(** [allItems.push(item)]. *)
Definition push (item : Item.t) : K unit :=
  fun s =>
    Ran (Return tt)
      {| Crawl.world := Crawl.world s;
         Crawl.catalog := Crawl.catalog s;
         Crawl.written := Crawl.written s;
         Crawl.lines := Crawl.lines s;
         Crawl.allItems := Crawl.allItems s ++ [item];
         Crawl.checkedRepos := Crawl.checkedRepos s |}.

(** The equality of [Set.prototype.has]: numbers, texts, booleans, [null]
    and [undefined] by value; an array or an object only equals itself, and
    no two values read from a response are the same object. *)
Definition same_value (a b : js json) : bool :=
  match a, b with
  | Undefined, Undefined | Null, Null | Def JNull, Def JNull => true
  | Def (JBool x), Def (JBool y) => Bool.eqb x y
  | Def (JNumber x), Def (JNumber y) => x =? y
  | Def (JString x), Def (JString y) => String.eqb x y
  | _, _ => false
  end.

Definition has (set : list (js json)) (v : js json) : bool :=
  existsb (same_value v) set.

(** [checkedRepos.add(v)]. *)
Definition add (v : js json) : K unit :=
  fun s =>
    Ran (Return tt)
      {| Crawl.world := Crawl.world s;
         Crawl.catalog := Crawl.catalog s;
         Crawl.written := Crawl.written s;
         Crawl.lines := Crawl.lines s;
         Crawl.allItems := Crawl.allItems s;
         Crawl.checkedRepos :=
           if has (Crawl.checkedRepos s) v then Crawl.checkedRepos s
           else v :: Crawl.checkedRepos s |}.

(** The arguments of [logRepoCheck] as the catalog holds them: numbers for
    the counts and a text for the description, as GitHub gives them. *)
Definition checked_info (repoInfo : RepoInfo.t) (skillCount : Z)
    (skillIds : option (list string)) : option Info.t :=
  match
    RepoInfo.stars repoInfo, RepoInfo.forks repoInfo,
    RepoInfo.description repoInfo
  with
  | JNumber stars, JNumber forks, JString description =>
      Some {| Info.stars := Some stars;
              Info.forks := Some forks;
              Info.description := Some description;
              Info.skillCount := Some skillCount;
              Info.skillIds := skillIds;
              Info.status :=
                Some (if 0 <? skillCount then "has-skills" else "no-skills") |}
  | _, _, _ => None
  end.

(** [array.slice(0, end)]. *)
Definition slice_list {A} (l : list A) (e : Z) : list A :=
  let len := Z.of_nat (List.length l) in
  let to := if e <? 0 then Z.max (len + e) 0 else Z.min e len in
  take (Z.to_nat to) l.

Module ScanOptions.
(** The [options] of [searchForSkillRepos]. *)
Record t := mk {
  limit : option Z;
  durationMs : option Z;
  queries : option (list string)
}.
End ScanOptions.

Definition KNOWN_SKILL_REPOS : list string :=
  [ "wshobson/agents"; "rmyndharis/antigravity-skills" ].

Definition REPO_SEARCH_QUERIES : list string :=
  [ "agent skills SKILL.md";
    "ai agent skills topic:ai";
    "claude code agents skills";
    "coding agent skills SKILL";
    "ai coding assistant skills";
    "llm agent tools skills";
    "gemini agent skills";
    "ai assistant workflow skills";
    "developer agent automation skills";
    "code agent prompt skills" ].

Definition codeQueries : list string :=
  [ "filename:SKILL.md path:skills";
    ("filename:SKILL.md " ++ dq ++ "description:" ++ dq)%string ].

Module CodeResult.
Record t := mk { totalCount : json; items : list Item.t }.
End CodeResult.

Section Crawler.

Variable network : nat -> string -> string + RawResponse.t.
Variable JSON_parse : string -> option json.
Variable encodeURIComponent : string -> string.
Variable ToString : json -> string.
(** [hasToken()]: whether GITHUB_TOKEN is set. *)
Variable hasToken : bool.
(** [new Date().toISOString()] when the clock shows the given time. *)
Variable toISOString : Z -> string.

Definition getDelay (isSearch : bool) : Z :=
  if hasToken then (if isSearch then 2200 else 800)
  else (if isSearch then 6500 else 2000).

Definition isTimeUp (startTime durationMs : Z) : K bool :=
  if durationMs =? 0 then kret false
  else
    let+ now := lift Date_now in
    kret (durationMs <=? now - startTime).

(** A value inside a template string. *)
Definition template_js (v : js json) : string :=
  match v with
  | Undefined => "undefined"
  | Null => "null"
  | Def v => template ToString v
  end.

(** [logRepoCheck(catalog, repoName, info)] on the catalog of the crawl. *)
Definition log_check (repoName : string) (info : Info.t) : K unit :=
  fun s =>
    Ran (Return tt)
      {| Crawl.world := Crawl.world s;
         Crawl.catalog :=
           logRepoCheck (toISOString (World.now (Crawl.world s)))
             (Crawl.catalog s) repoName info;
         Crawl.written := Crawl.written s;
         Crawl.lines := Crawl.lines s;
         Crawl.allItems := Crawl.allItems s;
         Crawl.checkedRepos := Crawl.checkedRepos s |}.

(** [saveRepoCatalog(catalog)]: [lastUpdated] is set on the object and the
    object is written out. *)
Definition saveRepoCatalog : K unit :=
  fun s =>
    let catalog :=
      {| Catalog.repos := Catalog.repos (Crawl.catalog s);
         Catalog.lastUpdated :=
           Some (toISOString (World.now (Crawl.world s))) |} in
    Ran (Return tt)
      {| Crawl.world := Crawl.world s;
         Crawl.catalog := catalog;
         Crawl.written := catalog :: Crawl.written s;
         Crawl.lines := Crawl.lines s;
         Crawl.allItems := Crawl.allItems s;
         Crawl.checkedRepos := Crawl.checkedRepos s |}.

(** [scanSingleRepo(repoName, catalog)].  [repoName.split] is a TypeError
    unless [repoName] is a text; of the parts only the first two are used,
    and a missing second part reads 'undefined' in the addresses. *)
Definition scanSingleRepo (repoName : js json)
    : K (RepoInfo.t * list SkillFile.t) :=
  match repoName with
  | Def (JString name) =>
      let parts := split "/" name in
      let owner := nth 0 parts "undefined" in
      let repo := nth 1 parts "undefined" in
      let+ _ := log (LogChecking name) in
      let+ repoInfo := lift (fetchRepoInfo network JSON_parse owner repo) in
      let+ _ := lift (sleep (getDelay false)) in
      let+ _ := log (LogRepoInfo repoInfo) in
      let+ listed :=
        lift (listSkillFiles network JSON_parse ToString owner repo
                (Def (RepoInfo.defaultBranch repoInfo))) in
      match listed with
      | None => stop OutOfFuel
      | Some skillFiles =>
          let+ _ := lift (sleep (getDelay false)) in
          let skillIds :=
            map (fun f => scanned_skill_id (SkillFile.path f)) skillFiles in
          let found := List.length skillFiles in
          match checked_info repoInfo (Z.of_nat found) (Some skillIds) with
          | None => stop NotTyped
          | Some info =>
              let+ _ := log_check name info in
              let+ _ := saveRepoCatalog in
              let+ _ :=
                log (if (0 <? found)%nat then LogFound found
                     else LogNoSkillsFound) in
              kret (repoInfo, skillFiles)
          end
      end
  | _ => kthrow TypeError
  end.

(** The loop over [skillFiles] of the first two phases: every file becomes
    an item until [maxResults] items are collected. *)
Fixpoint push_files (maxResults : Z) (item_of : SkillFile.t -> Item.t)
    (skillFiles : list SkillFile.t) : K unit :=
  match skillFiles with
  | [] => kret tt
  | file :: rest =>
      let+ collected := read (fun s => List.length (Crawl.allItems s)) in
      if maxResults <=? Z.of_nat collected then kret tt
      else
        let+ _ := push (item_of file) in
        push_files maxResults item_of rest
  end.

(** An item of a code search: [item.repository.full_name] and the other
    reads; [None] is the TypeError of reading a property of [null] or of
    [undefined]. *)
Definition to_code_item (item : json) : option Item.t :=
  repository ← get_prop item "repository";
  match repository with
  | Def repository =>
      full_name ← get_prop repository "full_name";
      html_url ← get_prop repository "html_url";
      path ← get_prop item "path";
      name ← get_prop item "name";
      htmlUrl ← get_prop item "html_url";
      Some {| Item.repo := full_name;
              Item.repoUrl := html_url;
              Item.path := path;
              Item.name := name;
              Item.htmlUrl := htmlUrl |}
  | _ => None
  end.

Definition searchCode (query : string) (page perPage : Z) : M CodeResult.t :=
  let encoded := encodeURIComponent query in
  let url :=
    ("https://" ++ GITHUB_API ++ "/search/code?q=" ++ encoded
     ++ "&per_page=" ++ show perPage ++ "&page=" ++ show page)%string in
  let* result := rateLimitedGet network url 2 in
  match result with
  | None => throw TypeError
  | Some result =>
      if negb (Response.statusCode result =? 200) then
        throw (MkError
                 ("GitHub Code Search API returned "
                  ++ show (Response.statusCode result)
                  ++ message_suffix JSON_parse ToString
                       (Response.body result)))
      else
        match JSON_parse (Response.body result) with
        | None => throw SyntaxError
        | Some data =>
            match get_prop data "total_count", get_prop data "items" with
            | Some total_count, Some items =>
                match json_or items (JArray []) with
                | JArray l =>
                    match mapM to_code_item l with
                    | Some mapped =>
                        ret {| CodeResult.totalCount :=
                                 json_or total_count (JNumber 0);
                               CodeResult.items := mapped |}
                    | None => throw TypeError
                    end
                | _ => throw TypeError
                end
            | _, _ => throw TypeError
            end
        end
  end.

Section Phases.

Variable maxResults : Z.
Variable durationMs : Z.
Variable startTime : Z.
Variable searchQueries : list string.

Definition slowWalk : bool := 0 <? durationMs.

(** The test at the head of the loops:
    [isTimeUp(startTime, durationMs) || allItems.length >= maxResults]. *)
Definition enough : K bool :=
  let+ up := isTimeUp startTime durationMs in
  let+ collected := read (fun s => List.length (Crawl.allItems s)) in
  kret (up || (maxResults <=? Z.of_nat collected)).

(** What the first two phases do with a repository they have not met: it
    is put in [checkedRepos] and scanned, and its files are collected. *)
Definition scan_and_collect (repoName : js json)
    (item_of : RepoInfo.t -> SkillFile.t -> Item.t) : K unit :=
  let+ _ := add repoName in
  let+ scanned := scanSingleRepo repoName in
  push_files maxResults (item_of (fst scanned)) (snd scanned).

Definition known_item (repoName : string) (repoInfo : RepoInfo.t)
    (file : SkillFile.t) : Item.t :=
  {| Item.repo := Def (JString repoName);
     Item.repoUrl := Def (JString ("https://github.com/" ++ repoName));
     Item.path := Def (JString (SkillFile.path file));
     Item.name := Def (JString (SkillFile.name file));
     Item.htmlUrl :=
       Def (JString ("https://github.com/" ++ repoName ++ "/blob/"
                     ++ template ToString (RepoInfo.defaultBranch repoInfo)
                     ++ "/" ++ SkillFile.path file)) |}.

(** Phase 1: the loop over the known repositories. *)
Fixpoint phase1 (repos : list string) : K unit :=
  match repos with
  | [] => kret tt
  | repoName :: rest =>
      let+ done := enough in
      if done then kret tt
      else
        let+ seen :=
          read (fun s => has (Crawl.checkedRepos s) (Def (JString repoName))) in
        if seen then phase1 rest
        else
          let+ _ :=
            scan_and_collect (Def (JString repoName)) (known_item repoName) in
          phase1 rest
  end.

Definition found_item (repoItem : RepoItem.t) (repoInfo : RepoInfo.t)
    (file : SkillFile.t) : Item.t :=
  {| Item.repo := RepoItem.repo repoItem;
     Item.repoUrl := RepoItem.repoUrl repoItem;
     Item.path := Def (JString (SkillFile.path file));
     Item.name := Def (JString (SkillFile.name file));
     Item.htmlUrl :=
       Def (JString ("https://github.com/"
                     ++ template_js (RepoItem.repo repoItem) ++ "/blob/"
                     ++ template ToString (RepoInfo.defaultBranch repoInfo)
                     ++ "/" ++ SkillFile.path file)) |}.

(** The loop over the repositories a search found. *)
Fixpoint scan_found (items : list RepoItem.t) : K unit :=
  match items with
  | [] => kret tt
  | repoItem :: rest =>
      let+ done := enough in
      if done then kret tt
      else
        let+ seen :=
          read (fun s => has (Crawl.checkedRepos s) (RepoItem.repo repoItem)) in
        if seen then scan_found rest
        else
          let+ _ :=
            scan_and_collect (RepoItem.repo repoItem) (found_item repoItem) in
          scan_found rest
  end.

(** The body of the [try] of phase 2. *)
Definition search_and_scan (query : string) (pageIndex : Z) : K unit :=
  let+ _ := log (LogSearch query pageIndex) in
  let+ result :=
    lift (searchRepos network JSON_parse encodeURIComponent ToString query
            pageIndex 10) in
  let+ _ := lift (sleep (getDelay true)) in
  match SearchResult.items result with
  | [] => log LogNoResults
  | items => scan_found items
  end.

(** Its [catch]. *)
Definition search_failed (query : string) (err : Error) : K unit :=
  let+ _ := log (LogSearchFailed query err) in
  if slowWalk then
    let+ _ := log LogCoolingDown in
    lift (sleep 30000)
  else kret tt.

(** The head of a turn of the loop of phase 2: [None] is the [break] of a
    single pass that has used its queries; a slow walk starts over on the
    next page, and after page 5 pauses and starts over on page 1. *)
Definition next_query (queryIndex : nat) (pageIndex : Z)
    : K (option (nat * Z)) :=
  if (List.length searchQueries <=? queryIndex)%nat then
    if negb slowWalk then kret None
    else if 5 <? pageIndex + 1 then
      let+ _ := log LogExhausted in
      let+ _ := lift (sleep 60000) in
      kret (Some (0%nat, 1))
    else kret (Some (0%nat, pageIndex + 1))
  else kret (Some (queryIndex, pageIndex)).

(** Phase 2: the [while] loop, for at most [turns] turns. *)
Fixpoint phase2 (turns : nat) (queryIndex : nat) (pageIndex : Z) : K unit :=
  match turns with
  | O => stop OutOfFuel
  | S turns' =>
      let+ done := enough in
      if done then kret tt
      else
        let+ next := next_query queryIndex pageIndex in
        match next with
        | None => kret tt
        | Some (queryIndex, pageIndex) =>
            let query := nth queryIndex searchQueries "undefined" in
            let+ _ :=
              try_catch (search_and_scan query pageIndex)
                (search_failed query) in
            phase2 turns' (S queryIndex) pageIndex
        end
  end.

(** The key that tells the items of a code search from those collected. *)
Definition item_key (item : Item.t) : string :=
  (template_js (Item.repo item) ++ ":" ++ template_js (Item.path item))%string.

(** What phase 3 does for a repository it has not met: it is recorded as
    having one skill, without a listing of its tree. *)
Definition note_repo (repoName : js json) : K unit :=
  match repoName with
  | Def (JString name) =>
      let parts := split "/" name in
      let owner := nth 0 parts "undefined" in
      let repo := nth 1 parts "undefined" in
      let+ repoInfo := lift (fetchRepoInfo network JSON_parse owner repo) in
      let+ _ := lift (sleep (getDelay false)) in
      match checked_info repoInfo 1 None with
      | None => stop NotTyped
      | Some info =>
          let+ _ := log_check name info in
          saveRepoCatalog
      end
  | _ => kthrow TypeError
  end.

(** The loop over the items of a code search. *)
Fixpoint add_code_items (items : list Item.t) : K unit :=
  match items with
  | [] => kret tt
  | item :: rest =>
      let+ known :=
        read (fun s =>
                existsb (fun existing =>
                           String.eqb (item_key existing) (item_key item))
                  (Crawl.allItems s)) in
      let+ _ :=
        if known then kret tt
        else
          let+ _ := push item in
          let+ seen :=
            read (fun s => has (Crawl.checkedRepos s) (Item.repo item)) in
          if seen then kret tt
          else
            let+ _ := add (Item.repo item) in
            note_repo (Item.repo item) in
      add_code_items rest
  end.

(** The body of the [try] of phase 3. *)
Definition code_search (query : string) : K unit :=
  let+ _ := log (LogCodeSearch query) in
  let+ collected := read (fun s => List.length (Crawl.allItems s)) in
  let+ result :=
    lift (searchCode query 1 (Z.min (maxResults - Z.of_nat collected) 30)) in
  let+ _ := lift (sleep (getDelay true)) in
  add_code_items (CodeResult.items result).

Fixpoint code_searches (queries : list string) : K unit :=
  match queries with
  | [] => kret tt
  | query :: rest =>
      let+ done := enough in
      if done then kret tt
      else
        let+ _ :=
          try_catch (code_search query)
            (fun err => log (LogCodeSearchFailed query err)) in
        code_searches rest
  end.

(** Phase 3, which needs a token. *)
Definition phase3 : K unit :=
  if hasToken then
    let+ done := enough in
    if done then kret tt
    else
      let+ _ := log LogPhase3 in
      code_searches codeQueries
  else kret tt.

(** What follows phase 1. *)
Definition search_phases (turns : nat) : K (list Item.t) :=
  let+ _ := log LogPhase2 in
  let+ _ := phase2 turns 0 1 in
  let+ _ := phase3 in
  let+ now := lift Date_now in
  let+ _ := log LogDone in
  let+ checked := read (fun s => List.length (Crawl.checkedRepos s)) in
  let+ found := read (fun s => List.length (Crawl.allItems s)) in
  let+ _ := log (LogChecked checked (now - startTime) found) in
  let+ tracked := read (fun s => size (Catalog.repos (Crawl.catalog s))) in
  let+ _ := log (LogTracked tracked) in
  read (fun s => slice_list (Crawl.allItems s) maxResults).

End Phases.

(** The state a crawl starts in: [loaded] is what [loadRepoCatalog]
    returned. *)
Definition start (loaded : Catalog.t) (w : World.t) : Crawl.t :=
  {| Crawl.world := w;
     Crawl.catalog := loaded;
     Crawl.written := [];
     Crawl.lines := [];
     Crawl.allItems := [];
     Crawl.checkedRepos := [] |}.

Definition maxResults_of (options : ScanOptions.t) : Z :=
  num_or (ScanOptions.limit options) 30.

Definition durationMs_of (options : ScanOptions.t) : Z :=
  num_or (ScanOptions.durationMs options) 0.

Definition searchQueries_of (options : ScanOptions.t) : list string :=
  match ScanOptions.queries options with
  | Some (query :: queries) => query :: queries
  | _ => REPO_SEARCH_QUERIES
  end.

(** Up to the end of phase 1; the result is [startTime]. *)
Definition known_phase (options : ScanOptions.t) : K Z :=
  let maxResults := maxResults_of options in
  let durationMs := durationMs_of options in
  let+ startTime := lift Date_now in
  let+ _ :=
    if slowWalk durationMs then log (LogSlowWalk durationMs) else kret tt in
  let+ _ := log LogPhase1 in
  let+ _ := phase1 maxResults durationMs startTime KNOWN_SKILL_REPOS in
  kret startTime.

(** [searchForSkillRepos(options)]; the loop of phase 2 is given [turns]
    turns. *)
Definition searchForSkillRepos (turns : nat) (options : ScanOptions.t)
    (loaded : Catalog.t) (w : World.t) : Run (list Item.t) :=
  (let+ startTime := known_phase options in
   search_phases (maxResults_of options) (durationMs_of options) startTime
     (searchQueries_of options) turns)
    (start loaded w).

End Crawler.

(** ** Inputs to run the definitions on *)

(** Modelled from the spec: [tokenize] of lib/skill-utils.js is not among the
    sources; the design only says that it yields a lower-case token set.
    This one lower-cases and splits at white space.  The theorems below hold
    for every tokenizer and use this one only to run examples. *)
Fixpoint words_from (acc : string) (s : string) : list string :=
  match s with
  | EmptyString => if nonempty acc then [acc] else []
  | String c s' =>
      if is_space c
      then (if nonempty acc then [acc] else []) ++ words_from EmptyString s'
      else words_from (acc ++ String (lower c) EmptyString) s'
  end.

Definition words (s : string) : list string := words_from EmptyString s.

(** A date parser and a comparison of identifiers to run examples with: no
    date is valid, and identifiers compare by code units. *)
Definition no_date (s : string) : option Z := None.

Definition compare_code_units (a b : string) : Z :=
  match String.compare a b with
  | Lt => -1
  | Eq => 0
  | Gt => 1
  end.

Definition nl : string := String (ascii_of_N 10) EmptyString.

(** The document of the scenario of the design (section 8), found in a
    directory [foo]. *)
Definition scenario_content : string :=
  "## Use When" ++ nl ++ "..." ++ nl ++ "## Instructions" ++ nl ++ "..." ++ nl
  ++ "```js" ++ nl ++ "code" ++ nl ++ "```".

Definition scenario_document : Skill.t :=
  {| Skill.id := "foo";
     Skill.name := "Foo";
     Skill.description := "AAAAAAAAAAAAAAAAAAAAAAAAAAAAAA";
     Skill.tags := ["x"];
     Skill.content := scenario_content;
     Skill.source := None;
     Skill.parseErrors := [] |}.

(** The same document with the two elided passages written out, which takes
    the body over 100 characters. *)
Definition long_content : string :=
  "## Use When" ++ nl
  ++ "Use it when a task needs the Foo tool and nothing else is at hand."
  ++ nl ++ "## Instructions" ++ nl
  ++ "Run the tool on the input, read what it prints, and report it."
  ++ nl ++ "```js" ++ nl ++ "code" ++ nl ++ "```".

Definition long_document : Skill.t :=
  {| Skill.id := "foo";
     Skill.name := "Foo";
     Skill.description := "AAAAAAAAAAAAAAAAAAAAAAAAAAAAAA";
     Skill.tags := ["x"];
     Skill.content := long_content;
     Skill.source := None;
     Skill.parseErrors := [] |}.

(** The long document again, found in a directory of the name it gives
    itself. *)
Definition same_name_document : Skill.t :=
  {| Skill.id := "Foo";
     Skill.name := "Foo";
     Skill.description := "AAAAAAAAAAAAAAAAAAAAAAAAAAAAAA";
     Skill.tags := ["x"];
     Skill.content := long_content;
     Skill.source := None;
     Skill.parseErrors := [] |}.

(** The similarity [scoreUniqueness] computes between a skill and one entry
    of the existing catalog. *)
Definition similarity_to (tokenize : string -> list string) (skill : Skill.t)
    (existing : Existing.t) : Q :=
  jaccardSimilarity
    (tokenize (Skill.name skill ++ " " ++ Skill.description skill)%string)
    (tokenize (or_empty (Existing.name existing) ++ " "
               ++ or_empty (Existing.description existing))%string).

(** The bound of the data model on a catalog: no entry has more than 20
    checks. *)
Definition checks_bounded_at (repoName : string) (catalog : Catalog.t)
    : Prop :=
  forall entry,
    Catalog.repos catalog !! repoName = Some entry ->
    (List.length (Entry.checks entry) <= 20)%nat.

Definition checks_bounded (catalog : Catalog.t) : Prop :=
  forall repoName, checks_bounded_at repoName catalog.

(** The check [logRepoCheck] pushes. *)
Definition check_of (now : string) (info : Info.t) : Check.t :=
  {| Check.timestamp := now;
     Check.skillCount := num_or (Info.skillCount info) 0;
     Check.status := str_or (Info.status info) "checked" |}.

(** Twenty-two visits to one repository, at times [0] to [21], and a later
    one. *)
Definition sample_info : Info.t :=
  {| Info.stars := Some 3; Info.forks := None; Info.description := None;
     Info.skillCount := Some 2; Info.skillIds := Some ["foo"; "bar"];
     Info.status := Some "has-skills" |}.

Definition sample_visits : list visit :=
  List.map (fun i => (show (Z.of_nat i), "owner/repo", sample_info))
    (seq 0 22).

Definition sample_later : list visit :=
  [ ("22", "other/repo", sample_info); ("23", "owner/repo", sample_info) ].

(** [a] may stand before [b] in an array sorted with [comparefn]. *)
Definition in_order {A} (comparefn : A -> A -> number) (a b : A) : Prop :=
  SortCompare comparefn a b <= 0.

(** The order the design states for the inventory: score descending, then
    id ascending in the order of [localeCompare]. *)
Definition score_then_id (localeCompare : string -> string -> Z)
    (a b : Ranked.t) : Prop :=
  exists sa sb,
    Ranked.score a = Num sa /\ Ranked.score b = Num sb
    /\ sb <= sa
    /\ (sa = sb -> localeCompare (Ranked.id a) (Ranked.id b) <= 0).

(** Two documents to rank together: a bare one in a directory [alpha] and
    the long one above in a directory [zeta]; and an existing catalog of one
    unrelated entry. *)
Definition bare_document : Skill.t :=
  {| Skill.id := "alpha";
     Skill.name := "alpha";
     Skill.description := EmptyString;
     Skill.tags := [];
     Skill.content := EmptyString;
     Skill.source := None;
     Skill.parseErrors := [] |}.

Definition rich_document : Skill.t :=
  {| Skill.id := "zeta";
     Skill.name := "Foo";
     Skill.description := "AAAAAAAAAAAAAAAAAAAAAAAAAAAAAA";
     Skill.tags := ["x"];
     Skill.content := long_content;
     Skill.source := None;
     Skill.parseErrors := [] |}.

Definition one_existing : list Existing.t :=
  [ {| Existing.id := "bar"; Existing.name := Some "Bar";
       Existing.description := None |} ].

(** Runs of [consolidate]: default options or a minimum score of 101; a
    crawl that finds nothing or one that finds the document of the
    scenario. *)
Definition default_options : Options.t :=
  {| Options.query := None; Options.limit := None; Options.minScore := None;
     Options.output := None; Options.durationMs := None |}.

Definition strict_options : Options.t :=
  {| Options.query := None; Options.limit := None;
     Options.minScore := Some 101; Options.output := None;
     Options.durationMs := None |}.

Definition env_finding (found : list Skill.t) : Env.t :=
  {| Env.existingSkills := one_existing;
     Env.discoverSkills := fun _ _ _ => (Z.of_nat (List.length found), found);
     Env.repoCatalog := recordVisits empty_catalog sample_visits;
     Env.scannedAt := "2024-01-01T00:00:00.000Z";
     Env.clock := fun _ => 0 |}.

(** A network that answers every request with a 422, and a world in which
    nothing has happened yet. *)
Definition unprocessable : RawResponse.t :=
  {| RawResponse.statusCode := 422;
     RawResponse.body := "{}";
     RawResponse.rateLimitRemaining := 9;
     RawResponse.rateLimitReset := 0 |}.

Definition network_422 (n : nat) (url : string) : string + RawResponse.t :=
  inr unprocessable.

Definition world0 : World.t :=
  {| World.requests := 0; World.now := 0; World.trace := [] |}.

(** A skill whose id is taken in the catalog, by an entry that has nothing
    else in common with it; and a skill that shares two of its three tokens
    with an entry of another id. *)
Definition git_helper : Skill.t :=
  {| Skill.id := "git-helper";
     Skill.name := "Git Helper";
     Skill.description := "Helps with git";
     Skill.tags := [];
     Skill.content := EmptyString;
     Skill.source := None;
     Skill.parseErrors := [] |}.

Definition catalog_with_git_helper : list Existing.t :=
  [ {| Existing.id := "docker"; Existing.name := Some "Docker";
       Existing.description := Some "Containers" |};
    {| Existing.id := "git-helper"; Existing.name := Some "Unrelated";
       Existing.description := None |} ].

Definition git_pro : Skill.t :=
  {| Skill.id := "git-pro";
     Skill.name := "Git Helper";
     Skill.description := "pro";
     Skill.tags := [];
     Skill.content := EmptyString;
     Skill.source := None;
     Skill.parseErrors := [] |}.

Definition catalog_near_git_pro : list Existing.t :=
  [ {| Existing.id := "k8s"; Existing.name := Some "Kubernetes";
       Existing.description := Some "Cluster tips" |};
    {| Existing.id := "git-basics"; Existing.name := Some "Git helper";
       Existing.description := None |} ].

(** A skill whose tokens hold keywords of three rules. *)
Definition incident_skill : Skill.t :=
  {| Skill.id := "incident-pipeline";
     Skill.name := "Incident pipeline";
     Skill.description := "kafka incident data";
     Skill.tags := [];
     Skill.content := EmptyString;
     Skill.source := None;
     Skill.parseErrors := [] |}.

(** How often a sequence of visits goes to a repository, and how many checks
    the catalog holds for it (none without an entry). *)
Definition count_visits (repoName : string) (visits : list visit) : nat :=
  List.length
    (List.filter (fun v : visit => String.eqb (snd (fst v)) repoName) visits).

Definition checks_at (repoName : string) (catalog : Catalog.t) : nat :=
  match Catalog.repos catalog !! repoName with
  | Some entry => List.length (Entry.checks entry)
  | None => O
  end.

(** The repository a visit is paid to. *)
Definition repo_of (v : visit) : string := snd (fst v).

(** No entry of the catalog has a name that objects inherit. *)
Definition plain_names (catalog : Catalog.t) : Prop :=
  forall repoName,
    is_Some (Catalog.repos catalog !! repoName) -> inherited repoName = false.

(** What [scanSingleRepo] reports for a repository in which it finds no
    skill file and whose metadata it could not fetch. *)
Definition nothing_found : Info.t :=
  {| Info.stars := Some 0; Info.forks := Some 0;
     Info.description := Some EmptyString; Info.skillCount := Some 0;
     Info.skillIds := Some []; Info.status := Some "no-skills" |}.

(** A clock that prints the time as the number of milliseconds, to run
    [getStaleRepos] with. *)
Definition print_time (t : Z) : option string := Some (show t).

(** Networks that answer every request alike: out of quota, with a server
    error, and with a page that is not there. *)
Definition out_of_quota : RawResponse.t :=
  {| RawResponse.statusCode := 403;
     RawResponse.body := "{}";
     RawResponse.rateLimitRemaining := 0;
     RawResponse.rateLimitReset := 5 |}.

Definition server_error : RawResponse.t :=
  {| RawResponse.statusCode := 503;
     RawResponse.body := "{}";
     RawResponse.rateLimitRemaining := 50;
     RawResponse.rateLimitReset := 0 |}.

Definition not_found : RawResponse.t :=
  {| RawResponse.statusCode := 404;
     RawResponse.body := "{}";
     RawResponse.rateLimitRemaining := 50;
     RawResponse.rateLimitReset := 0 |}.

Definition always (r : RawResponse.t) (n : nat) (url : string)
    : string + RawResponse.t :=
  inr r.

(** The world after a request was sent: as it is, after a log line, and
    after a log line and a sleep. *)
Definition after_request (w : World.t) : World.t :=
  {| World.requests := S (World.requests w);
     World.now := World.now w;
     World.trace := World.trace w |}.

Definition after_log (w : World.t) (e : Event) : World.t :=
  {| World.requests := S (World.requests w);
     World.now := World.now w;
     World.trace := e :: World.trace w |}.

Definition after_wait (w : World.t) (e : Event) (ms : Z) : World.t :=
  {| World.requests := S (World.requests w);
     World.now := World.now w + Z.max ms 0;
     World.trace := Sleep ms :: e :: World.trace w |}.

(** The wait [rateLimitedGet] computes from the reset time of a response. *)
Definition wait_ms (w : World.t) (r : RawResponse.t) : Z :=
  Z.max (RawResponse.rateLimitReset r * 1000 - World.now w) 1000.

(** The longest delay a timer of Node takes as it is given, 2^31 - 1
    milliseconds, not quite 25 days; [setTimeout] replaces a longer delay,
    like one below 1, by 1 millisecond.  So [sleep] above is the sleep of
    the code for the delays [timer_delay] leaves as they are. *)
Definition TIMEOUT_MAX : Z := 2147483647.

Definition timer_delay (ms : Z) : Z :=
  if (1 <=? ms) && (ms <=? TIMEOUT_MAX) then ms else 1.

(** Every sleep among [events] is at least a second long, and as long as
    was asked for. *)
Definition slept_a_second (events : list Event) : Prop :=
  Forall (fun e => match e with
                   | Sleep ms => 1000 <= ms /\ timer_delay ms = ms
                   | _ => True
                   end) events.

(** A repository search that finds two repositories, one of them without
    any of the optional fields, and a tree in which three of four entries
    are files whose names end in SKILL.md; a parser that reads every body as
    the one or as the other; and a network on which the first request meets
    a page that is not there and the others succeed. *)
Definition found_two : json :=
  JObject
    [ ("total_count", JNumber 2);
      ("items",
       JArray
         [ JObject [ ("full_name", JString "owner/repo");
                     ("html_url", JString "https://github.com/owner/repo");
                     ("stargazers_count", JNumber 7) ];
           JObject [ ("full_name", JString "other/repo") ] ]) ].

(** A search result one of whose items is null. *)
Definition found_null : json :=
  JObject
    [ ("total_count", JNumber 2);
      ("items", JArray [ JObject [ ("full_name", JString "owner/repo") ];
                         JNull ]) ].

Definition some_tree : json :=
  JObject
    [ ("tree",
       JArray
         [ JObject [ ("type", JString "blob");
                     ("path", JString "skills/foo/SKILL.md") ];
           JObject [ ("type", JString "tree");
                     ("path", JString "skills/SKILL.md") ];
           JObject [ ("type", JString "blob");
                     ("path", JString "docs/NOT_A_SKILL.md") ];
           JObject [ ("type", JString "blob"); ("path", JString "README.md") ];
           JObject [ ("type", JString "blob"); ("path", JString "SKILL.md") ]
         ]) ].

Definition ok_response : RawResponse.t :=
  {| RawResponse.statusCode := 200;
     RawResponse.body := "{}";
     RawResponse.rateLimitRemaining := 50;
     RawResponse.rateLimitReset := 0 |}.

Definition first_missing (n : nat) (url : string) : string + RawResponse.t :=
  match n with
  | O => inr not_found
  | S _ => inr ok_response
  end.

(** A run of [consolidate] that asks for a score of 30 or more, and a
    comparison of ids for which all ids tie. *)
Definition options_30 : Options.t :=
  {| Options.query := None; Options.limit := None;
     Options.minScore := Some 30; Options.output := None;
     Options.durationMs := None |}.

Definition all_tie (a b : string) : Z := 0.

(** A GitHub that answers every request: a repository with nine stars, the
    tree above for every branch, and the two repositories above for every
    search; the body of a response only names what it holds, and the parser
    reads the names. *)
Definition some_repo : json :=
  JObject
    [ ("stargazers_count", JNumber 9);
      ("forks_count", JNumber 2);
      ("description", JString "Skills for agents");
      ("default_branch", JString "trunk") ].

Definition answer (body : string) : RawResponse.t :=
  {| RawResponse.statusCode := 200;
     RawResponse.body := body;
     RawResponse.rateLimitRemaining := 50;
     RawResponse.rateLimitReset := 0 |}.

Definition small_github (n : nat) (url : string) : string + RawResponse.t :=
  if occurs "/git/trees/" url then inr (answer "tree")
  else if occurs "/search/" url then inr (answer "search")
  else inr (answer "repo").

Definition read_names (body : string) : option json :=
  if String.eqb body "tree" then Some some_tree
  else if String.eqb body "search" then Some found_two
  else if String.eqb body "repo" then Some some_repo
  else None.

Definition no_text (v : json) : string := "?".

Definition one_query (limit : Z) : ScanOptions.t :=
  {| ScanOptions.limit := Some limit;
     ScanOptions.durationMs := None;
     ScanOptions.queries := Some ["skills"] |}.

(** What the properties of the crawl are stated with. *)

(** The repositories [scanSingleRepo] announced in a log, latest first. *)
Fixpoint scanned (lines : list Line) : list string :=
  match lines with
  | [] => []
  | LogChecking repoName :: rest => repoName :: scanned rest
  | _ :: rest => scanned rest
  end.

Definition clock (s : Crawl.t) : Z := World.now (Crawl.world s).
Definition sent (s : Crawl.t) : nat := World.requests (Crawl.world s).

(** The clock has not gone back and no request was unsent. *)
Definition goes_on (w w' : World.t) : Prop :=
  World.now w <= World.now w' /\ (World.requests w <= World.requests w')%nat.

Definition is_skill_file (file : SkillFile.t) : Prop :=
  endsWith (SkillFile.path file) "SKILL.md" = true
  /\ SkillFile.name file = "SKILL.md".

Definition is_skill_item (item : Item.t) : Prop :=
  exists repoName path,
    Item.repo item = Def (JString repoName)
    /\ Item.path item = Def (JString path)
    /\ endsWith path "SKILL.md" = true
    /\ Item.name item = Def (JString "SKILL.md").

(** The catalog after [saveRepoCatalog] at time [now]. *)
Definition stamped (now : string) (catalog : Catalog.t) : Catalog.t :=
  {| Catalog.repos := Catalog.repos catalog;
     Catalog.lastUpdated := Some now |}.

(** repo-catalog.json holds the catalog of the crawl, if the crawl has
    written it at all; if not, the catalog is as it was loaded. *)
Definition saved (loaded : Catalog.t) (s : Crawl.t) : Prop :=
  (Crawl.written s = [] /\ Crawl.catalog s = loaded)
  \/ head (Crawl.written s) = Some (Crawl.catalog s).

(** No repository was announced twice, and those announced are in
    [checkedRepos]. *)
Definition scanned_once (s : Crawl.t) : Prop :=
  List.NoDup (scanned (Crawl.lines s))
  /\ forall repoName,
       In repoName (scanned (Crawl.lines s)) ->
       has (Crawl.checkedRepos s) (Def (JString repoName)) = true.

Definition within (maxResults : Z) (s : Crawl.t) : Prop :=
  Z.of_nat (List.length (Crawl.allItems s)) <= Z.max maxResults 0.

Definition collected (maxResults : Z) (s : Crawl.t) : Prop :=
  within maxResults s /\ Forall is_skill_item (Crawl.allItems s).

Definition recorded (loaded : Catalog.t) (s : Crawl.t) : Prop :=
  scanned_once s /\ saved loaded s.

(** A part of the crawl keeps [I] true: if [I] holds before it, [I] holds
    when it returns and when it throws. *)
Definition keeps {A} (I : Crawl.t -> Prop) (m : K A) : Prop :=
  forall s,
    I s -> match m s with Ran _ s' => I s' | Stopped _ => True end.

(** [I] does not mind requests and the passing of time. *)
Definition steady (I : Crawl.t -> Prop) : Prop :=
  forall s w, goes_on (Crawl.world s) w -> I s -> I (with_world s w).

(** The world has gone on from [w0]. *)
Definition after (w0 : World.t) (s : Crawl.t) : Prop :=
  goes_on w0 (Crawl.world s).

(** A part of the crawl that always comes to an end, with a result or an
    exception; and one that never throws. *)
Definition ends {A} (m : K A) : Prop :=
  forall s, exists r s', m s = Ran r s'.

Definition never_throws {A} (m : K A) : Prop :=
  forall s, match m s with Ran (Throw _) _ => False | _ => True end.

(** A response in which the counts of a repository are numbers and its
    description is a text, where they are given at all. *)
Definition is_count (v : js json) : bool :=
  match json_or v (JNumber 0) with JNumber _ => true | _ => false end.

Definition is_text (v : js json) : bool :=
  match json_or v (JString EmptyString) with JString _ => true | _ => false end.

Definition typed_repo (data : json) : bool :=
  match
    get_prop data "stargazers_count", get_prop data "forks_count",
    get_prop data "description"
  with
  | Some stars, Some forks, Some description =>
      is_count stars && is_count forks && is_text description
  | _, _, _ => true
  end.

(** Turns that are enough for phase 2: one for each query and one more in a
    single pass; in a slow walk, one for each pause after a search that fits
    in the time, and two more. *)
Definition enough_turns (hasToken : bool) (options : ScanOptions.t) : nat :=
  if durationMs_of options <=? 0
  then S (List.length (searchQueries_of options))
  else Z.to_nat (durationMs_of options / getDelay hasToken true) + 2.

(** ** Properties *)

(** *** The patterns of the ranker on small inputs *)

Example use_this_skill_when_matches :
  regex_test true re_use_this_skill_when "Please USE this  skill when ok"
  = true
  /\ regex_test true re_use_this_skill_when "use skill when lost" = true
  /\ regex_test true re_use_this_skill_when "use thisskill when lost" = false
  /\ regex_test true re_use_this_skill_when "use this skill" = false.
Proof. vm_compute. repeat split. Qed.

Example h2_patterns_match :
  regex_test true re_h2_use_when "##use   when" = true
  /\ regex_test true re_h2_use_when "# use when" = false
  /\ regex_test true re_h2_instructions "x ## How To y" = true
  /\ regex_test true re_h2_instructions "## howto" = false
  /\ regex_test true re_do_not_use ("do" ++ nl ++ "NOT  use") = true
  /\ regex_test false re_fence "a``b" = false
  /\ regex_test true re_references "see Reference/a and examples/" = true
  /\ regex_test true re_resources "resourcess/" = false.
Proof. vm_compute. repeat split. Qed.

Example h2_lines_counted :
  match_count false re_h2_line
    ("## a" ++ nl ++ "## b" ++ nl ++ "### c" ++ nl ++ "x ## d" ++ nl ++ "##"
     ++ nl)
  = 3
  /\ match_count false re_h2_line "##" = 0.
Proof. vm_compute. split; reflexivity. Qed.

(** *** Sets and the Jaccard similarity *)

Lemma Set_has_In (s : list string) (x : string) :
  Set_has s x = true <-> In x s.
Proof.
  unfold Set_has. rewrite existsb_exists. split.
  - intros (y & Hy & Heq). apply String.eqb_eq in Heq. now subst.
  - intros H. exists x. split; [assumption | apply String.eqb_refl].
Qed.

Lemma Set_add_spec (s : list string) (x : string) :
  NoDup s ->
  NoDup (Set_add s x) /\ (forall y, In y (Set_add s x) <-> In y s \/ y = x).
Proof.
  intros Hs. unfold Set_add. destruct (Set_has s x) eqn:Hhas.
  - apply Set_has_In in Hhas. split; [assumption |].
    intros y. split; [tauto | intros [H | ->]; assumption].
  - assert (~ In x s) as Hnot.
    { intros Hin. apply Set_has_In in Hin. congruence. }
    split.
    + apply NoDup_app. repeat split.
      * assumption.
      * intros y Hy Hy'. apply list_elem_of_In in Hy, Hy'.
        destruct Hy' as [<- | []]. contradiction.
      * apply NoDup_singleton.
    + intros y. rewrite in_app_iff. simpl. intuition.
Qed.

Lemma fold_Set_add_spec (l acc : list string) :
  NoDup acc ->
  NoDup (fold_left Set_add l acc)
  /\ (forall y, In y (fold_left Set_add l acc) <-> In y acc \/ In y l).
Proof.
  revert acc. induction l as [| x l IH]; intros acc Hacc; simpl.
  - split; [assumption | tauto].
  - destruct (Set_add_spec acc x Hacc) as [Hnd Hin].
    destruct (IH _ Hnd) as [Hnd' Hin']. split; [assumption |].
    intros y. rewrite Hin', Hin. intuition.
Qed.

Lemma new_Set_NoDup (l : list string) : NoDup (new_Set l).
Proof. apply fold_Set_add_spec. constructor. Qed.

Lemma new_Set_In (l : list string) (x : string) : In x (new_Set l) <-> In x l.
Proof.
  unfold new_Set. destruct (fold_Set_add_spec l [] (NoDup_nil_2)) as [_ H].
  rewrite H. simpl. tauto.
Qed.

Lemma new_Set_nonempty (l : list string) : l <> [] -> new_Set l <> [].
Proof.
  destruct l as [| x l]; [congruence |]. intros _ Hnil.
  assert (In x (new_Set (x :: l))) as Hin by (apply new_Set_In; now left).
  rewrite Hnil in Hin. destruct Hin.
Qed.

(** The counter of the [for ... of setA] loop. *)
Lemma intersection_count (setA setB : list string) (n : Z) :
  fold_left (fun n token => if Set_has setB token then n + 1 else n) setA n
  = n + Z.of_nat (List.length (List.filter (Set_has setB) setA)).
Proof.
  revert n. induction setA as [| a setA IH]; intros n; simpl.
  - lia.
  - rewrite IH. destruct (Set_has setB a); simpl List.length; lia.
Qed.

Lemma intersection_comm (setA setB : list string) :
  NoDup setA -> NoDup setB ->
  List.length (List.filter (Set_has setB) setA)
  = List.length (List.filter (Set_has setA) setB).
Proof.
  intros HA HB. apply Permutation_length, list.NoDup_Permutation.
  - apply NoDup_ListNoDup, List.NoDup_filter, NoDup_ListNoDup, HA.
  - apply NoDup_ListNoDup, List.NoDup_filter, NoDup_ListNoDup, HB.
  - intros x. rewrite !list_elem_of_In, !filter_In, !Set_has_In. tauto.
Qed.

Lemma filter_all {A} (f : A -> bool) (l : list A) :
  (forall x, In x l -> f x = true) -> List.filter f l = l.
Proof.
  induction l as [| a l IH]; intros H; simpl; [reflexivity |].
  rewrite (H a (or_introl eq_refl)). f_equal. apply IH.
  intros x Hx. apply H. now right.
Qed.

Lemma jaccardSimilarity_comm (A B : list string) :
  jaccardSimilarity A B = jaccardSimilarity B A.
Proof.
  unfold jaccardSimilarity. rewrite (orb_comm (_ =? _)%nat).
  destruct ((List.length B =? 0)%nat || (List.length A =? 0)%nat);
    [reflexivity |].
  cbv zeta. rewrite !intersection_count.
  rewrite (intersection_comm (new_Set A) (new_Set B))
    by apply new_Set_NoDup.
  rewrite (Z.add_comm (Set_size (new_Set A))). reflexivity.
Qed.

Lemma jaccardSimilarity_self (A : list string) :
  A <> [] -> jaccardSimilarity A A = 1%Q.
Proof.
  intros HA. unfold jaccardSimilarity.
  destruct A as [| a A']; [congruence |]. set (A := a :: A') in *.
  change ((List.length A =? 0)%nat) with false. cbv zeta. simpl orb. cbv iota.
  rewrite intersection_count.
  rewrite filter_all by (intros x Hx; now apply Set_has_In).
  unfold Set_size.
  assert (0 < Z.of_nat (List.length (new_Set A))) as Hpos.
  { pose proof (new_Set_nonempty A HA) as Hne.
    destruct (new_Set A); [congruence | simpl List.length; lia]. }
  set (n := Z.of_nat (List.length (new_Set A))) in *.
  replace (n + n - (0 + n)) with n by lia.
  destruct (n =? 0) eqn:Hz; [lia |].
  change 1%Q with (Qred 1). apply Qred_complete.
  unfold Qeq. simpl. rewrite Z2Pos.id by lia. lia.
Qed.

(** C8: [jaccardSimilarity] is symmetric, gives 1 for a non-empty token list
    against itself, and gives 0 when the first token list is empty. *)
Theorem jaccardSimilarity_properties (A B : list string) :
  jaccardSimilarity A B = jaccardSimilarity B A
  /\ (A <> [] -> jaccardSimilarity A A = 1%Q)
  /\ jaccardSimilarity [] B = 0%Q.
Proof.
  split; [apply jaccardSimilarity_comm |].
  split; [apply jaccardSimilarity_self | reflexivity].
Qed.

Lemma jaccardSimilarity_properties_witness :
  jaccardSimilarity ["a"; "b"; "a"] ["b"; "c"]
  = jaccardSimilarity ["b"; "c"] ["a"; "b"; "a"]
  /\ jaccardSimilarity ["a"; "b"; "a"] ["a"; "b"; "a"] = 1%Q
  /\ jaccardSimilarity [] ["b"; "c"] = 0%Q.
Proof.
  destruct (jaccardSimilarity_properties ["a"; "b"; "a"] ["b"; "c"])
    as (Hcomm & Hself & Hnil).
  split; [exact Hcomm |].
  split; [apply Hself; discriminate | exact Hnil].
Defined.

Example jaccardSimilarity_third :
  jaccardSimilarity ["a"; "b"; "a"] ["b"; "c"] = (1 # 3)%Q.
Proof. reflexivity. Qed.

(** *** Tiers *)

(** C5: the tier is a step function of the score, with steps at 75, 50 and
    25; in particular 75 gives three stars, 74 and 50 two, 49 and 25 one, 24
    and 0 the hexagon. *)
Theorem assignTier_steps (score : Z) :
  (75 <= score -> assignTier (Num score) = Tier3)
  /\ (50 <= score <= 74 -> assignTier (Num score) = Tier2)
  /\ (25 <= score <= 49 -> assignTier (Num score) = Tier1)
  /\ (score <= 24 -> assignTier (Num score) = Tier0)
  /\ tier_label (assignTier (Num 75)) = "★★★"
  /\ tier_label (assignTier (Num 74)) = "★★"
  /\ tier_label (assignTier (Num 50)) = "★★"
  /\ tier_label (assignTier (Num 49)) = "★"
  /\ tier_label (assignTier (Num 25)) = "★"
  /\ tier_label (assignTier (Num 24)) = "⬡"
  /\ tier_label (assignTier (Num 0)) = "⬡".
Proof.
  unfold assignTier, js_ge.
  repeat split; try reflexivity; intros H;
    destruct (75 <=? score) eqn:H75; destruct (50 <=? score) eqn:H50;
    destruct (25 <=? score) eqn:H25; try reflexivity; lia.
Qed.

Lemma assignTier_steps_witness :
  assignTier (Num 90) = Tier3 /\ assignTier (Num 60) = Tier2
  /\ assignTier (Num 30) = Tier1 /\ assignTier (Num 10) = Tier0.
Proof.
  split; [apply (assignTier_steps 90); lia |].
  split; [apply (assignTier_steps 60); lia |].
  split; [apply (assignTier_steps 30); lia | apply (assignTier_steps 10); lia].
Defined.

(** *** Uniqueness *)

Lemma Qgtb_true (a b : Q) : Qgtb a b = true <-> (b < a)%Q.
Proof.
  unfold Qgtb. rewrite negb_true_iff, <- not_true_iff_false, Qle_bool_iff.
  split; [apply Qnot_le_lt | apply Qlt_not_le].
Qed.

Lemma Qgtb_false (a b : Q) : Qgtb a b = false <-> (a <= b)%Q.
Proof. unfold Qgtb. now rewrite negb_false_iff, Qle_bool_iff. Qed.

(** An entry with the id of the skill ends the loop, whatever came before. *)
Lemma uniqueness_loop_collision (tokenize : string -> list string)
    (skill : Skill.t) (tokens : list string) (existingSkills : list Existing.t)
    (maxSimilarity : Q) (bestMatchId : js string) :
  Exists (fun e => Existing.id e = Skill.id skill) existingSkills ->
  uniqueness_loop tokenize skill tokens existingSkills maxSimilarity bestMatchId
  = inl (UObject 0 (Def (Skill.id skill)) true).
Proof.
  intros Hex. revert maxSimilarity bestMatchId.
  induction existingSkills as [| e rest IH]; intros m b.
  - inversion Hex.
  - simpl.
    destruct (String.eqb_spec (Existing.id e) (Skill.id skill)) as [Heq | Hne].
    + now rewrite Heq.
    + apply Exists_cons in Hex as [Hhd | Htl]; [contradiction |].
      destruct (Qgtb _ m); now apply IH.
Qed.

(** Without such an entry the loop ends with the largest similarity seen, and
    with the id of the first entry that reaches it. *)
Lemma uniqueness_loop_max (tokenize : string -> list string) (skill : Skill.t)
    (existingSkills : list Existing.t) :
  Forall (fun e => Existing.id e <> Skill.id skill) existingSkills ->
  forall (maxSimilarity : Q) (bestMatchId : js string),
  exists m' b',
    uniqueness_loop tokenize skill
      (tokenize (Skill.name skill ++ " " ++ Skill.description skill)%string)
      existingSkills maxSimilarity bestMatchId = inr (m', b')
    /\ (maxSimilarity <= m')%Q
    /\ Forall (fun e => (similarity_to tokenize skill e <= m')%Q) existingSkills
    /\ ((m' = maxSimilarity /\ b' = bestMatchId)
        \/ exists e, In e existingSkills
                     /\ m' = similarity_to tokenize skill e
                     /\ b' = Def (Existing.id e)
                     /\ (maxSimilarity < m')%Q).
Proof.
  induction 1 as [| e rest Hne _ IH]; intros m b.
  - exists m, b. repeat split; [apply Qle_refl | constructor | now left].
  - simpl. destruct (String.eqb_spec (Existing.id e) (Skill.id skill));
      [contradiction |].
    fold (similarity_to tokenize skill e).
    destruct (Qgtb (similarity_to tokenize skill e) m) eqn:Hgt.
    + apply Qgtb_true in Hgt.
      destruct (IH (similarity_to tokenize skill e) (Def (Existing.id e)))
        as (m' & b' & Hloop & Hle & Hall & Hbest).
      exists m', b'. split; [exact Hloop |].
      split; [apply Qlt_le_weak; eapply Qlt_le_trans; eassumption |].
      split; [constructor; assumption |]. right.
      destruct Hbest as [[-> ->] | (e' & Hin & -> & -> & Hlt)].
      * exists e. split; [now left | auto].
      * exists e'. split; [now right |]. repeat split.
        eapply Qlt_trans; eassumption.
    + apply Qgtb_false in Hgt.
      destruct (IH m b) as (m' & b' & Hloop & Hle & Hall & Hbest).
      exists m', b'. split; [exact Hloop |]. split; [exact Hle |].
      split; [constructor; [eapply Qle_trans; eassumption | assumption] |].
      destruct Hbest as [? | (e' & Hin & ? & ? & ?)]; [now left |].
      right. exists e'. split; [now right | auto].
Qed.

(** C4: when some existing entry has the id of the discovered skill,
    [scoreUniqueness] returns score 0, [isDuplicate] true and that id as
    [duplicateOf], whatever the names and descriptions are; [rankSkill]
    carries the three into the ranked record. *)
Theorem scoreUniqueness_id_collision (tokenize : string -> list string)
    (Date_parse : string -> option Z) (now : Z) (skill : Skill.t)
    (existingSkills : list Existing.t) (e : Existing.t) :
  In e existingSkills ->
  Existing.id e = Skill.id skill ->
  scoreUniqueness tokenize skill existingSkills
  = UObject 0 (Def (Existing.id e)) true
  /\ let r := rankSkill tokenize Date_parse now skill existingSkills in
     Breakdown.uniqueness (Ranked.breakdown r) = Def (Num 0)
     /\ Ranked.isDuplicate r = Def true
     /\ Ranked.duplicateOf r = Def (Existing.id e).
Proof.
  intros Hin Hid.
  assert (scoreUniqueness tokenize skill existingSkills
          = UObject 0 (Def (Existing.id e)) true) as Hu.
  { unfold scoreUniqueness.
    destruct existingSkills as [| x l]; [destruct Hin |].
    change ((List.length (x :: l) =? 0)%nat) with false. cbv iota.
    rewrite uniqueness_loop_collision; [now rewrite Hid |].
    apply List.Exists_exists. exists e. split; assumption. }
  split; [exact Hu |]. unfold rankSkill. cbv zeta. simpl. rewrite Hu.
  repeat split.
Qed.

Lemma scoreUniqueness_id_collision_witness :
  scoreUniqueness words git_helper catalog_with_git_helper
  = UObject 0 (Def "git-helper") true.
Proof.
  apply (scoreUniqueness_id_collision words no_date 0 git_helper
           catalog_with_git_helper
           {| Existing.id := "git-helper"; Existing.name := Some "Unrelated";
              Existing.description := None |}).
  - simpl. right. left. reflexivity.
  - reflexivity.
Defined.

(** C10: with no entry of the same id, when the largest similarity to an
    existing entry is over 0.5 and at most 0.7, [scoreUniqueness] returns
    [isDuplicate] false and, as [duplicateOf], the id of an entry that
    reaches that largest similarity: the ranked record names a duplicate
    without being flagged as one. *)
Theorem scoreUniqueness_soft_match (tokenize : string -> list string)
    (Date_parse : string -> option Z) (now : Z) (skill : Skill.t)
    (existingSkills : list Existing.t) (best : Existing.t) :
  Forall (fun e => Existing.id e <> Skill.id skill) existingSkills ->
  In best existingSkills ->
  Forall (fun e => (similarity_to tokenize skill e
                    <= similarity_to tokenize skill best)%Q) existingSkills ->
  (5 # 10 < similarity_to tokenize skill best)%Q ->
  (similarity_to tokenize skill best <= 7 # 10)%Q ->
  exists e,
    In e existingSkills
    /\ (similarity_to tokenize skill e == similarity_to tokenize skill best)%Q
    /\ scoreUniqueness tokenize skill existingSkills
       = UObject 10 (Def (Existing.id e)) false
    /\ let r := rankSkill tokenize Date_parse now skill existingSkills in
       Ranked.isDuplicate r = Def false
       /\ Ranked.duplicateOf r = Def (Existing.id e).
Proof.
  intros Hids Hin Hmax Hlo Hhi.
  destruct (uniqueness_loop_max tokenize skill existingSkills Hids 0%Q Null)
    as (m' & b' & Hloop & _ & Hall & Hbest).
  assert (similarity_to tokenize skill best <= m')%Q as Hbest_le.
  { rewrite List.Forall_forall in Hall. now apply Hall. }
  destruct Hbest as [[-> _] | (e & He & -> & -> & _)].
  { exfalso. apply (Qlt_irrefl (5 # 10)).
    eapply Qlt_le_trans; [exact Hlo |].
    eapply Qle_trans; [exact Hbest_le | discriminate]. }
  assert (similarity_to tokenize skill e
          == similarity_to tokenize skill best)%Q as Heq.
  { apply Qle_antisym; [| exact Hbest_le].
    rewrite List.Forall_forall in Hmax. now apply Hmax. }
  assert (scoreUniqueness tokenize skill existingSkills
          = UObject 10 (Def (Existing.id e)) false) as Hu.
  { unfold scoreUniqueness.
    destruct existingSkills as [| x l]; [destruct Hin |].
    change ((List.length (x :: l) =? 0)%nat) with false. cbv iota zeta.
    rewrite Hloop.
    replace (Qgtb (similarity_to tokenize skill e) (7 # 10)) with false
      by (symmetry; apply Qgtb_false; now rewrite Heq).
    replace (Qgtb (similarity_to tokenize skill e) (5 # 10)) with true
      by (symmetry; apply Qgtb_true; now rewrite Heq).
    reflexivity. }
  exists e. split; [exact He |]. split; [exact Heq |]. split; [exact Hu |].
  unfold rankSkill. cbv zeta. simpl. rewrite Hu. split; reflexivity.
Qed.

Lemma scoreUniqueness_soft_match_witness :
  exists e,
    In e catalog_near_git_pro
    /\ scoreUniqueness words git_pro catalog_near_git_pro
       = UObject 10 (Def (Existing.id e)) false.
Proof.
  destruct (scoreUniqueness_soft_match words no_date 0 git_pro
              catalog_near_git_pro
              {| Existing.id := "git-basics";
                 Existing.name := Some "Git helper";
                 Existing.description := None |})
    as (e & He & _ & Hu & _).
  - repeat constructor; discriminate.
  - simpl. right. left. reflexivity.
  - repeat constructor; vm_compute; discriminate.
  - vm_compute. reflexivity.
  - vm_compute. discriminate.
  - exists e. split; [exact He | exact Hu].
Defined.

Example scoreUniqueness_soft_match_run :
  similarity_to words git_pro
    {| Existing.id := "git-basics"; Existing.name := Some "Git helper";
       Existing.description := None |} = (2 # 3)%Q
  /\ scoreUniqueness words git_pro catalog_near_git_pro
     = UObject 10 (Def "git-basics") false.
Proof. split; reflexivity. Qed.

(** *** The four sub-scores *)

Ltac split_ifs :=
  repeat match goal with
         | |- context [if ?c then _ else _] => destruct c
         | |- context [match ?x with _ => _ end] => destruct x
         end.

Lemma scoreCompleteness_range (skill : Skill.t) :
  0 <= scoreCompleteness skill <= 25.
Proof. unfold scoreCompleteness. cbv zeta. split_ifs; lia. Qed.

Lemma scoreQuality_range (skill : Skill.t) : 0 <= scoreQuality skill <= 25.
Proof. unfold scoreQuality. cbv zeta. split_ifs; lia. Qed.

Lemma scoreRepoSignals_range (Date_parse : string -> option Z) (now : Z)
    (skill : Skill.t) :
  0 <= scoreRepoSignals Date_parse now skill <= 25.
Proof. unfold scoreRepoSignals. cbv zeta. split_ifs; lia. Qed.

Lemma uniqueness_loop_result (tokenize : string -> list string)
    (skill : Skill.t) (tokens : list string) (existingSkills : list Existing.t)
    (maxSimilarity : Q) (bestMatchId : js string) :
  (exists id, uniqueness_loop tokenize skill tokens existingSkills
                maxSimilarity bestMatchId = inl (UObject 0 (Def id) true))
  \/ (exists m b, uniqueness_loop tokenize skill tokens existingSkills
                    maxSimilarity bestMatchId = inr (m, b)).
Proof.
  revert maxSimilarity bestMatchId.
  induction existingSkills as [| e rest IH]; intros m b; simpl.
  - right. eauto.
  - destruct (String.eqb _ _); [left; eauto |].
    destruct (Qgtb _ m); apply IH.
Qed.

(** Against a catalog that is not empty, [scoreUniqueness] returns an object
    whose score is one of 0, 3, 10, 18 and 25. *)
Lemma scoreUniqueness_object (tokenize : string -> list string)
    (skill : Skill.t) (existingSkills : list Existing.t) :
  existingSkills <> [] ->
  exists s d b,
    scoreUniqueness tokenize skill existingSkills = UObject s d b
    /\ 0 <= s <= 25.
Proof.
  intros Hne. unfold scoreUniqueness.
  destruct existingSkills as [| x l]; [congruence |].
  change ((List.length (x :: l) =? 0)%nat) with false. cbv iota zeta.
  destruct (uniqueness_loop_result tokenize skill
              (tokenize
                 (Skill.name skill ++ " " ++ Skill.description skill)%string)
              (x :: l) 0%Q Null) as [(id & ->) | (m & b & ->)].
  - do 3 eexists. split; [reflexivity | lia].
  - split_ifs; do 3 eexists; (split; [reflexivity | lia]).
Qed.

(** The invariant of a ranked record holds whenever the existing catalog is
    not empty: the score is the sum of the four sub-scores, each of them is
    between 0 and 25, and the score is between 0 and 100. *)
Lemma rankSkill_breakdown (tokenize : string -> list string)
    (Date_parse : string -> option Z) (now : Z) (skill : Skill.t)
    (existingSkills : list Existing.t) :
  existingSkills <> [] ->
  let r := rankSkill tokenize Date_parse now skill existingSkills in
  let b := Ranked.breakdown r in
  exists u,
    Breakdown.uniqueness b = Def (Num u)
    /\ Ranked.score r
       = Num (Breakdown.completeness b + u + Breakdown.quality b
              + Breakdown.repoSignals b)
    /\ 0 <= Breakdown.completeness b <= 25
    /\ 0 <= u <= 25
    /\ 0 <= Breakdown.quality b <= 25
    /\ 0 <= Breakdown.repoSignals b <= 25
    /\ exists total, Ranked.score r = Num total /\ 0 <= total <= 100.
Proof.
  intros Hne.
  destruct (scoreUniqueness_object tokenize skill existingSkills Hne)
    as (s & d & dup & Hu & Hs).
  pose proof (scoreCompleteness_range skill) as Hc.
  pose proof (scoreQuality_range skill) as Hq.
  pose proof (scoreRepoSignals_range Date_parse now skill) as Hr.
  unfold rankSkill. cbv zeta. simpl. rewrite Hu. simpl.
  exists s. repeat split; try lia.
  eexists. split; [reflexivity | lia].
Qed.

(** C1, against an empty existing catalog: [scoreUniqueness] returns the bare
    number 25 where [rankSkill] reads [.score], so the record has
    [breakdown.uniqueness] undefined and [score] NaN, which is not the sum of
    four numbers between 0 and 25 and is not between 0 and 100. *)
Theorem rankSkill_empty_catalog (tokenize : string -> list string)
    (Date_parse : string -> option Z) (now : Z) (skill : Skill.t) :
  let r := rankSkill tokenize Date_parse now skill [] in
  scoreUniqueness tokenize skill [] = UNumber 25
  /\ Breakdown.uniqueness (Ranked.breakdown r) = Undefined
  /\ Ranked.score r = NaN
  /\ js_ge (Ranked.score r) (Num 0) && js_ge (Num 100) (Ranked.score r) = false
  /\ Ranked.isDuplicate r = Undefined
  /\ Ranked.duplicateOf r = Undefined
  /\ Ranked.tier r = Tier0.
Proof. repeat split. Qed.

Example rankSkill_scenario_empty_catalog :
  Ranked.score (rankSkill words no_date 0 scenario_document []) = NaN.
Proof. reflexivity. Qed.

Example rankSkill_scenario_one_existing :
  let r := rankSkill words no_date 0 scenario_document
             [ {| Existing.id := "bar"; Existing.name := Some "Bar";
                  Existing.description := None |} ] in
  Ranked.score r = Num 53
  /\ Ranked.breakdown r
     = {| Breakdown.completeness := 19; Breakdown.uniqueness := Def (Num 25);
          Breakdown.quality := 9; Breakdown.repoSignals := 0 |}.
Proof. vm_compute. split; reflexivity. Qed.

(** *** The scenario of the design: name "Foo", a 30-character description,
    tags ["x"], against an empty catalog *)

Lemma toLowerCase_length (s : string) :
  str_length (toLowerCase s) = str_length s.
Proof.
  unfold str_length. f_equal.
  induction s as [| c s IH]; simpl; [reflexivity | now rewrite IH].
Qed.

Lemma nonempty_length (s : string) : 0 < str_length s -> nonempty s = true.
Proof. destruct s; [unfold str_length; simpl; lia | reflexivity]. Qed.

(** *** A header that occurs in the body is found by the pattern *)

Lemma prefix_chars (pattern s : string) :
  String.prefix pattern s = true ->
  exists rest,
    list_ascii_of_string s = list_ascii_of_string pattern ++ rest.
Proof.
  revert s. induction pattern as [| c pattern IH]; intros s; simpl.
  - intros _. now exists (list_ascii_of_string s).
  - destruct s as [| d s]; simpl; [discriminate |].
    destruct (ascii_dec c d) as [<- |]; [| discriminate].
    intros H. destruct (IH s H) as [rest Hrest]. exists rest.
    now rewrite Hrest.
Qed.

Lemma prefix_toLowerCase (pattern s : string) :
  String.prefix pattern s = true ->
  String.prefix (toLowerCase pattern) (toLowerCase s) = true.
Proof.
  revert s. induction pattern as [| c pattern IH]; intros s;
    [intros _; destruct s; reflexivity |].
  destruct s as [| d s]; simpl; [discriminate |].
  destruct (ascii_dec c d) as [<- |]; [| discriminate].
  intros H. destruct (ascii_dec (lower c) (lower c)); [| congruence].
  now apply IH.
Qed.

Lemma occurs_toLowerCase (pattern s : string) :
  occurs pattern s = true ->
  occurs (toLowerCase pattern) (toLowerCase s) = true.
Proof.
  induction s as [| c s IH]; intros H;
    apply orb_true_iff in H as [H | H].
  - apply prefix_toLowerCase in H.
    change (String.prefix (toLowerCase pattern) (toLowerCase EmptyString)
            || false = true).
    now rewrite H.
  - discriminate H.
  - apply prefix_toLowerCase in H.
    change (String.prefix (toLowerCase pattern) (toLowerCase (String c s))
            || occurs (toLowerCase pattern) (toLowerCase s) = true).
    now rewrite H.
  - change (String.prefix (toLowerCase pattern) (toLowerCase (String c s))
            || occurs (toLowerCase pattern) (toLowerCase s) = true).
    rewrite (IH H). apply orb_true_r.
Qed.

Lemma test_from_here (icase : bool) (r : regex) (prev : option ascii)
    (l : list ascii) :
  rmatch icase r (prev, l) <> [] -> test_from icase r prev l = true.
Proof. destruct l; simpl; destruct (rmatch icase r _); congruence. Qed.

(** [test] finds a pattern in a text in which a passage occurs that the
    pattern matches whatever comes before and after it. *)
Lemma regex_test_occurs (icase : bool) (r : regex) (passage : string) :
  (forall prev rest,
     rmatch icase r (prev, list_ascii_of_string passage ++ rest) <> []) ->
  forall s, occurs passage s = true -> regex_test icase r s = true.
Proof.
  intros Hmatch s. unfold regex_test. generalize (@None ascii) as prev.
  induction s as [| c s IH]; intros prev H;
    apply orb_true_iff in H as [H | H].
  - destruct (prefix_chars _ _ H) as [rest ->]. apply test_from_here, Hmatch.
  - discriminate H.
  - destruct (prefix_chars _ _ H) as [rest ->]. apply test_from_here, Hmatch.
  - simpl. destruct (rmatch icase r _); [apply IH; exact H | reflexivity].
Qed.

Lemma rmatch_Seq (icase : bool) (r1 r2 : regex) (p q q' : position) :
  In q (rmatch icase r1 p) -> In q' (rmatch icase r2 q) ->
  In q' (rmatch icase (Seq r1 r2) p).
Proof. intros H1 H2. simpl. apply in_flat_map. now exists q. Qed.

Lemma rmatch_Chr (c : ascii) (prev : option ascii) (rest : list ascii) :
  In (Some c, rest) (rmatch true (Chr c) (prev, c :: rest)).
Proof.
  simpl. unfold chr_eq. rewrite Ascii.eqb_refl. now left.
Qed.

Lemma rmatch_Lit (s : string) :
  forall (prev : option ascii) (rest : list ascii),
    exists last,
      In (last, rest)
        (rmatch true (Lit s) (prev, list_ascii_of_string s ++ rest)).
Proof.
  induction s as [| c s IH]; intros prev rest.
  - exists prev. now left.
  - destruct (IH (Some c) rest) as [last Hlast]. exists last.
    apply rmatch_Seq with (q := (Some c, list_ascii_of_string s ++ rest));
      [apply rmatch_Chr | exact Hlast].
Qed.

Lemma rmatch_Star_none (icase : bool) (r : regex) (p : position) :
  In p (rmatch icase (Star r) p).
Proof. simpl. apply in_or_app. right. now left. Qed.

Lemma rmatch_Star_one_space (prev : option ascii) (c : ascii)
    (rest : list ascii) :
  is_space c = true ->
  In (Some c, rest) (rmatch true (Star Space) (prev, c :: rest)).
Proof.
  intros Hc. simpl. rewrite Hc. simpl.
  replace (consumed (prev, c :: rest) (Some c, rest)) with true
    by (symmetry; apply Nat.ltb_lt; simpl; lia).
  simpl. rewrite app_nil_r. apply in_or_app. left.
  destruct (List.length rest); simpl; apply in_or_app; right; now left.
Qed.

Lemma rmatch_Plus_one_space (prev : option ascii) (c : ascii)
    (rest : list ascii) :
  is_space c = true ->
  In (Some c, rest) (rmatch true (Plus Space) (prev, c :: rest)).
Proof.
  intros Hc. unfold Plus.
  apply rmatch_Seq with (q := (Some c, rest)).
  - simpl. rewrite Hc. now left.
  - apply rmatch_Star_none.
Qed.

Lemma re_h2_use_when_matches (prev : option ascii) (rest : list ascii) :
  rmatch true re_h2_use_when
    (prev, list_ascii_of_string "## use when" ++ rest) <> [].
Proof.
  destruct (rmatch_Lit "when" (Some " "%char) rest) as [l3 H3].
  destruct (rmatch_Lit "use" (Some " "%char)
              (" "%char :: list_ascii_of_string "when" ++ rest)) as [l2 H2].
  destruct (rmatch_Lit "##" prev
              (" "%char :: list_ascii_of_string "use"
                 ++ " "%char :: list_ascii_of_string "when" ++ rest))
    as [l1 H1].
  assert (In (l3, rest)
            (rmatch true re_h2_use_when
               (prev, list_ascii_of_string "## use when" ++ rest))) as Hin.
  { unfold re_h2_use_when. cbn [Cat].
    eapply rmatch_Seq; [exact H1 |].
    eapply rmatch_Seq; [now apply rmatch_Star_one_space |].
    eapply rmatch_Seq; [exact H2 |].
    eapply rmatch_Seq; [now apply rmatch_Plus_one_space | exact H3]. }
  intros Hnone. rewrite Hnone in Hin. destruct Hin.
Qed.

Lemma re_h2_instructions_matches (prev : option ascii) (rest : list ascii) :
  rmatch true re_h2_instructions
    (prev, list_ascii_of_string "## instructions" ++ rest) <> [].
Proof.
  destruct (rmatch_Lit "instructions" (Some " "%char) rest) as [l2 H2].
  destruct (rmatch_Lit "##" prev
              (" "%char :: list_ascii_of_string "instructions" ++ rest))
    as [l1 H1].
  assert (In (l2, rest)
            (rmatch true re_h2_instructions
               (prev, list_ascii_of_string "## instructions" ++ rest)))
    as Hin.
  { unfold re_h2_instructions. cbn [Cat].
    eapply rmatch_Seq; [exact H1 |].
    eapply rmatch_Seq; [now apply rmatch_Star_one_space |].
    cbn [rmatch]. apply in_or_app. left. exact H2. }
  intros Hnone. rewrite Hnone in Hin. destruct Hin.
Qed.

(** A body in which '## Use When' occurs, in whatever letter case the
    code's lower-casing leaves it, passes the test for a use-when section;
    likewise '## Instructions' and the test for an instructions section. *)
Lemma use_when_header_found (content : string) :
  occurs "## Use When" content = true ->
  regex_test true re_h2_use_when (toLowerCase content) = true.
Proof.
  intros H. apply (regex_test_occurs true re_h2_use_when "## use when").
  - apply re_h2_use_when_matches.
  - apply (occurs_toLowerCase "## Use When"), H.
Qed.

Lemma instructions_header_found (content : string) :
  occurs "## Instructions" content = true ->
  regex_test true re_h2_instructions (toLowerCase content) = true.
Proof.
  intros H.
  apply (regex_test_occurs true re_h2_instructions "## instructions").
  - apply re_h2_instructions_matches.
  - apply (occurs_toLowerCase "## Instructions"), H.
Qed.

(** C2, as the code has it.  For a document with the name "Foo", a
    description of 30 characters, the tags ["x"] and a body in which the
    headers '## Use When' and '## Instructions' occur: against an empty
    catalog [scoreUniqueness] returns 25; if the id is not "Foo" and the
    body has over 100 characters, completeness is at least 22
    (5+5+3+4+3+2); if the id is not "Foo" and the body is the 50 characters
    written in the scenario, completeness is 19 (5+5+4+3+2, nothing for the
    body); and if the id is "Foo", completeness is at most 20. *)
Theorem scenario_scores (tokenize : string -> list string) (skill : Skill.t) :
  Skill.name skill = "Foo" ->
  str_length (Skill.description skill) = 30 ->
  Skill.tags skill = ["x"] ->
  occurs "## Use When" (Skill.content skill) = true ->
  occurs "## Instructions" (Skill.content skill) = true ->
  scoreUniqueness tokenize skill [] = UNumber 25
  /\ (Skill.id skill <> "Foo" ->
      100 < str_length (Skill.content skill) ->
      22 <= scoreCompleteness skill <= 25)
  /\ (Skill.id skill <> "Foo" ->
      Skill.content skill = scenario_content ->
      scoreCompleteness skill = 19)
  /\ (Skill.id skill = "Foo" -> scoreCompleteness skill <= 20).
Proof.
  intros Hname Hdesc Htags Huse Hinstr.
  apply use_when_header_found in Huse.
  apply instructions_header_found in Hinstr.
  assert (nonempty (Skill.description skill) = true) as Hd
    by (apply nonempty_length; lia).
  split; [reflexivity |]. split; [| split].
  - intros Hid Hlen.
    assert (String.eqb "Foo" (Skill.id skill) = false) as Hneq
      by (apply String.eqb_neq; congruence).
    unfold scoreCompleteness.
    rewrite Hname, Hneq, Hd, Hdesc, Htags, Huse, Hinstr, toLowerCase_length.
    replace (100 <? str_length (Skill.content skill)) with true
      by (symmetry; apply Z.ltb_lt; exact Hlen).
    rewrite orb_true_r. cbv zeta. simpl.
    destruct (regex_test true re_do_not_use _); vm_compute;
      split; discriminate.
  - intros Hid Hcontent.
    assert (String.eqb "Foo" (Skill.id skill) = false) as Hneq
      by (apply String.eqb_neq; congruence).
    unfold scoreCompleteness.
    rewrite Hname, Hneq, Hd, Hdesc, Htags, Hcontent. vm_compute. reflexivity.
  - intros Hid. unfold scoreCompleteness.
    rewrite Hname, Hid, Hd, Hdesc, Htags, Huse, Hinstr.
    rewrite orb_true_r. cbv zeta. simpl.
    destruct (100 <? _), (regex_test true re_do_not_use _); vm_compute;
      discriminate.
Qed.

Lemma scenario_scores_witness :
  (scoreUniqueness words long_document [] = UNumber 25
   /\ 22 <= scoreCompleteness long_document <= 25)
  /\ scoreCompleteness scenario_document = 19
  /\ scoreCompleteness same_name_document <= 20.
Proof.
  split; [| split].
  - destruct (scenario_scores words long_document) as (Hu & Hc & _);
      [reflexivity | reflexivity | reflexivity | reflexivity | reflexivity |].
    split; [exact Hu |]. apply Hc; [discriminate | reflexivity].
  - destruct (scenario_scores words scenario_document) as (_ & _ & Hc & _);
      [reflexivity | reflexivity | reflexivity | reflexivity | reflexivity |].
    apply Hc; [discriminate | reflexivity].
  - destruct (scenario_scores words same_name_document) as (_ & _ & _ & Hc);
      [reflexivity | reflexivity | reflexivity | reflexivity | reflexivity |].
    apply Hc. reflexivity.
Defined.

(** C2 as stated fails on documents that have all it asks for.  One is
    found in a directory of its own name, so that [discoverSkills] gives it
    the id "Foo": with a body of over 100 characters and both headers its
    completeness is 17.  The other has the body of the scenario as it is
    written, 50 characters long: its completeness is 19.  Neither reaches
    22. *)
Lemma scenario_completeness_below_22 :
  (Skill.id same_name_document = discovered_skill_id "skills/Foo/SKILL.md"
   /\ Skill.name same_name_document = "Foo"
   /\ str_length (Skill.description same_name_document) = 30
   /\ Skill.tags same_name_document = ["x"]
   /\ occurs "## Use When" (Skill.content same_name_document) = true
   /\ occurs "## Instructions" (Skill.content same_name_document) = true
   /\ 100 < str_length (Skill.content same_name_document)
   /\ scoreCompleteness same_name_document = 17
   /\ ~ (22 <= scoreCompleteness same_name_document))
  /\ (Skill.name scenario_document = "Foo"
      /\ str_length (Skill.description scenario_document) = 30
      /\ Skill.tags scenario_document = ["x"]
      /\ Skill.content scenario_document = scenario_content
      /\ str_length (Skill.content scenario_document) = 50
      /\ scoreCompleteness scenario_document = 19
      /\ ~ (22 <= scoreCompleteness scenario_document)).
Proof.
  split; repeat split; vm_compute; intros H; apply H; reflexivity.
Qed.

Example long_document_completeness : scoreCompleteness long_document = 22.
Proof. vm_compute. reflexivity. Qed.

(** *** The repository catalog *)

Lemma slice_last_length {A} (n : nat) (l : list A) :
  (n <= List.length l)%nat -> List.length (slice_last n l) = n.
Proof. intros H. unfold slice_last. rewrite length_drop. lia. Qed.

Lemma slice_last_suffix {A} (n : nat) (l : list A) :
  take (List.length l - n) l ++ slice_last n l = l.
Proof. unfold slice_last. apply take_drop. Qed.

Lemma push_check_spec (now : string) (info : Info.t) (entry : Entry.t) :
  (List.length (Entry.checks (push_check now info entry)) <= 20)%nat
  /\ Entry.firstSeen (push_check now info entry) = Entry.firstSeen entry
  /\ exists dropped,
       Entry.checks entry ++ [check_of now info]
       = dropped ++ Entry.checks (push_check now info entry).
Proof.
  unfold push_check. simpl. fold (check_of now info).
  set (checks := Entry.checks entry ++ [check_of now info]).
  destruct (20 <? List.length checks)%nat eqn:Hlen.
  - apply Nat.ltb_lt in Hlen. split; [| split; [reflexivity |]].
    + rewrite slice_last_length; lia.
    + exists (take (List.length checks - 20) checks).
      symmetry. apply slice_last_suffix.
  - apply Nat.ltb_ge in Hlen. split; [exact Hlen |].
    split; [reflexivity | now exists []].
Qed.

Lemma upsert_entry_same (now : string) (repos : gmap string Entry.t)
    (repoName : string) (info : Info.t) :
  exists entry,
    upsert_entry now repos repoName info !! repoName = Some entry
    /\ match repos !! repoName with
       | Some old =>
           Entry.firstSeen entry = Entry.firstSeen old
           /\ Entry.checks entry = Entry.checks old
       | None => Entry.firstSeen entry = now /\ Entry.checks entry = []
       end.
Proof.
  unfold upsert_entry. destruct (repos !! repoName) as [old |] eqn:Hold;
    rewrite lookup_insert_eq; eexists; (split; [reflexivity |]); now simpl.
Qed.

Lemma upsert_entry_other (now : string) (repos : gmap string Entry.t)
    (repoName other : string) (info : Info.t) :
  other <> repoName ->
  upsert_entry now repos repoName info !! other = repos !! other.
Proof.
  intros Hne. unfold upsert_entry.
  destruct (repos !! repoName); now rewrite lookup_insert_ne.
Qed.

(** One call: the entry of the repository is there afterwards, with at most
    20 checks, the new check last, and its [firstSeen] kept if it was there
    before; the other entries are as they were. *)
Lemma logRepoCheck_same (now : string) (catalog : Catalog.t)
    (repoName : string) (info : Info.t) :
  exists entry,
    Catalog.repos (logRepoCheck now catalog repoName info) !! repoName
    = Some entry
    /\ (List.length (Entry.checks entry) <= 20)%nat
    /\ (forall old, Catalog.repos catalog !! repoName = Some old ->
          Entry.firstSeen entry = Entry.firstSeen old
          /\ exists dropped,
               Entry.checks old ++ [check_of now info]
               = dropped ++ Entry.checks entry).
Proof.
  destruct (upsert_entry_same now (Catalog.repos catalog) repoName info)
    as (e & He & Hold).
  destruct (push_check_spec now info e) as (Hlen & Hfirst & dropped & Hdrop).
  exists (push_check now info e). unfold logRepoCheck. simpl.
  rewrite lookup_alter_eq, He. split; [reflexivity |]. split; [exact Hlen |].
  intros old Hlook. rewrite Hlook in Hold. destruct Hold as [Hf Hc].
  split; [congruence |]. exists dropped. now rewrite <- Hc.
Qed.

Lemma logRepoCheck_other (now : string) (catalog : Catalog.t)
    (repoName other : string) (info : Info.t) :
  other <> repoName ->
  Catalog.repos (logRepoCheck now catalog repoName info) !! other
  = Catalog.repos catalog !! other.
Proof.
  intros Hne. unfold logRepoCheck. simpl.
  rewrite lookup_alter_ne by congruence. now apply upsert_entry_other.
Qed.

Section OneRepository.

(** What a sequence of visits keeps true of the entry of one repository. *)
Variable repoName : string.

Lemma logRepoCheck_bounded_at (now : string) (catalog : Catalog.t)
    (visited : string) (info : Info.t) :
  visited = repoName \/ checks_bounded_at repoName catalog ->
  checks_bounded_at repoName (logRepoCheck now catalog visited info).
Proof.
  intros H entry Hentry. destruct (decide (repoName = visited)) as [-> | Hne].
  - destruct (logRepoCheck_same now catalog visited info)
      as (e & He & Hlen & _).
    congruence.
  - rewrite logRepoCheck_other in Hentry by exact Hne.
    destruct H as [-> | H]; [congruence | now apply H].
Qed.

Lemma recordVisits_bounded_at (catalog : Catalog.t) (visits : list visit) :
  checks_bounded_at repoName catalog ->
  checks_bounded_at repoName (recordVisits catalog visits).
Proof.
  revert catalog. induction visits as [| [[now visited] info] visits IH];
    intros catalog H; simpl; [exact H |].
  apply IH, logRepoCheck_bounded_at. now right.
Qed.

Lemma recordVisits_visited_bounded (catalog : Catalog.t)
    (visits : list visit) (now : string) (info : Info.t) :
  In (now, repoName, info) visits ->
  checks_bounded_at repoName (recordVisits catalog visits).
Proof.
  revert catalog. induction visits as [| [[now' visited] info'] visits IH];
    intros catalog Hin; simpl; [destruct Hin |].
  destruct Hin as [Heq | Hin]; [| now apply IH].
  injection Heq as -> -> ->.
  apply recordVisits_bounded_at, logRepoCheck_bounded_at. now left.
Qed.

Lemma recordVisits_firstSeen (catalog : Catalog.t) (visits : list visit)
    (entry : Entry.t) :
  Catalog.repos catalog !! repoName = Some entry ->
  exists entry',
    Catalog.repos (recordVisits catalog visits) !! repoName = Some entry'
    /\ Entry.firstSeen entry' = Entry.firstSeen entry.
Proof.
  revert catalog entry.
  induction visits as [| [[now visited] info] visits IH];
    intros catalog entry Hentry; simpl; [eauto |].
  destruct (decide (repoName = visited)) as [-> | Hne].
  - destruct (logRepoCheck_same now catalog visited info)
      as (e & He & _ & Hold).
    destruct (Hold entry Hentry) as [Hfirst _].
    destruct (IH _ _ He) as (e' & He' & Hfirst').
    exists e'. split; [exact He' | congruence].
  - apply IH. now rewrite logRepoCheck_other.
Qed.

End OneRepository.

(** C7: after any sequence of visits no entry of a well-formed catalog (in
    particular of the empty one) has more than 20 checks, and neither has any
    entry visited in the sequence, whatever the catalog was; a visit that
    overflows drops checks from the front; and the [firstSeen] of an entry
    that exists is the same after any further visits. *)
Theorem recordVisits_checks_firstSeen (catalog : Catalog.t)
    (visits later : list visit) :
  (checks_bounded catalog -> checks_bounded (recordVisits catalog visits))
  /\ checks_bounded (recordVisits empty_catalog visits)
  /\ (forall now repoName info entry,
        In (now, repoName, info) visits ->
        Catalog.repos (recordVisits catalog visits) !! repoName = Some entry ->
        (List.length (Entry.checks entry) <= 20)%nat)
  /\ (forall now repoName info old,
        Catalog.repos catalog !! repoName = Some old ->
        exists entry dropped,
          Catalog.repos (logRepoCheck now catalog repoName info) !! repoName
          = Some entry
          /\ Entry.checks old ++ [check_of now info]
             = dropped ++ Entry.checks entry)
  /\ (forall repoName entry,
        Catalog.repos (recordVisits catalog visits) !! repoName = Some entry ->
        exists entry',
          Catalog.repos (recordVisits (recordVisits catalog visits) later)
            !! repoName = Some entry'
          /\ Entry.firstSeen entry' = Entry.firstSeen entry).
Proof.
  split; [| split; [| split; [| split]]].
  - intros H repoName. apply recordVisits_bounded_at. exact (H repoName).
  - intros repoName. apply recordVisits_bounded_at.
    intros entry Hentry. simpl in Hentry. now rewrite lookup_empty in Hentry.
  - intros now repoName info entry Hin.
    now apply (recordVisits_visited_bounded repoName catalog visits now info).
  - intros now repoName info old Hold.
    destruct (logRepoCheck_same now catalog repoName info)
      as (e & He & _ & Hkeep).
    destruct (Hkeep old Hold) as (_ & dropped & Hdrop). eauto.
  - intros repoName entry. apply recordVisits_firstSeen.
Qed.

Lemma recordVisits_checks_firstSeen_witness :
  checks_bounded (recordVisits empty_catalog sample_visits)
  /\ (exists entry,
        Catalog.repos (recordVisits empty_catalog sample_visits)
          !! "owner/repo" = Some entry
        /\ (List.length (Entry.checks entry) <= 20)%nat)
  /\ (exists entry (dropped : list Check.t),
        Catalog.repos
          (logRepoCheck "22" (recordVisits empty_catalog sample_visits)
             "owner/repo" sample_info) !! "owner/repo" = Some entry
        /\ List.length dropped = 1%nat)
  /\ exists entry,
       Catalog.repos
         (recordVisits (recordVisits empty_catalog sample_visits) sample_later)
         !! "owner/repo" = Some entry
       /\ Entry.firstSeen entry = "0".
Proof.
  destruct (recordVisits_checks_firstSeen empty_catalog sample_visits
              sample_later) as (Hkeep & _ & Hvisited & _ & Hfirst).
  destruct (recordVisits_checks_firstSeen
              (recordVisits empty_catalog sample_visits) [] [])
    as (_ & _ & _ & Hdrop & _).
  split; [| split; [| split]].
  - apply Hkeep. intros repoName entry Hentry. discriminate Hentry.
  - eexists. split; [vm_compute; reflexivity |].
    eapply (Hvisited "0" "owner/repo" sample_info);
      [vm_compute; left; reflexivity | vm_compute; reflexivity].
  - edestruct (Hdrop "22" "owner/repo" sample_info)
      as (entry & dropped & He & Hd);
      [vm_compute; reflexivity |].
    exists entry, dropped. split; [exact He |].
    apply (f_equal (@List.length Check.t)) in Hd.
    rewrite !length_app in Hd.
    vm_compute in He. injection He as <-. simpl in Hd. lia.
  - edestruct (Hfirst "owner/repo") as (entry & He & Hf);
      [vm_compute; reflexivity |].
    exists entry. split; [exact He | exact Hf].
Defined.

(** *** Sorting *)

Section SortSpec.

Context {A : Type} (comparefn : A -> A -> number) (P : A -> Prop).

Lemma sort_insert_Permutation (x : A) (l : list A) :
  Permutation (x :: l) (sort_insert comparefn x l).
Proof.
  induction l as [| y l IH]; simpl; [reflexivity |].
  destruct (0 <? SortCompare comparefn x y); [| reflexivity].
  rewrite perm_swap. now constructor.
Qed.

Lemma js_sort_Permutation (l : list A) : Permutation l (js_sort comparefn l).
Proof.
  induction l as [| x l IH]; simpl; [reflexivity |].
  rewrite <- sort_insert_Permutation. now constructor.
Qed.

(** The comparator is consistent on the elements that satisfy [P]. *)
Hypothesis comparefn_antisym :
  forall x y, P x -> P y ->
              0 < SortCompare comparefn x y -> SortCompare comparefn y x <= 0.

Lemma sort_insert_HdRel (x y : A) (l : list A) :
  in_order comparefn y x -> HdRel (in_order comparefn) y l ->
  HdRel (in_order comparefn) y (sort_insert comparefn x l).
Proof.
  intros Hyx Hhd. destruct l as [| z l]; simpl; [now constructor |].
  inversion Hhd; subst.
  destruct (0 <? SortCompare comparefn x z); now constructor.
Qed.

Lemma sort_insert_Sorted (x : A) (l : list A) :
  P x -> Forall P l -> Sorted (in_order comparefn) l ->
  Sorted (in_order comparefn) (sort_insert comparefn x l).
Proof.
  intros Hx HP Hsorted. induction Hsorted as [| y l Hl IH Hhd]; simpl.
  - repeat constructor.
  - apply Forall_cons in HP as [Hy HP].
    destruct (0 <? SortCompare comparefn x y) eqn:Hcmp.
    + apply Z.ltb_lt in Hcmp. constructor; [now apply IH |].
      apply sort_insert_HdRel; [| exact Hhd].
      now apply comparefn_antisym.
    + apply Z.ltb_ge in Hcmp. constructor; [now constructor |].
      now constructor.
Qed.

Lemma js_sort_Sorted (l : list A) :
  Forall P l -> Sorted (in_order comparefn) (js_sort comparefn l).
Proof.
  induction 1 as [| x l Hx HP IH]; simpl; [constructor |].
  apply sort_insert_Sorted; [exact Hx | | exact IH].
  eapply Permutation_Forall; [apply js_sort_Permutation | exact HP].
Qed.

End SortSpec.

Lemma Sorted_weaken {A} (R R' : A -> A -> Prop) (P : A -> Prop) (l : list A) :
  (forall a b, P a -> P b -> R a b -> R' a b) ->
  Forall P l -> Sorted R l -> Sorted R' l.
Proof.
  intros Himpl HP Hsorted. induction Hsorted as [| x l Hl IH Hhd].
  - constructor.
  - apply Forall_cons in HP as [Hx HP]. constructor; [now apply IH |].
    destruct Hhd as [| y l' Hxy]; constructor.
    apply Forall_cons in HP as [Hy _]. now apply Himpl.
Qed.

Section RankAll.

Variable tokenize : string -> list string.
Variable Date_parse : string -> option Z.
Variable localeCompare : string -> string -> Z.
Variable clock : nat -> Z.

(** Every record of the output is the ranking of a discovered skill. *)
Lemma rankAll_In (discoveredSkills : list Skill.t)
    (existingSkills : list Existing.t) (r : Ranked.t) :
  In r (rankAll tokenize Date_parse localeCompare clock discoveredSkills
          existingSkills) ->
  exists now skill,
    In skill discoveredSkills
    /\ r = rankSkill tokenize Date_parse now skill existingSkills.
Proof.
  unfold rankAll. intros Hin.
  eapply Permutation_in in Hin;
    [| symmetry; apply js_sort_Permutation].
  apply list_elem_of_In, elem_of_lookup_imap in Hin
    as (i & skill & -> & Hi).
  exists (clock i), skill. split; [| reflexivity].
  apply list_elem_of_In. eapply list_elem_of_lookup_2. exact Hi.
Qed.

Lemma rankAll_length (discoveredSkills : list Skill.t)
    (existingSkills : list Existing.t) :
  List.length (rankAll tokenize Date_parse localeCompare clock
                 discoveredSkills existingSkills)
  = List.length discoveredSkills.
Proof.
  unfold rankAll. rewrite <- (Permutation_length (js_sort_Permutation _ _)).
  apply length_imap.
Qed.

Lemma by_score_then_id_antisym (a b : Ranked.t) :
  (forall x y, 0 < localeCompare x y -> localeCompare y x <= 0) ->
  (exists s, Ranked.score a = Num s) -> (exists s, Ranked.score b = Num s) ->
  0 < SortCompare (by_score_then_id localeCompare) a b ->
  SortCompare (by_score_then_id localeCompare) b a <= 0.
Proof.
  intros Hlc [sa Ha] [sb Hb].
  unfold SortCompare, by_score_then_id, js_or. rewrite Ha, Hb. simpl.
  destruct (sb - sa =? 0) eqn:H1; destruct (sa - sb =? 0) eqn:H2;
    simpl; try lia. apply Hlc.
Qed.

Lemma by_score_then_id_order (a b : Ranked.t) :
  (exists s, Ranked.score a = Num s) -> (exists s, Ranked.score b = Num s) ->
  in_order (by_score_then_id localeCompare) a b ->
  score_then_id localeCompare a b.
Proof.
  intros [sa Ha] [sb Hb]. unfold in_order, score_then_id.
  unfold SortCompare, by_score_then_id, js_or. rewrite Ha, Hb. simpl.
  intros H. exists sa, sb. repeat split.
  - destruct (sb - sa =? 0) eqn:H1; simpl in H; lia.
  - intros ->. now rewrite Z.sub_diag in H.
Qed.

(** Against a catalog that is not empty, and with a [localeCompare] that
    never puts each of two strings after the other, the output of
    [rankAll] is sorted: score descending, then id ascending in the order
    of [localeCompare]. *)
Lemma rankAll_sorted (discoveredSkills : list Skill.t)
    (existingSkills : list Existing.t) :
  (forall x y, 0 < localeCompare x y -> localeCompare y x <= 0) ->
  existingSkills <> [] ->
  Sorted (score_then_id localeCompare)
    (rankAll tokenize Date_parse localeCompare clock discoveredSkills
       existingSkills).
Proof.
  intros Hlc Hne.
  assert (forall l,
            (forall r, In r l ->
               exists now skill,
                 r = rankSkill tokenize Date_parse now skill existingSkills) ->
            Forall (fun r => exists s, Ranked.score r = Num s) l) as Hnum.
  { intros l Hl. apply List.Forall_forall. intros r Hr.
    destruct (Hl r Hr) as (now & skill & ->).
    destruct (rankSkill_breakdown tokenize Date_parse now skill
                existingSkills Hne) as (_ & _ & _ & _ & _ & _ & _ & t & Ht & _).
    eauto. }
  apply Sorted_weaken
    with (R := in_order (by_score_then_id localeCompare))
         (P := fun r => exists s, Ranked.score r = Num s).
  - intros a b. apply by_score_then_id_order.
  - apply Hnum. intros r Hr. apply rankAll_In in Hr as (now & skill & _ & ->).
    eauto.
  - unfold rankAll.
    apply js_sort_Sorted with (P := fun r => exists s, Ranked.score r = Num s).
    + intros x y. now apply by_score_then_id_antisym.
    + apply Hnum. intros r Hr.
      apply list_elem_of_In, elem_of_lookup_imap in Hr as (i & skill & -> & _).
      eauto.
Qed.

(** C6, against an empty existing catalog: every score of the output is
    NaN (the bare number [scoreUniqueness] returns has no [.score]), so
    [score[i] >= score[i+1]] is false for every pair of records, and the
    records are ordered by id alone. *)
Theorem rankAll_empty_catalog (discoveredSkills : list Skill.t) :
  let ranked :=
    rankAll tokenize Date_parse localeCompare clock discoveredSkills [] in
  List.length ranked = List.length discoveredSkills
  /\ Forall (fun r => Ranked.score r = NaN) ranked
  /\ Forall (fun r => Forall (fun r' =>
               js_ge (Ranked.score r) (Ranked.score r') = false) ranked)
       ranked.
Proof.
  cbv zeta.
  assert (Forall (fun r => Ranked.score r = NaN)
            (rankAll tokenize Date_parse localeCompare clock
               discoveredSkills [])) as Hnan.
  { apply List.Forall_forall. intros r Hr.
    apply rankAll_In in Hr as (now & skill & _ & ->). reflexivity. }
  split; [apply rankAll_length |]. split; [exact Hnan |].
  eapply List.Forall_impl; [| exact Hnan].
  intros r Hr. rewrite Hr. apply List.Forall_forall. reflexivity.
Qed.

End RankAll.


Example rankAll_order_depends_on_catalog :
  List.map (fun r => (Ranked.id r, Ranked.score r))
    (rankAll words no_date compare_code_units (fun _ => 0)
       [ bare_document; rich_document ] one_existing)
  = [ ("zeta", Num 56); ("alpha", Num 27) ]
  /\ List.map (fun r => (Ranked.id r, Ranked.score r))
       (rankAll words no_date compare_code_units (fun _ => 0)
          [ bare_document; rich_document ] [])
     = [ ("alpha", NaN); ("zeta", NaN) ].
Proof. vm_compute. split; reflexivity. Qed.

(** *** The inventory builder *)

Lemma filter_none {A} (f : A -> bool) (l : list A) :
  (forall x, In x l -> f x = false) -> List.filter f l = [].
Proof.
  induction l as [| a l IH]; intros H; simpl; [reflexivity |].
  rewrite (H a (or_introl eq_refl)). apply IH.
  intros x Hx. apply H. now right.
Qed.

(** No ranked record has a score of 101 or more. *)
Lemma rankAll_score_below (tokenize : string -> list string)
    (Date_parse : string -> option Z) (localeCompare : string -> string -> Z)
    (clock : nat -> Z) (discoveredSkills : list Skill.t)
    (existingSkills : list Existing.t) (minScore : Z) (r : Ranked.t) :
  100 < minScore ->
  In r (rankAll tokenize Date_parse localeCompare clock discoveredSkills
          existingSkills) ->
  js_ge (Ranked.score r) (Num minScore) = false.
Proof.
  intros Hmin Hr. apply rankAll_In in Hr as (now & skill & _ & ->).
  destruct existingSkills as [| e l]; [reflexivity |].
  destruct (rankSkill_breakdown tokenize Date_parse now skill (e :: l))
    as (_ & _ & _ & _ & _ & _ & _ & t & Ht & Hrange); [discriminate |].
  rewrite Ht. simpl. apply Z.leb_gt. lia.
Qed.

(** C9: when the crawl discovers nothing, [consolidate] returns null, ends
    by logging the totals of the repository catalog, and writes neither of
    the two inventory files; otherwise it returns an inventory and writes
    both, and that inventory can have an empty skills list, as it has when
    the minimum score is over 100. *)
Theorem consolidate_null_or_inventory (tokenize : string -> list string)
    (Date_parse : string -> option Z) (localeCompare : string -> string -> Z)
    (ROOT : string) (options : Options.t) (env : Env.t) :
  let discovered :=
    snd (Env.discoverSkills env
           [str_or (Options.query options) "filename:SKILL.md path:skills"]
           (num_or (Options.limit options) 20)
           (num_or (Options.durationMs options) 0)) in
  let result :=
    consolidate tokenize Date_parse localeCompare ROOT options env in
  let stats := getCatalogStats (Env.repoCatalog env) in
  (discovered = [] ->
   fst result = None
   /\ List.last (snd result) LogNoSkills
      = LogRepoCatalog (Stats.totalRepos stats) (Stats.reposWithSkills stats)
   /\ List.filter is_inventory_write (snd result) = [])
  /\ (discovered <> [] ->
      exists inventory,
        fst result = Some inventory
        /\ List.filter is_inventory_write (snd result)
           = [ WriteInventoryJson (str_or (Options.output options) ROOT)
                 "discovered-skills.json" inventory;
               WriteReport (str_or (Options.output options) ROOT)
                 "DISCOVERED.md" inventory ]
        /\ Inventory.totalDiscovered inventory
           = Z.of_nat (List.length (Inventory.skills inventory))
        /\ (100 < num_or (Options.minScore options) 0 ->
            Inventory.skills inventory = [])).
Proof.
  cbv zeta. unfold consolidate.
  destruct (Env.discoverSkills env _ _ _) as [reposScanned discovered].
  simpl snd. split.
  - intros ->. simpl. repeat split.
  - intros Hne. destruct discovered as [| d ds]; [congruence |].
    change ((List.length (d :: ds) =? 0)%nat) with false. cbv iota.
    destruct (0 <? num_or (Options.minScore options) 0) eqn:Hmin.
    + eexists. split; [reflexivity |]. split; [reflexivity |].
      split; [reflexivity |]. intros Hbig. simpl.
      apply filter_none. intros r Hr.
      eapply rankAll_score_below; eassumption.
    + eexists. split; [reflexivity |]. split; [reflexivity |].
      split; [reflexivity |]. intros Hbig. apply Z.ltb_ge in Hmin. lia.
Qed.

Lemma consolidate_null_or_inventory_witness :
  fst (consolidate words no_date compare_code_units "/repo" default_options
         (env_finding [])) = None
  /\ List.filter is_inventory_write
       (snd (consolidate words no_date compare_code_units "/repo"
               default_options (env_finding []))) = []
  /\ exists inventory,
       fst (consolidate words no_date compare_code_units "/repo"
              strict_options (env_finding [scenario_document]))
       = Some inventory
       /\ Inventory.skills inventory = [].
Proof.
  destruct (consolidate_null_or_inventory words no_date compare_code_units
              "/repo" default_options (env_finding [])) as [Hnull _].
  destruct (consolidate_null_or_inventory words no_date compare_code_units
              "/repo" strict_options (env_finding [scenario_document]))
    as [_ Hsome].
  destruct Hnull as (Hnone & _ & Hwrites); [reflexivity |].
  destruct Hsome as (inventory & Hinv & _ & _ & Hempty); [discriminate |].
  split; [exact Hnone |]. split; [exact Hwrites |].
  exists inventory. split; [exact Hinv |]. apply Hempty. reflexivity.
Defined.

Example consolidate_nothing_found :
  consolidate words no_date compare_code_units "/repo" default_options
    (env_finding [])
  = (None,
     [ LogStarting 20 SinglePass; LogLoaded 1;
       Discover ["filename:SKILL.md path:skills"] 20 0; LogDiscovered 0 0;
       LogNoSkills; LogRepoCatalog 1 1 ]).
Proof. vm_compute. reflexivity. Qed.

(** *** Repository search *)

Section Search.

Variable network : nat -> string -> string + RawResponse.t.
Variable JSON_parse : string -> option json.
Variable encodeURIComponent : string -> string.
Variable ToString : json -> string.

(** On a 422 [rateLimitedGet] returns at once, without retrying: an object
    with the made-up body, and with the status 422 still. *)
Lemma rateLimitedGet_422 (url : string) (retries : nat) (w : World.t)
    (r : RawResponse.t) :
  network (World.requests w) url = inr r ->
  RawResponse.statusCode r = 422 ->
  rateLimitedGet network url retries w
  = (Return (Some {| Response.statusCode := 422;
                     Response.body := empty_items_body;
                     Response.rateLimitRemaining :=
                       RawResponse.rateLimitRemaining r;
                     Response.rateLimitReset := Undefined |}),
     {| World.requests := S (World.requests w);
        World.now := World.now w;
        World.trace := World.trace w |}).
Proof.
  intros Hnet Hstatus. unfold rateLimitedGet. simpl.
  unfold bind, httpsGet. rewrite Hnet, Hstatus. reflexivity.
Qed.

(** C3, on the code: when the response to a repository search has status
    422, [searchRepos] does not return zero items; the object that
    [rateLimitedGet] built keeps the status 422, which is not 200, so
    [searchRepos] throws. *)
Theorem searchRepos_422_throws (query : string) (page perPage : Z)
    (w : World.t) (r : RawResponse.t) :
  (forall url, network (World.requests w) url = inr r) ->
  RawResponse.statusCode r = 422 ->
  searchRepos network JSON_parse encodeURIComponent ToString query page
    perPage w
  = (Throw (MkError ("GitHub Repository Search API returned 422"
                     ++ message_suffix JSON_parse ToString empty_items_body)),
     {| World.requests := S (World.requests w);
        World.now := World.now w;
        World.trace := World.trace w |}).
Proof.
  intros Hnet Hstatus. unfold searchRepos. unfold bind at 1.
  rewrite (rateLimitedGet_422 _ 2 w r (Hnet _) Hstatus). reflexivity.
Qed.

End Search.

Lemma searchRepos_422_throws_witness :
  fst (searchRepos network_422 (fun _ => Some (JObject [("items", JArray [])]))
         (fun q => q) (fun _ => EmptyString) "agent skills" 1 10 world0)
  = Throw (MkError "GitHub Repository Search API returned 422").
Proof.
  rewrite (searchRepos_422_throws network_422
             (fun _ => Some (JObject [("items", JArray [])]))
             (fun q => q) (fun _ => EmptyString) "agent skills" 1 10 world0
             unprocessable);
    [reflexivity | reflexivity | reflexivity].
Defined.

(** ** Further properties of the code *)

(** *** The Jaccard similarity as a function of two sets *)

Lemma same_elements_empty {A} (l l' : list A) :
  (forall x, In x l <-> In x l') ->
  (List.length l =? 0)%nat = (List.length l' =? 0)%nat.
Proof.
  intros H. destruct l as [| a l], l' as [| a' l']; try reflexivity.
  - destruct (proj2 (H a') (or_introl eq_refl)).
  - destruct (proj1 (H a) (or_introl eq_refl)).
Qed.

Lemma new_Set_same_length (l l' : list string) :
  (forall x, In x l <-> In x l') ->
  List.length (new_Set l) = List.length (new_Set l').
Proof.
  intros H. apply Permutation_length, list.NoDup_Permutation;
    try apply new_Set_NoDup.
  intros x. rewrite !list_elem_of_In, !new_Set_In. apply H.
Qed.

Lemma common_same_length (A A' B B' : list string) :
  (forall x, In x A <-> In x A') -> (forall x, In x B <-> In x B') ->
  List.length (List.filter (Set_has (new_Set B)) (new_Set A))
  = List.length (List.filter (Set_has (new_Set B')) (new_Set A')).
Proof.
  intros HA HB. apply Permutation_length, list.NoDup_Permutation.
  - apply NoDup_ListNoDup, List.NoDup_filter, NoDup_ListNoDup, new_Set_NoDup.
  - apply NoDup_ListNoDup, List.NoDup_filter, NoDup_ListNoDup, new_Set_NoDup.
  - intros x.
    rewrite !list_elem_of_In, !filter_In, !Set_has_In, !new_Set_In, HA, HB.
    tauto.
Qed.

(** The quotient behind a similarity of two token lists that are not empty:
    the number [i] of common tokens over [u], the number of tokens in
    either. *)
Lemma jaccardSimilarity_quotient (A B : list string) :
  A <> [] -> B <> [] ->
  exists i u : Z,
    i = Z.of_nat (List.length (List.filter (Set_has (new_Set B)) (new_Set A)))
    /\ u = Set_size (new_Set A) + Set_size (new_Set B) - i
    /\ 0 <= i /\ i <= Set_size (new_Set A) /\ i <= Set_size (new_Set B)
    /\ 0 < u
    /\ jaccardSimilarity A B = Qred (i # Z.to_pos u).
Proof.
  intros HA HB. unfold jaccardSimilarity.
  destruct A as [| a A']; [congruence |].
  destruct B as [| b B']; [congruence |].
  set (A := a :: A') in *. set (B := b :: B') in *.
  change ((List.length A =? 0)%nat) with false.
  change ((List.length B =? 0)%nat) with false.
  cbv zeta. simpl orb. cbv iota. rewrite intersection_count.
  set (i := Z.of_nat
              (List.length (List.filter (Set_has (new_Set B)) (new_Set A)))).
  assert (i <= Set_size (new_Set A)) as HiA.
  { unfold i, Set_size. apply inj_le, List.filter_length_le. }
  assert (i <= Set_size (new_Set B)) as HiB.
  { unfold i, Set_size. rewrite intersection_comm by apply new_Set_NoDup.
    apply inj_le, List.filter_length_le. }
  assert (0 < Set_size (new_Set A)) as HposA.
  { pose proof (new_Set_nonempty A HA). unfold Set_size.
    destruct (new_Set A); [congruence | simpl List.length; lia]. }
  exists i, (Set_size (new_Set A) + Set_size (new_Set B) - i).
  replace (0 + i) with i by lia.
  repeat split; try (unfold i; lia); try lia.
  destruct (_ =? 0) eqn:Hz; [lia | reflexivity].
Qed.

(** The similarity lies between 0 and 1, and it depends on the two token
    lists only through the sets of their tokens: neither the order of the
    tokens nor their repetitions change it. *)
Theorem jaccardSimilarity_range_and_sets (A A' B B' : list string) :
  (0 <= jaccardSimilarity A B <= 1)%Q
  /\ ((forall x, In x A <-> In x A') -> (forall x, In x B <-> In x B') ->
      jaccardSimilarity A B = jaccardSimilarity A' B').
Proof.
  split.
  - destruct A as [| a A0]; [split; discriminate |].
    destruct B as [| b B0]; [split; discriminate |].
    destruct (jaccardSimilarity_quotient (a :: A0) (b :: B0))
      as (i & u & _ & Hu & Hi0 & HiA & HiB & Hpos & ->); try discriminate.
    rewrite Qred_correct. unfold Qle. simpl.
    rewrite Z2Pos.id by lia. lia.
  - intros HA HB. unfold jaccardSimilarity.
    rewrite (same_elements_empty A A' HA), (same_elements_empty B B' HB).
    destruct (_ || _); [reflexivity |]. cbv zeta. rewrite !intersection_count.
    unfold Set_size.
    rewrite (common_same_length A A' B B' HA HB),
      (new_Set_same_length A A' HA), (new_Set_same_length B B' HB).
    reflexivity.
Qed.

Lemma jaccardSimilarity_range_and_sets_witness :
  jaccardSimilarity ["b"; "a"; "b"; "a"] ["c"; "b"]
  = jaccardSimilarity ["a"; "b"] ["b"; "c"; "c"].
Proof.
  apply (jaccardSimilarity_range_and_sets ["b"; "a"; "b"; "a"] ["a"; "b"]
           ["c"; "b"] ["b"; "c"; "c"]);
    intros x; simpl; tauto.
Defined.

Lemma filter_length_all {A} (f : A -> bool) (l : list A) :
  List.length (List.filter f l) = List.length l ->
  forall x, In x l -> f x = true.
Proof.
  induction l as [| a l IH]; simpl; intros Hlen x Hx; [destruct Hx |].
  destruct (f a) eqn:Hfa.
  - simpl in Hlen. destruct Hx as [<- | Hx]; [exact Hfa |].
    apply IH; [lia | exact Hx].
  - pose proof (List.filter_length_le f l). lia.
Qed.

Lemma filter_length_none {A} (f : A -> bool) (l : list A) :
  List.length (List.filter f l) = 0%nat ->
  forall x, In x l -> f x = false.
Proof.
  induction l as [| a l IH]; simpl; intros Hlen x Hx; [destruct Hx |].
  destruct (f a) eqn:Hfa; [discriminate Hlen |].
  destruct Hx as [<- | Hx]; [exact Hfa | now apply IH].
Qed.

(** For two token lists that are not empty the similarity is 1 exactly when
    they have the same tokens, and 0 exactly when they share none. *)
Theorem jaccardSimilarity_extremes (A B : list string) :
  A <> [] -> B <> [] ->
  (jaccardSimilarity A B = 1%Q <-> (forall x, In x A <-> In x B))
  /\ (jaccardSimilarity A B = 0%Q <-> (forall x, In x A -> ~ In x B)).
Proof.
  intros HA HB.
  destruct (jaccardSimilarity_quotient A B HA HB)
    as (i & u & Hi & Hu & Hi0 & HiA & HiB & Hpos & ->).
  assert (forall q : Q,
            Qred (i # Z.to_pos u) = Qred q <-> i * QDen q = Qnum q * u)
    as Hred.
  { intros q. split.
    - intros H. assert (i # Z.to_pos u == q)%Q as Heq.
      { rewrite <- (Qred_correct (i # Z.to_pos u)), H. apply Qred_correct. }
      unfold Qeq in Heq. simpl in Heq. now rewrite Z2Pos.id in Heq by lia.
    - intros H. apply Qred_complete. unfold Qeq. simpl.
      now rewrite Z2Pos.id by lia. }
  split.
  - change 1%Q with (Qred 1). rewrite Hred. simpl. split.
    + intros Heq.
      assert (List.length (List.filter (Set_has (new_Set B)) (new_Set A))
              = List.length (new_Set A)) as HallA
      by (unfold Set_size in *; lia).
      assert (List.length (List.filter (Set_has (new_Set A)) (new_Set B))
              = List.length (new_Set B)) as HallB.
      { rewrite <- intersection_comm by apply new_Set_NoDup.
        unfold Set_size in *. lia. }
      intros x. rewrite <- (new_Set_In A), <- (new_Set_In B). split; intros Hx.
      * apply Set_has_In. now apply (filter_length_all _ _ HallA).
      * apply Set_has_In. now apply (filter_length_all _ _ HallB).
    + intros Hsame.
      assert (List.filter (Set_has (new_Set B)) (new_Set A) = new_Set A) as Hf.
      { apply filter_all. intros x Hx. apply Set_has_In.
        apply new_Set_In, Hsame, new_Set_In, Hx. }
      rewrite Hf in Hi. unfold Set_size in *.
      rewrite (new_Set_same_length B A) in Hu
        by (intros x; symmetry; apply Hsame).
      lia.
  - change 0%Q with (Qred 0). rewrite Hred. simpl. split.
    + intros Heq x HxA HxB.
      assert (List.length (List.filter (Set_has (new_Set B)) (new_Set A))
              = 0%nat)
        as Hnone by lia.
      apply new_Set_In in HxA.
      pose proof (filter_length_none _ _ Hnone x HxA) as Hfalse.
      apply new_Set_In, Set_has_In in HxB. congruence.
    + intros Hdisjoint.
      rewrite filter_none in Hi; [simpl in Hi; lia |].
      intros x Hx. apply not_true_is_false. intros Hhas.
      apply (proj1 (Set_has_In _ _)), (proj1 (new_Set_In _ _)) in Hhas.
      apply (proj1 (new_Set_In _ _)) in Hx.
      exact (Hdisjoint x Hx Hhas).
Qed.

Lemma jaccardSimilarity_extremes_witness :
  jaccardSimilarity ["a"; "b"; "a"] ["b"; "a"] = 1%Q
  /\ jaccardSimilarity ["a"; "b"] ["c"] = 0%Q.
Proof.
  split.
  - apply (jaccardSimilarity_extremes ["a"; "b"; "a"] ["b"; "a"]);
      [discriminate | discriminate | intros x; simpl; tauto].
  - apply (jaccardSimilarity_extremes ["a"; "b"] ["c"]);
      [discriminate | discriminate |].
    intros x [<- | [<- | []]] [H | []]; discriminate H.
Defined.

(** *** What scoreUniqueness can answer *)

Lemma uniqueness_loop_shape (tokenize : string -> list string)
    (skill : Skill.t) (tokens : list string) (existingSkills : list Existing.t)
    (maxSimilarity : Q) (bestMatchId : js string) :
  (exists e, In e existingSkills
             /\ uniqueness_loop tokenize skill tokens existingSkills
                  maxSimilarity bestMatchId
                = inl (UObject 0 (Def (Existing.id e)) true))
  \/ (exists m b,
        uniqueness_loop tokenize skill tokens existingSkills maxSimilarity
          bestMatchId = inr (m, b)
        /\ ((m = maxSimilarity /\ b = bestMatchId)
            \/ ((maxSimilarity < m)%Q
                /\ exists e, In e existingSkills /\ b = Def (Existing.id e)))).
Proof.
  revert maxSimilarity bestMatchId.
  induction existingSkills as [| x rest IH]; intros m0 b0; simpl.
  - right. exists m0, b0. split; [reflexivity | now left].
  - destruct (String.eqb _ _);
      [left; exists x; split; [now left | reflexivity] |].
    match goal with |- context [Qgtb ?s m0] => set (sim := s) end.
    destruct (Qgtb sim m0) eqn:Hgt.
    + apply Qgtb_true in Hgt.
      destruct (IH sim (Def (Existing.id x)))
        as [(e & He & Hl) | (m & b & Hl & Hcase)].
      * left. exists e. split; [now right | exact Hl].
      * right. exists m, b. split; [exact Hl |]. right.
        destruct Hcase as [[-> ->] | (Hlt & e & He & ->)].
        -- split; [exact Hgt |]. exists x. split; [now left | reflexivity].
        -- split; [eapply Qlt_trans; eassumption |].
           exists e. split; [now right | reflexivity].
    + destruct (IH m0 b0) as [(e & He & Hl) | (m & b & Hl & Hcase)].
      * left. exists e. split; [now right | exact Hl].
      * right. exists m, b. split; [exact Hl |].
        destruct Hcase as [? | (Hlt & e & He & ->)]; [now left |].
        right. split; [exact Hlt |]. exists e. split; [now right | reflexivity].
Qed.

Lemma scoreUniqueness_cases (tokenize : string -> list string)
    (skill : Skill.t) (existingSkills : list Existing.t) :
  existingSkills <> [] ->
  exists s d b,
    scoreUniqueness tokenize skill existingSkills = UObject s d b
    /\ In (s, b) [(0, true); (3, true); (10, false); (18, false); (25, false)]
    /\ (18 <= s <-> d = Null)
    /\ (s < 18 ->
        exists e, In e existingSkills /\ d = Def (Existing.id e)).
Proof.
  intros Hne. unfold scoreUniqueness.
  destruct existingSkills as [| x l]; [congruence |].
  change ((List.length (x :: l) =? 0)%nat) with false. cbv iota zeta.
  destruct (uniqueness_loop_shape tokenize skill
              (tokenize
                 (Skill.name skill ++ " " ++ Skill.description skill)%string)
              (x :: l) 0%Q Null)
    as [(e & He & ->) | (m & b & -> & Hcase)].
  - exists 0, (Def (Existing.id e)), true.
    split; [reflexivity |]. split; [simpl; tauto |].
    split; [split; [lia | discriminate] | eauto].
  - assert ((0 < m)%Q -> exists e, In e (x :: l) /\ b = Def (Existing.id e))
      as Hnamed.
    { intros Hpos. destruct Hcase as [[-> _] | [_ H]]; [| exact H].
      now apply Qlt_irrefl in Hpos. }
    destruct (Qgtb m (7 # 10)) eqn:H7.
    { apply Qgtb_true in H7.
      destruct Hnamed as (e & He & ->);
        [eapply Qlt_trans; [| exact H7]; reflexivity |].
      exists 3, (Def (Existing.id e)), true.
      split; [reflexivity |]. split; [simpl; tauto |].
      split; [split; [lia | discriminate] | eauto]. }
    destruct (Qgtb m (5 # 10)) eqn:H5.
    { apply Qgtb_true in H5.
      destruct Hnamed as (e & He & ->);
        [eapply Qlt_trans; [| exact H5]; reflexivity |].
      exists 10, (Def (Existing.id e)), false.
      split; [reflexivity |]. split; [simpl; tauto |].
      split; [split; [lia | discriminate] | eauto]. }
    destruct (Qgtb m (3 # 10)).
    + exists 18, Null, false. split; [reflexivity |]. split; [simpl; tauto |].
      split; [split; [reflexivity | lia] | lia].
    + exists 25, Null, false. split; [reflexivity |]. split; [simpl; tauto |].
      split; [split; [reflexivity | lia] | lia].
Qed.

(** Against a catalog that is not empty the answer is one of five: score 0
    or 3 with the duplicate flag, score 10, 18 or 25 without it.  It names
    another record exactly when the score is below 18, and the record it
    names is an entry of the catalog. *)
Theorem scoreUniqueness_answers (tokenize : string -> list string)
    (skill : Skill.t) (existingSkills : list Existing.t) :
  existingSkills <> [] ->
  exists s d b,
    scoreUniqueness tokenize skill existingSkills = UObject s d b
    /\ In (s, b) [(0, true); (3, true); (10, false); (18, false); (25, false)]
    /\ (18 <= s <-> d = Null)
    /\ (s < 18 ->
        exists e, In e existingSkills /\ d = Def (Existing.id e)).
Proof. apply scoreUniqueness_cases. Qed.

Lemma scoreUniqueness_answers_witness :
  exists s d b,
    scoreUniqueness words git_pro catalog_near_git_pro = UObject s d b
    /\ In (s, b) [(0, true); (3, true); (10, false); (18, false); (25, false)].
Proof.
  destruct (scoreUniqueness_answers words git_pro catalog_near_git_pro)
    as (s & d & b & Hu & Hin & _); [discriminate |].
  exists s, d, b. split; assumption.
Defined.

Lemma uniqueness_loop_before (tokenize : string -> list string)
    (skill : Skill.t) (bound : Q) (before rest : list Existing.t) :
  Forall (fun x => Existing.id x <> Skill.id skill) before ->
  Forall (fun x => (similarity_to tokenize skill x < bound)%Q) before ->
  forall (m : Q) (b : js string),
    (m < bound)%Q ->
    exists m' b',
      (m' < bound)%Q
      /\ uniqueness_loop tokenize skill
           (tokenize
              (Skill.name skill ++ " " ++ Skill.description skill)%string)
           (before ++ rest) m b
         = uniqueness_loop tokenize skill
             (tokenize
                (Skill.name skill ++ " " ++ Skill.description skill)%string)
             rest m' b'.
Proof.
  induction before as [| x before IH]; intros Hids Hsims m b Hm; simpl.
  - eauto.
  - apply Forall_cons in Hids as [Hid Hids].
    apply Forall_cons in Hsims as [Hsim Hsims].
    destruct (String.eqb_spec (Existing.id x) (Skill.id skill));
      [contradiction |].
    fold (similarity_to tokenize skill x).
    destruct (Qgtb (similarity_to tokenize skill x) m); now apply IH.
Qed.

Lemma uniqueness_loop_after (tokenize : string -> list string)
    (skill : Skill.t) (after : list Existing.t) (m : Q) (b : js string) :
  Forall (fun x => Existing.id x <> Skill.id skill) after ->
  Forall (fun x => (similarity_to tokenize skill x <= m)%Q) after ->
  uniqueness_loop tokenize skill
    (tokenize (Skill.name skill ++ " " ++ Skill.description skill)%string)
    after m b
  = inr (m, b).
Proof.
  induction after as [| x after IH]; intros Hids Hsims; simpl;
    [reflexivity |].
  apply Forall_cons in Hids as [Hid Hids].
  apply Forall_cons in Hsims as [Hsim Hsims].
  destruct (String.eqb_spec (Existing.id x) (Skill.id skill));
    [contradiction |].
  fold (similarity_to tokenize skill x).
  replace (Qgtb (similarity_to tokenize skill x) m) with false
    by (symmetry; now apply Qgtb_false).
  now apply IH.
Qed.

(** Without an entry of the same id, the answer is decided by the first
    entry whose similarity no other entry exceeds: over 0.7 it is named and
    flagged (score 3); over 0.5 it is named but not flagged (score 10); over
    0.3 nothing is named (score 18); otherwise the score is 25. *)
Theorem scoreUniqueness_first_best (tokenize : string -> list string)
    (skill : Skill.t) (before after : list Existing.t) (e : Existing.t) :
  let existingSkills := before ++ e :: after in
  let best := similarity_to tokenize skill e in
  Forall (fun x => Existing.id x <> Skill.id skill) existingSkills ->
  Forall (fun x => (similarity_to tokenize skill x < best)%Q) before ->
  Forall (fun x => (similarity_to tokenize skill x <= best)%Q) after ->
  (0 < best)%Q ->
  scoreUniqueness tokenize skill existingSkills
  = if Qgtb best (7 # 10) then UObject 3 (Def (Existing.id e)) true
    else if Qgtb best (5 # 10) then UObject 10 (Def (Existing.id e)) false
    else if Qgtb best (3 # 10) then UObject 18 Null false
    else UObject 25 Null false.
Proof.
  cbv zeta. intros Hids Hbefore Hafter Hpos.
  apply Forall_app in Hids as [Hids_before Hids_rest].
  apply Forall_cons in Hids_rest as [Hid Hids_after].
  unfold scoreUniqueness.
  replace ((List.length (before ++ e :: after) =? 0)%nat) with false
    by (symmetry; apply Nat.eqb_neq; rewrite length_app; simpl; lia).
  cbv zeta.
  destruct (uniqueness_loop_before tokenize skill
              (similarity_to tokenize skill e) before (e :: after)
              Hids_before Hbefore 0%Q Null Hpos) as (m' & b' & Hm' & ->).
  simpl. destruct (String.eqb_spec (Existing.id e) (Skill.id skill));
    [contradiction |].
  fold (similarity_to tokenize skill e).
  replace (Qgtb (similarity_to tokenize skill e) m') with true
    by (symmetry; now apply Qgtb_true).
  rewrite uniqueness_loop_after by assumption. reflexivity.
Qed.

Lemma scoreUniqueness_first_best_witness :
  scoreUniqueness words git_pro catalog_near_git_pro
  = UObject 10 (Def "git-basics") false.
Proof.
  apply (scoreUniqueness_first_best words git_pro
           [ {| Existing.id := "k8s"; Existing.name := Some "Kubernetes";
                Existing.description := Some "Cluster tips" |} ]
           []
           {| Existing.id := "git-basics"; Existing.name := Some "Git helper";
              Existing.description := None |}).
  - repeat constructor; discriminate.
  - repeat constructor; vm_compute; reflexivity.
  - constructor.
  - vm_compute. reflexivity.
Defined.

(** *** The ranked record against a catalog that is not empty *)

Lemma scoreRepoSignals_at_most_22 (Date_parse : string -> option Z) (now : Z)
    (skill : Skill.t) :
  scoreRepoSignals Date_parse now skill <= 22.
Proof. unfold scoreRepoSignals. cbv zeta. split_ifs; lia. Qed.

(** The repository signals never reach 25: they are at most 22, at most 20
    for a source without a description (as [discoverSkills] builds every
    source), and 0 for a skill without a source. *)
Theorem scoreRepoSignals_bounds (Date_parse : string -> option Z) (now : Z)
    (skill : Skill.t) :
  0 <= scoreRepoSignals Date_parse now skill <= 22
  /\ (Skill.source skill ≫= Source.description = None ->
      scoreRepoSignals Date_parse now skill <= 20)
  /\ (Skill.source skill = None -> scoreRepoSignals Date_parse now skill = 0).
Proof.
  split; [split; [apply scoreRepoSignals_range
                 | apply scoreRepoSignals_at_most_22] |].
  split.
  - intros Hdesc. unfold scoreRepoSignals. cbv zeta. rewrite Hdesc.
    change (nonempty (or_empty None)) with false. cbv iota.
    split_ifs; lia.
  - intros Hsource. unfold scoreRepoSignals. rewrite Hsource. reflexivity.
Qed.

Lemma scoreRepoSignals_bounds_witness :
  scoreRepoSignals no_date 0 scenario_document = 0.
Proof.
  apply (scoreRepoSignals_bounds no_date 0 scenario_document). reflexivity.
Defined.

(** Against a catalog that is not empty the ranked record is well formed:
    its score is the sum of the four sub-scores, completeness and quality
    are between 0 and 25, uniqueness is one of 0, 3, 10, 18 and 25, the
    repository signals are between 0 and 22, the score is between 0 and 97,
    the tier is the tier of that score, and the duplicate flag and reference
    are defined. *)
Theorem rankSkill_well_formed (tokenize : string -> list string)
    (Date_parse : string -> option Z) (now : Z) (skill : Skill.t)
    (existingSkills : list Existing.t) :
  existingSkills <> [] ->
  let r := rankSkill tokenize Date_parse now skill existingSkills in
  let b := Ranked.breakdown r in
  exists u total,
    Breakdown.uniqueness b = Def (Num u)
    /\ In u [0; 3; 10; 18; 25]
    /\ 0 <= Breakdown.completeness b <= 25
    /\ 0 <= Breakdown.quality b <= 25
    /\ 0 <= Breakdown.repoSignals b <= 22
    /\ total = Breakdown.completeness b + u + Breakdown.quality b
               + Breakdown.repoSignals b
    /\ Ranked.score r = Num total
    /\ 0 <= total <= 97
    /\ Ranked.tier r = assignTier (Num total)
    /\ Ranked.isDuplicate r <> Undefined
    /\ Ranked.duplicateOf r <> Undefined.
Proof.
  intros Hne.
  destruct (scoreUniqueness_cases tokenize skill existingSkills Hne)
    as (s & d & dup & Hu & Hin & Hnull & Hnamed).
  pose proof (scoreCompleteness_range skill) as Hc.
  pose proof (scoreQuality_range skill) as Hq.
  pose proof (scoreRepoSignals_range Date_parse now skill) as Hr.
  pose proof (scoreRepoSignals_at_most_22 Date_parse now skill) as Hr22.
  assert (In s [0; 3; 10; 18; 25] /\ 0 <= s <= 25) as [Hs Hs25].
  { simpl in Hin.
    repeat (destruct Hin as [Hin | Hin];
            [injection Hin as <- <-; split; [simpl; auto 10 | lia] |]).
    destruct Hin. }
  unfold rankSkill. cbv zeta. simpl. rewrite Hu. simpl.
  exists s, (scoreCompleteness skill + s + scoreQuality skill
             + scoreRepoSignals Date_parse now skill).
  repeat split; try lia; try exact Hs; try discriminate.
  destruct (Z_lt_le_dec s 18) as [Hlt | Hge].
  - destruct (Hnamed Hlt) as (e & _ & ->). discriminate.
  - rewrite (proj1 Hnull Hge). discriminate.
Qed.

Lemma rankSkill_well_formed_witness :
  exists u total,
    Breakdown.uniqueness
      (Ranked.breakdown (rankSkill words no_date 0 rich_document one_existing))
    = Def (Num u)
    /\ Ranked.score (rankSkill words no_date 0 rich_document one_existing)
       = Num total
    /\ 0 <= total <= 97.
Proof.
  destruct (rankSkill_well_formed words no_date 0 rich_document one_existing)
    as (u & total & Hu & _ & _ & _ & _ & _ & Hscore & Hrange & _);
    [discriminate |].
  exists u, total. repeat split; try assumption; apply Hrange.
Defined.

(** Parse errors cost exactly the two points of the clean-parse credit: the
    record stays in the ranking with a quality two below what it would have
    without them. *)
Theorem scoreQuality_parse_errors (skill : Skill.t) :
  Skill.parseErrors skill <> [] ->
  scoreQuality skill = scoreQuality (without_parseErrors skill) - 2.
Proof.
  intros Herr. unfold scoreQuality, without_parseErrors. cbv zeta. simpl.
  destruct (Skill.parseErrors skill) as [| e errs]; [congruence |].
  change ((List.length (e :: errs) =? 0)%nat) with false. cbv iota.
  split_ifs; lia.
Qed.

Lemma scoreQuality_parse_errors_witness :
  scoreQuality
    {| Skill.id := "zeta"; Skill.name := "Foo";
       Skill.description := "AAAAAAAAAAAAAAAAAAAAAAAAAAAAAA";
       Skill.tags := ["x"]; Skill.content := long_content;
       Skill.source := None; Skill.parseErrors := ["bad header"] |}
  = scoreQuality rich_document - 2.
Proof.
  apply (scoreQuality_parse_errors
           {| Skill.id := "zeta"; Skill.name := "Foo";
              Skill.description := "AAAAAAAAAAAAAAAAAAAAAAAAAAAAAA";
              Skill.tags := ["x"]; Skill.content := long_content;
              Skill.source := None; Skill.parseErrors := ["bad header"] |}).
  discriminate.
Defined.

(** *** Categories *)

Lemma find_first {A} (f : A -> bool) (before after : list A) (x : A) :
  Forall (fun y => f y = false) before -> f x = true ->
  List.find f (before ++ x :: after) = Some x.
Proof.
  induction 1 as [| y before Hy _ IH]; intros Hx; simpl.
  - now rewrite Hx.
  - rewrite Hy. now apply IH.
Qed.

Lemma existsb_Set_has (haystack keywords : list string) :
  existsb (Set_has (new_Set haystack)) keywords = true
  <-> exists k, In k keywords /\ In k haystack.
Proof.
  rewrite existsb_exists. split; intros (k & Hk & H); exists k; split; auto.
  - now apply new_Set_In, Set_has_In.
  - now apply Set_has_In, new_Set_In.
Qed.

(** The category is the name of the first rule, in the order of the table,
    one of whose keywords is among the tokens of the skill, whatever later
    rules would match; it is "general" exactly when no keyword of any rule is
    among them; so it is always one of nine names. *)
Theorem categorizeSkill_first_rule (tokenize : string -> list string)
    (skill : Skill.t) :
  (forall before rule after,
      CATEGORY_RULES = before ++ rule :: after ->
      (forall earlier k, In earlier before -> In k (Rule.keywords earlier) ->
                         ~ In k (category_tokens tokenize skill)) ->
      (exists k, In k (Rule.keywords rule)
                 /\ In k (category_tokens tokenize skill)) ->
      categorizeSkill tokenize skill = Rule.name rule)
  /\ (categorizeSkill tokenize skill = "general"
      <-> forall rule k, In rule CATEGORY_RULES -> In k (Rule.keywords rule) ->
                         ~ In k (category_tokens tokenize skill))
  /\ In (categorizeSkill tokenize skill)
       [ "security"; "infrastructure"; "data-ai"; "development";
         "architecture"; "testing"; "business"; "workflow"; "general" ].
Proof.
  unfold categorizeSkill. fold (category_tokens tokenize skill).
  set (tokens := category_tokens tokenize skill).
  split; [| split].
  - intros before rule after -> Hbefore Hrule.
    rewrite (find_first _ before after rule); [reflexivity | |].
    + apply List.Forall_forall. intros earlier Hin.
      apply not_true_is_false. intros Hex.
      apply existsb_Set_has in Hex as (k & Hk & Htok).
      exact (Hbefore earlier k Hin Hk Htok).
    + now apply existsb_Set_has.
  - destruct (List.find _ CATEGORY_RULES) as [rule |] eqn:Hfind.
    + apply find_some in Hfind as [Hin Hex].
      apply existsb_Set_has in Hex as (k & Hk & Htok). split.
      * intros Hname. exfalso. revert Hname. clear - Hin.
        simpl in Hin.
        repeat (destruct Hin as [<- | Hin]; [discriminate |]). destruct Hin.
      * intros Hnone. exfalso. exact (Hnone rule k Hin Hk Htok).
    + split; [| reflexivity]. intros _ rule k Hin Hk Htok.
      pose proof (find_none _ _ Hfind rule Hin) as Hfalse.
      assert (existsb (Set_has (new_Set tokens)) (Rule.keywords rule) = true)
        as Htrue by (apply existsb_Set_has; eauto).
      congruence.
  - destruct (List.find _ CATEGORY_RULES) as [rule |] eqn:Hfind.
    + apply find_some in Hfind as [Hin _]. clear - Hin. simpl in Hin.
      repeat (destruct Hin as [<- | Hin]; [simpl; auto 12 |]). destruct Hin.
    + simpl. auto 12.
Qed.

Lemma categorizeSkill_first_rule_witness :
  categorizeSkill words incident_skill = "security".
Proof.
  destruct (categorizeSkill_first_rule words incident_skill) as [Hfirst _].
  apply (Hfirst [] (List.hd (Rule.mk "general" []) CATEGORY_RULES)
           (List.tl CATEGORY_RULES)).
  - reflexivity.
  - intros earlier k [].
  - exists "incident". split; vm_compute; tauto.
Defined.

(** *** The ranking as a whole *)

Lemma compare_code_units_antisym (x y : string) :
  0 < compare_code_units x y -> compare_code_units y x <= 0.
Proof.
  unfold compare_code_units. rewrite (String.compare_antisym x y).
  destruct (String.compare y x); simpl; lia.
Qed.

(** Against a catalog that is not empty, and when [localeCompare] never puts
    each of two ids after the other, the output of [rankAll] is sorted by
    score, highest first, and among equal scores by id in the order of
    [localeCompare]. *)
Theorem rankAll_sorted_nonempty_catalog (tokenize : string -> list string)
    (Date_parse : string -> option Z) (localeCompare : string -> string -> Z)
    (clock : nat -> Z) (discoveredSkills : list Skill.t)
    (existingSkills : list Existing.t) :
  (forall x y, 0 < localeCompare x y -> localeCompare y x <= 0) ->
  existingSkills <> [] ->
  Sorted (score_then_id localeCompare)
    (rankAll tokenize Date_parse localeCompare clock discoveredSkills
       existingSkills).
Proof. apply rankAll_sorted. Qed.

Lemma rankAll_sorted_nonempty_catalog_witness :
  Sorted (score_then_id compare_code_units)
    (rankAll words no_date compare_code_units (fun _ => 0)
       [ bare_document; rich_document; scenario_document ] one_existing).
Proof.
  apply (rankAll_sorted_nonempty_catalog words no_date compare_code_units
           (fun _ => 0) [ bare_document; rich_document; scenario_document ]
           one_existing);
    [exact compare_code_units_antisym | discriminate].
Defined.

Lemma map_id_imap (g : nat -> Skill.t -> Ranked.t) (l : list Skill.t) :
  (forall i s, Ranked.id (g i s) = Skill.id s) ->
  List.map Ranked.id (imap g l) = List.map Skill.id l.
Proof.
  revert g. induction l as [| x l IH]; intros g Hg; simpl; [reflexivity |].
  rewrite Hg. f_equal. apply IH. intros i s. apply Hg.
Qed.

(** [rankAll] ranks every discovered skill once: its output is a
    rearrangement of the records [rankSkill] gives for the skills, so it has
    the ids of the discovered skills, each as often as it was discovered,
    whatever the comparison of ids does. *)
Theorem rankAll_rearranges (tokenize : string -> list string)
    (Date_parse : string -> option Z) (localeCompare : string -> string -> Z)
    (clock : nat -> Z) (discoveredSkills : list Skill.t)
    (existingSkills : list Existing.t) :
  let ranked :=
    rankAll tokenize Date_parse localeCompare clock discoveredSkills
      existingSkills in
  Permutation ranked
    (imap (fun i skill =>
             rankSkill tokenize Date_parse (clock i) skill existingSkills)
       discoveredSkills)
  /\ Permutation (List.map Ranked.id ranked)
       (List.map Skill.id discoveredSkills)
  /\ List.length ranked = List.length discoveredSkills.
Proof.
  cbv zeta.
  assert (Permutation
            (rankAll tokenize Date_parse localeCompare clock discoveredSkills
               existingSkills)
            (imap (fun i skill =>
                     rankSkill tokenize Date_parse (clock i) skill
                       existingSkills) discoveredSkills)) as Hperm.
  { unfold rankAll. symmetry. apply js_sort_Permutation. }
  split; [exact Hperm |]. split.
  - rewrite (Permutation_map Ranked.id Hperm).
    now rewrite map_id_imap by reflexivity.
  - apply rankAll_length.
Qed.

(** *** The catalog across visits *)

Lemma push_check_last (now : string) (info : Info.t) (entry : Entry.t) :
  last (Entry.checks (push_check now info entry)) = Some (check_of now info)
  /\ List.length (Entry.checks (push_check now info entry))
     = Nat.min 20 (List.length (Entry.checks entry) + 1).
Proof.
  unfold push_check. cbn [Entry.checks]. fold (check_of now info).
  destruct (20 <? _)%nat eqn:Hlen.
  - apply Nat.ltb_lt in Hlen. rewrite length_app in Hlen.
    change (List.length [check_of now info]) with 1%nat in Hlen.
    unfold slice_last. rewrite length_drop, length_app.
    change (List.length [check_of now info]) with 1%nat.
    split; [| lia].
    rewrite drop_app_le by lia. apply last_snoc.
  - apply Nat.ltb_ge in Hlen. rewrite length_app in *.
    change (List.length [check_of now info]) with 1%nat in *.
    split; [apply last_snoc | lia].
Qed.

Lemma logRepoCheck_entry (now : string) (catalog : Catalog.t)
    (repoName : string) (info : Info.t) :
  exists upserted,
    upsert_entry now (Catalog.repos catalog) repoName info !! repoName
    = Some upserted
    /\ Catalog.repos (logRepoCheck now catalog repoName info) !! repoName
       = Some (push_check now info upserted).
Proof.
  destruct (upsert_entry_same now (Catalog.repos catalog) repoName info)
    as (e & He & _).
  exists e. split; [exact He |]. unfold logRepoCheck. simpl.
  now rewrite lookup_alter_eq, He.
Qed.

Lemma logRepoCheck_call_Return (now : string) (catalog after : Catalog.t)
    (repoName : string) (info : Info.t) :
  logRepoCheck_call now catalog repoName info = Return after ->
  after = logRepoCheck now catalog repoName info.
Proof.
  unfold logRepoCheck_call.
  destruct (Catalog.repos catalog !! repoName); [congruence |].
  destruct (inherited repoName); [discriminate | congruence].
Qed.

Lemma logRepoCheck_call_Throw (now : string) (catalog : Catalog.t)
    (repoName : string) (info : Info.t) (e : Error) :
  logRepoCheck_call now catalog repoName info = Throw e <->
  e = TypeError /\ inherited repoName = true
  /\ Catalog.repos catalog !! repoName = None.
Proof.
  unfold logRepoCheck_call.
  destruct (Catalog.repos catalog !! repoName) as [old |].
  - split; [discriminate | intros (_ & _ & H); discriminate H].
  - destruct (inherited repoName).
    + split; [intros [= <-]; auto | intros (-> & _); reflexivity].
    + split; [discriminate | intros (_ & H & _); discriminate H].
Qed.

Lemma recordVisits_calls_Return (visits : list visit) :
  forall catalog after,
    recordVisits_calls catalog visits = Return after ->
    after = recordVisits catalog visits.
Proof.
  induction visits as [| [[now repoName] info] visits IH];
    intros catalog after; simpl; [congruence |].
  destruct (logRepoCheck_call now catalog repoName info) as [c |] eqn:Hcall;
    [| discriminate].
  apply logRepoCheck_call_Return in Hcall as ->. apply IH.
Qed.

Lemma recordVisits_calls_Throw (visits : list visit) :
  forall catalog e,
    recordVisits_calls catalog visits = Throw e ->
    e = TypeError
    /\ Exists (fun v => inherited (repo_of v) = true) visits.
Proof.
  induction visits as [| [[now repoName] info] visits IH];
    intros catalog e; simpl; [discriminate |].
  destruct (logRepoCheck_call now catalog repoName info) as [c |] eqn:Hcall.
  - intros H. destruct (IH _ _ H) as [-> Hex]. split; [reflexivity |].
    now apply Exists_cons_tl.
  - intros [= <-]. apply logRepoCheck_call_Throw in Hcall as (-> & Hin & _).
    split; [reflexivity |]. now apply Exists_cons_hd.
Qed.

Lemma plain_names_logRepoCheck (now : string) (catalog : Catalog.t)
    (repoName : string) (info : Info.t) :
  plain_names catalog -> inherited repoName = false ->
  plain_names (logRepoCheck now catalog repoName info).
Proof.
  intros Hplain Hname other Hother.
  destruct (decide (other = repoName)) as [-> | Hne]; [exact Hname |].
  rewrite logRepoCheck_other in Hother by exact Hne. now apply Hplain.
Qed.

(** On a catalog without inherited names among its entries, the calls all
    return exactly when no visit is to an inherited name. *)
Lemma recordVisits_calls_plain (visits : list visit) :
  forall catalog,
    plain_names catalog ->
    match recordVisits_calls catalog visits with
    | Return _ => Forall (fun v => inherited (repo_of v) = false) visits
    | Throw _ => True
    end.
Proof.
  induction visits as [| [[now repoName] info] visits IH];
    intros catalog Hplain; simpl; [constructor |].
  unfold logRepoCheck_call.
  destruct (Catalog.repos catalog !! repoName) as [old |] eqn:Hold.
  - assert (Hname : inherited repoName = false) by (apply Hplain; eauto).
    specialize (IH _ (plain_names_logRepoCheck now _ _ info Hplain Hname)).
    destruct (recordVisits_calls _ visits); [| exact Logic.I].
    now constructor.
  - destruct (inherited repoName) eqn:Hname; [exact Logic.I |].
    specialize (IH _ (plain_names_logRepoCheck now _ _ info Hplain Hname)).
    destruct (recordVisits_calls _ visits); [| exact Logic.I].
    now constructor.
Qed.

Lemma recordVisits_calls_returns (visits : list visit) :
  forall catalog,
    Forall (fun v => inherited (repo_of v) = false) visits ->
    recordVisits_calls catalog visits
    = Return (recordVisits catalog visits).
Proof.
  induction visits as [| [[now repoName] info] visits IH];
    intros catalog Hall; [reflexivity |].
  apply Forall_cons in Hall as [Hname Hall]. simpl.
  unfold logRepoCheck_call. unfold repo_of in Hname. simpl in Hname.
  rewrite Hname. destruct (Catalog.repos catalog !! repoName); now apply IH.
Qed.

Lemma recordVisits_frame (catalog : Catalog.t) (visits : list visit)
    (repoName : string) :
  (is_Some (Catalog.repos (recordVisits catalog visits) !! repoName)
   <-> is_Some (Catalog.repos catalog !! repoName)
       \/ exists now info, In (now, repoName, info) visits)
  /\ ((forall now info, ~ In (now, repoName, info) visits) ->
      Catalog.repos (recordVisits catalog visits) !! repoName
      = Catalog.repos catalog !! repoName)
  /\ Catalog.lastUpdated (recordVisits catalog visits)
     = Catalog.lastUpdated catalog.
Proof.
  revert catalog. induction visits as [| [[now name] info] visits IH];
    intros catalog; simpl.
  - split; [| split; [reflexivity | reflexivity]].
    split; [now left | intros [H | (? & ? & [])]; exact H].
  - destruct (IH (logRepoCheck now catalog name info))
      as (Hdom & Hframe & Hupdated).
    split; [| split].
    + rewrite Hdom. destruct (decide (repoName = name)) as [-> | Hne].
      * destruct (logRepoCheck_entry now catalog name info)
          as (e & _ & ->).
        split; [intros _; right; exists now, info; now left | eauto].
      * rewrite logRepoCheck_other by exact Hne. split.
        -- intros [H | (now' & info' & H)]; [now left |].
           right. exists now', info'. now right.
        -- intros [H | (now' & info' & [H | H])]; [now left | | ].
           ++ congruence.
           ++ right. eauto.
    + intros Hnot. rewrite Hframe.
      * apply logRepoCheck_other. intros ->.
        apply (Hnot now info). now left.
      * intros now' info' Hin. apply (Hnot now' info'). now right.
    + rewrite Hupdated. reflexivity.
Qed.

(** The call that throws is for a name the catalog had no entry of when the
    sequence began: no call before it removes an entry. *)
Lemma recordVisits_calls_Throw_at (visits : list visit) :
  forall catalog e,
    recordVisits_calls catalog visits = Throw e ->
    e = TypeError
    /\ Exists (fun v => inherited (repo_of v) = true
                        /\ Catalog.repos catalog !! repo_of v = None) visits.
Proof.
  induction visits as [| [[now repoName] info] visits IH];
    intros catalog e; simpl; [discriminate |].
  destruct (logRepoCheck_call now catalog repoName info) as [c |] eqn:Hcall.
  - intros H. apply logRepoCheck_call_Return in Hcall as ->.
    destruct (IH _ _ H) as [-> Hex]. split; [reflexivity |].
    apply Exists_cons_tl. eapply Exists_impl; [exact Hex |].
    intros v [Hname Hnone]. split; [exact Hname |].
    destruct (Catalog.repos catalog !! repo_of v) as [old |] eqn:Hold;
      [| reflexivity].
    destruct (recordVisits_frame catalog [(now, repoName, info)] (repo_of v))
      as (Hdom & _). simpl in Hdom.
    assert (is_Some (Catalog.repos
                       (logRepoCheck now catalog repoName info) !! repo_of v))
      as [e He] by (apply Hdom; left; rewrite Hold; eauto).
    congruence.
  - intros [= <-]. apply logRepoCheck_call_Throw in Hcall as (-> & Hin & Hno).
    split; [reflexivity |]. now apply Exists_cons_hd.
Qed.

(** The entries of the catalog after a sequence of calls, none of which is
    for a name that objects inherit, are those it had and those of the
    repositories visited: no entry is ever removed, an entry of a repository
    that was not visited is as it was, and [lastUpdated] is not touched.
    The sequence ends in a TypeError only at a call for an inherited name
    ('constructor', 'toString', '__proto__' and the like) of which the
    catalog has no entry. *)
Theorem recordVisits_entries (catalog : Catalog.t) (visits : list visit)
    (repoName : string) :
  (Forall (fun v => inherited (repo_of v) = false) visits ->
   exists after, recordVisits_calls catalog visits = Return after)
  /\ match recordVisits_calls catalog visits with
     | Return after =>
         (is_Some (Catalog.repos after !! repoName)
          <-> is_Some (Catalog.repos catalog !! repoName)
              \/ exists now info, In (now, repoName, info) visits)
         /\ ((forall now info, ~ In (now, repoName, info) visits) ->
             Catalog.repos after !! repoName
             = Catalog.repos catalog !! repoName)
         /\ Catalog.lastUpdated after = Catalog.lastUpdated catalog
     | Throw e =>
         e = TypeError
         /\ Exists (fun v => inherited (repo_of v) = true
                             /\ Catalog.repos catalog !! repo_of v = None)
              visits
     end.
Proof.
  split.
  - intros Hall. rewrite recordVisits_calls_returns by exact Hall. eauto.
  - destruct (recordVisits_calls catalog visits) as [after | e] eqn:Hrun.
    + apply recordVisits_calls_Return in Hrun as ->.
      apply recordVisits_frame.
    + now apply recordVisits_calls_Throw_at in Hrun.
Qed.

Lemma recordVisits_entries_witness :
  exists after,
    recordVisits_calls empty_catalog sample_visits = Return after
    /\ Catalog.repos after !! "other/repo" = None.
Proof.
  destruct (recordVisits_entries empty_catalog sample_visits "other/repo")
    as [Hreturns Hentries].
  destruct Hreturns as [after Hrun].
  { unfold sample_visits. apply Forall_map, Forall_forall.
    intros i _. reflexivity. }
  rewrite Hrun in Hentries. destruct Hentries as (_ & Hframe & _).
  exists after. split; [exact Hrun |].
  rewrite Hframe; [reflexivity |].
  intros now info Hin. vm_compute in Hin.
  repeat (destruct Hin as [Hin | Hin]; [discriminate Hin |]). destruct Hin.
Defined.

Example recordVisits_calls_constructor :
  recordVisits_calls empty_catalog
    [("1", "owner/repo", sample_info); ("2", "constructor", sample_info);
     ("3", "other/repo", sample_info)]
  = Throw TypeError.
Proof. vm_compute. reflexivity. Qed.

Lemma logRepoCheck_visit (now : string) (catalog : Catalog.t)
    (repoName : string) (info : Info.t) :
  exists entry,
    Catalog.repos (logRepoCheck now catalog repoName info) !! repoName
    = Some entry
    /\ Entry.lastChecked entry = now
    /\ Entry.status entry = str_or (Info.status info) "checked"
    /\ last (Entry.checks entry) = Some (check_of now info)
    /\ (Catalog.repos catalog !! repoName = None ->
        Entry.firstSeen entry = now
        /\ Entry.checks entry = [check_of now info]
        /\ Entry.url entry = ("https://github.com/" ++ repoName)%string).
Proof.
  destruct (logRepoCheck_entry now catalog repoName info) as (e & He & ->).
  exists (push_check now info e). split; [reflexivity |].
  destruct (push_check_last now info e) as [Hlast _].
  unfold upsert_entry in He.
  destruct (Catalog.repos catalog !! repoName) as [old |] eqn:Hold;
    rewrite lookup_insert_eq in He; injection He as <-.
  - repeat split; try exact Hlast; discriminate.
  - repeat split; exact Hlast.
Qed.

(** A call for a name that objects inherit, of which the catalog has no
    entry, throws a TypeError and records nothing.  Every other call
    returns and records the visit: afterwards the entry of the repository
    has the time of the call as [lastChecked], the reported status (or
    ['checked']), and the visit as the last of its checks; an entry made by
    the call has that time as [firstSeen], this one check, and the address
    of the repository on github.com as [url]. *)
Theorem logRepoCheck_records_visit (now : string) (catalog : Catalog.t)
    (repoName : string) (info : Info.t) :
  (inherited repoName = true
   /\ Catalog.repos catalog !! repoName = None
   /\ logRepoCheck_call now catalog repoName info = Throw TypeError)
  \/ ((inherited repoName = false
       \/ is_Some (Catalog.repos catalog !! repoName))
      /\ exists after entry,
           logRepoCheck_call now catalog repoName info = Return after
           /\ Catalog.repos after !! repoName = Some entry
           /\ Entry.lastChecked entry = now
           /\ Entry.status entry = str_or (Info.status info) "checked"
           /\ last (Entry.checks entry) = Some (check_of now info)
           /\ (Catalog.repos catalog !! repoName = None ->
               Entry.firstSeen entry = now
               /\ Entry.checks entry = [check_of now info]
               /\ Entry.url entry
                  = ("https://github.com/" ++ repoName)%string)).
Proof.
  destruct (logRepoCheck_visit now catalog repoName info) as (entry & Hentry).
  unfold logRepoCheck_call.
  destruct (Catalog.repos catalog !! repoName) as [old |] eqn:Hold.
  - right. split; [right; eauto |]. eauto.
  - destruct (inherited repoName) eqn:Hname.
    + left. auto.
    + right. split; [now left |]. eauto.
Qed.

Example logRepoCheck_call_toString :
  logRepoCheck_call "1" empty_catalog "toString" sample_info = Throw TypeError
  /\ logRepoCheck_call "1" empty_catalog "__proto__" sample_info
     = Throw TypeError
  /\ exists after,
       logRepoCheck_call "1" empty_catalog "owner/repo" sample_info
       = Return after
       /\ checks_at "owner/repo" after = 1%nat.
Proof.
  split; [reflexivity |]. split; [reflexivity |].
  eexists. split; [reflexivity |]. vm_compute. reflexivity.
Qed.

(** A visit that reports nothing new does not erase what is known: 0 or
    missing stars, forks or skill count, an empty description and an empty
    list of skill ids leave the stored values as they are, while the status
    is replaced.  So a repository whose skills are gone keeps its skill
    count and skill ids next to the status of the visit. *)
Theorem logRepoCheck_keeps_known (now : string) (catalog : Catalog.t)
    (repoName : string) (info : Info.t) (old : Entry.t) :
  Catalog.repos catalog !! repoName = Some old ->
  exists entry,
    Catalog.repos (logRepoCheck now catalog repoName info) !! repoName
    = Some entry
    /\ (num_or (Info.stars info) 0 = 0 -> Entry.stars entry = Entry.stars old)
    /\ (num_or (Info.forks info) 0 = 0 -> Entry.forks entry = Entry.forks old)
    /\ (num_or (Info.skillCount info) 0 = 0 ->
        Entry.skillCount entry = Entry.skillCount old)
    /\ (str_or (Info.description info) EmptyString = EmptyString ->
        Entry.description entry = Entry.description old)
    /\ (default [] (Info.skillIds info) = [] ->
        Entry.skillIds entry = Entry.skillIds old)
    /\ Entry.status entry = str_or (Info.status info) "checked"
    /\ Entry.url entry = Entry.url old.
Proof.
  intros Hold.
  destruct (logRepoCheck_entry now catalog repoName info) as (e & He & ->).
  exists (push_check now info e). split; [reflexivity |].
  unfold upsert_entry in He. rewrite Hold, lookup_insert_eq in He.
  injection He as <-. simpl.
  repeat split.
  - destruct (Info.stars info) as [v |]; simpl; [| reflexivity].
    destruct (v =? 0) eqn:Hv; [reflexivity | intros ->; discriminate Hv].
  - destruct (Info.forks info) as [v |]; simpl; [| reflexivity].
    destruct (v =? 0) eqn:Hv; [reflexivity | intros ->; discriminate Hv].
  - destruct (Info.skillCount info) as [v |]; simpl; [| reflexivity].
    destruct (v =? 0) eqn:Hv; [reflexivity | intros ->; discriminate Hv].
  - destruct (Info.description info) as [d |]; simpl; [| reflexivity].
    destruct (nonempty d) eqn:Hd; [| reflexivity].
    intros ->. discriminate Hd.
  - destruct (Info.skillIds info) as [[| i ids] |]; simpl;
      [reflexivity | discriminate | reflexivity].
Qed.

Lemma logRepoCheck_keeps_known_witness :
  exists entry,
    Catalog.repos
      (logRepoCheck "22" (recordVisits empty_catalog sample_visits)
         "owner/repo" nothing_found) !! "owner/repo" = Some entry
    /\ Entry.skillCount entry = 2
    /\ Entry.skillIds entry = ["foo"; "bar"]
    /\ Entry.status entry = "no-skills".
Proof.
  edestruct (logRepoCheck_keeps_known "22"
               (recordVisits empty_catalog sample_visits) "owner/repo"
               nothing_found)
    as (entry & He & _ & _ & Hcount & _ & Hids & Hstatus & _);
    [vm_compute; reflexivity |].
  exists entry. split; [exact He |].
  split; [rewrite Hcount; reflexivity |].
  split; [rewrite Hids; reflexivity | exact Hstatus].
Defined.

Lemma checks_at_logRepoCheck (now : string) (catalog : Catalog.t)
    (visited repoName : string) (info : Info.t) :
  checks_at repoName (logRepoCheck now catalog visited info)
  = if String.eqb visited repoName
    then Nat.min 20 (checks_at repoName catalog + 1)
    else checks_at repoName catalog.
Proof.
  unfold checks_at. destruct (String.eqb_spec visited repoName) as [-> | Hne].
  - destruct (logRepoCheck_entry now catalog repoName info) as (e & He & ->).
    destruct (push_check_last now info e) as [_ ->].
    unfold upsert_entry in He.
    destruct (Catalog.repos catalog !! repoName) as [old |];
      rewrite lookup_insert_eq in He; injection He as <-; reflexivity.
  - rewrite logRepoCheck_other by congruence. reflexivity.
Qed.

Lemma checks_at_recordVisits (catalog : Catalog.t) (visits : list visit)
    (repoName : string) :
  checks_at repoName (recordVisits catalog visits)
  = match count_visits repoName visits with
    | O => checks_at repoName catalog
    | S _ =>
        Nat.min 20 (checks_at repoName catalog + count_visits repoName visits)
    end.
Proof.
  revert catalog. induction visits as [| [[now visited] info] visits IH];
    intros catalog; [reflexivity |].
  simpl recordVisits. rewrite IH, checks_at_logRepoCheck.
  unfold count_visits. simpl List.filter.
  destruct (String.eqb visited repoName); simpl List.length.
  - fold (count_visits repoName visits).
    destruct (count_visits repoName visits); lia.
  - reflexivity.
Qed.

Lemma plain_names_empty : plain_names empty_catalog.
Proof. intros repoName [e He]. simpl in He. now rewrite lookup_empty in He. Qed.

(** Starting from the empty catalog, a sequence of calls none of which is
    for a name that objects inherit returns, and the number of checks kept
    for a repository is then the number of visits to it, up to 20.  A
    sequence with a call for an inherited name ends in a TypeError. *)
Theorem recordVisits_check_count (visits : list visit) (repoName : string) :
  (Forall (fun v => inherited (repo_of v) = false) visits
   /\ exists after,
        recordVisits_calls empty_catalog visits = Return after
        /\ checks_at repoName after
           = Nat.min 20 (count_visits repoName visits))
  \/ (Exists (fun v => inherited (repo_of v) = true) visits
      /\ recordVisits_calls empty_catalog visits = Throw TypeError).
Proof.
  pose proof (recordVisits_calls_plain visits empty_catalog plain_names_empty)
    as Hplain.
  destruct (recordVisits_calls empty_catalog visits) as [after | e] eqn:Hrun.
  - left. split; [exact Hplain |]. exists after. split; [reflexivity |].
    apply recordVisits_calls_Return in Hrun as ->.
    rewrite checks_at_recordVisits.
    destruct (count_visits repoName visits); reflexivity.
  - right. apply recordVisits_calls_Throw in Hrun as [-> Hex]. auto.
Qed.

Example recordVisits_calls_count :
  exists after,
    recordVisits_calls empty_catalog (sample_visits ++ sample_later)
    = Return after
    /\ checks_at "owner/repo" after = 20%nat
    /\ checks_at "other/repo" after = 1%nat
    /\ checks_at "constructor" after = 0%nat.
Proof.
  eexists. split; [vm_compute; reflexivity |].
  repeat split; vm_compute; reflexivity.
Qed.

(** *** Catalog statistics and stale repositories *)

Lemma count_partition {A} (f : A -> Z) (l : list A) :
  Forall (fun x => 0 <= f x) l ->
  List.length l
  = Nat.add (List.length (List.filter (fun x => 0 <? f x) l))
      (List.length (List.filter (fun x => f x =? 0) l)).
Proof.
  induction 1 as [| x l Hx _ IH]; simpl; [reflexivity |].
  destruct (0 <? f x) eqn:Hpos, (f x =? 0) eqn:Hzero; simpl; lia.
Qed.

Lemma sum_from {A} (f : A -> Z) (l : list A) (a : Z) :
  Forall (fun x => 0 <= f x) l ->
  a + Z.of_nat (List.length (List.filter (fun x => 0 <? f x) l))
  <= fold_left (fun sum x => sum + f x) l a.
Proof.
  intros H. revert a. induction H as [| x l Hx _ IH]; intros a; simpl; [lia |].
  specialize (IH (a + f x)).
  destruct (0 <? f x) eqn:Hpos; simpl List.length; lia.
Qed.

(** The statistics of a catalog: [totalRepos] is the number of its entries;
    when no entry has a negative skill count, every repository is counted
    either with skills or as empty, and there are at least as many skills as
    repositories with skills; a catalog without entries has zero counts and
    no oldest or newest check. *)
Theorem getCatalogStats_counts (catalog : Catalog.t) :
  let stats := getCatalogStats catalog in
  Stats.totalRepos stats = Z.of_nat (size (Catalog.repos catalog))
  /\ Stats.lastUpdated stats = Catalog.lastUpdated catalog
  /\ ((forall repoName entry,
         Catalog.repos catalog !! repoName = Some entry ->
         0 <= Entry.skillCount entry) ->
      Stats.totalRepos stats
      = Stats.reposWithSkills stats + Stats.emptyRepos stats
      /\ Stats.reposWithSkills stats <= Stats.totalSkills stats)
  /\ (Catalog.repos catalog = ∅ ->
      stats = {| Stats.totalRepos := 0; Stats.reposWithSkills := 0;
                 Stats.emptyRepos := 0; Stats.totalSkills := 0;
                 Stats.oldestCheck := None; Stats.newestCheck := None;
                 Stats.lastUpdated := Catalog.lastUpdated catalog |}).
Proof.
  cbv zeta. split; [| split; [reflexivity | split]].
  - unfold getCatalogStats. simpl. now rewrite length_map_to_list.
  - intros Hpos. unfold getCatalogStats. simpl.
    assert (Forall (fun x : string * Entry.t => 0 <= Entry.skillCount (snd x))
              (map_to_list (Catalog.repos catalog))) as Hall.
    { apply List.Forall_forall. intros [name entry] Hin.
      apply list_elem_of_In, elem_of_map_to_list in Hin. simpl. eauto. }
    set (l := map_to_list (Catalog.repos catalog)) in *.
    pose proof (count_partition (fun x => Entry.skillCount (snd x)) l Hall)
      as Hpart.
    pose proof (sum_from (fun x => Entry.skillCount (snd x)) l 0 Hall) as Hsum.
    assert (forall (g : Entry.t -> bool),
              List.filter (fun '(_, entry) => g entry) l
              = List.filter (fun x => g (snd x)) l) as Hfilter.
    { intros g. apply List.filter_ext. now intros [? ?]. }
    rewrite (Hfilter (fun entry => 0 <? Entry.skillCount entry)).
    rewrite (Hfilter (fun entry => Entry.skillCount entry =? 0)).
    assert (fold_left (fun sum '(_, entry) => sum + Entry.skillCount entry) l 0
            = fold_left (fun sum x => sum + Entry.skillCount (snd x)) l 0)
      as ->.
    { clear. generalize 0. generalize l. clear l.
      induction l as [| [? ?] l IH]; intros a; simpl;
        [reflexivity | apply IH]. }
    split; lia.
  - intros Hempty. unfold getCatalogStats. rewrite Hempty, map_to_list_empty.
    reflexivity.
Qed.

Lemma logRepoCheck_skillCount_nonneg (now : string) (catalog : Catalog.t)
    (visited : string) (info : Info.t) :
  (forall repoName entry,
     Catalog.repos catalog !! repoName = Some entry ->
     0 <= Entry.skillCount entry) ->
  0 <= num_or (Info.skillCount info) 0 ->
  forall repoName entry,
    Catalog.repos (logRepoCheck now catalog visited info) !! repoName
    = Some entry ->
    0 <= Entry.skillCount entry.
Proof.
  intros Hold Hinfo repoName entry.
  destruct (decide (repoName = visited)) as [-> | Hne].
  - destruct (logRepoCheck_entry now catalog visited info) as (e & He & ->).
    intros [= <-]. simpl. unfold upsert_entry in He.
    destruct (Catalog.repos catalog !! visited) as [old |] eqn:Hlook;
      rewrite lookup_insert_eq in He; injection He as <-; simpl.
    + specialize (Hold visited old Hlook). unfold num_or in *.
      destruct (Info.skillCount info) as [v |]; [| exact Hold].
      destruct (v =? 0); [exact Hold | exact Hinfo].
    + exact Hinfo.
  - rewrite logRepoCheck_other by exact Hne. apply Hold.
Qed.

Lemma recordVisits_skillCount_nonneg (catalog : Catalog.t)
    (visits : list visit) :
  (forall repoName entry,
     Catalog.repos catalog !! repoName = Some entry ->
     0 <= Entry.skillCount entry) ->
  Forall (fun v : visit => 0 <= num_or (Info.skillCount (snd v)) 0) visits ->
  forall repoName entry,
    Catalog.repos (recordVisits catalog visits) !! repoName = Some entry ->
    0 <= Entry.skillCount entry.
Proof.
  intros Hold Hvisits. revert catalog Hold.
  induction Hvisits as [| [[now visited] info] visits Hv _ IH];
    intros catalog Hold; simpl; [exact Hold |].
  apply IH. now apply logRepoCheck_skillCount_nonneg.
Qed.

Lemma getCatalogStats_counts_witness :
  Stats.totalRepos
    (getCatalogStats
       (recordVisits empty_catalog (sample_visits ++ sample_later)))
  = Stats.reposWithSkills
      (getCatalogStats
         (recordVisits empty_catalog (sample_visits ++ sample_later)))
    + Stats.emptyRepos
        (getCatalogStats
           (recordVisits empty_catalog (sample_visits ++ sample_later)))
  /\ getCatalogStats empty_catalog
     = {| Stats.totalRepos := 0; Stats.reposWithSkills := 0;
          Stats.emptyRepos := 0; Stats.totalSkills := 0;
          Stats.oldestCheck := None; Stats.newestCheck := None;
          Stats.lastUpdated := None |}.
Proof.
  split.
  - apply (getCatalogStats_counts
             (recordVisits empty_catalog (sample_visits ++ sample_later))).
    apply recordVisits_skillCount_nonneg.
    + intros repoName entry Hentry. discriminate Hentry.
    + apply Forall_forall. intros v Hv. apply list_elem_of_In in Hv.
      apply in_app_or in Hv as [Hv | Hv].
      * apply in_map_iff in Hv as (i & <- & _). discriminate.
      * simpl in Hv. destruct Hv as [<- | [<- | []]]; discriminate.
  - apply (getCatalogStats_counts empty_catalog). reflexivity.
Defined.

Example getCatalogStats_two_repositories :
  getCatalogStats (recordVisits empty_catalog (sample_visits ++ sample_later))
  = {| Stats.totalRepos := 2; Stats.reposWithSkills := 2;
       Stats.emptyRepos := 0; Stats.totalSkills := 4;
       Stats.oldestCheck := Some "22"; Stats.newestCheck := Some "23";
       Stats.lastUpdated := None |}.
Proof. vm_compute. reflexivity. Qed.

(** The stale repositories are exactly the entries of the catalog whose
    [lastChecked] is before the cut-off, as strings; each appears once; they
    come in the order of [lastChecked] when [localeCompare] never puts each
    of two strings after the other; and a time out of the range of dates
    makes the call throw. *)
Theorem getStaleRepos_exact (localeCompare : string -> string -> Z)
    (toISOString : Z -> option string) (now : Z) (catalog : Catalog.t)
    (maxAgeHours : Z) :
  match toISOString (now - maxAgeHours * 60 * 60 * 1000) with
  | None =>
      getStaleRepos localeCompare toISOString now catalog maxAgeHours = None
  | Some cutoff =>
      exists stale,
        getStaleRepos localeCompare toISOString now catalog maxAgeHours
        = Some stale
        /\ (forall repoName entry,
              In (repoName, entry) stale
              <-> Catalog.repos catalog !! repoName = Some entry
                  /\ String.ltb (Entry.lastChecked entry) cutoff = true)
        /\ NoDup (List.map fst stale)
        /\ ((forall x y, 0 < localeCompare x y -> localeCompare y x <= 0) ->
            Sorted (fun a b =>
                      localeCompare (Entry.lastChecked (snd a))
                        (Entry.lastChecked (snd b)) <= 0) stale)
  end.
Proof.
  unfold getStaleRepos.
  destruct (toISOString _) as [cutoff |]; [| reflexivity]. simpl.
  eexists. split; [reflexivity |].
  set (stale := List.filter _ _).
  set (cmp := fun a b : string * Entry.t => Num _).
  pose proof (js_sort_Permutation cmp stale) as Hperm.
  split; [| split].
  - intros repoName entry. rewrite <- (Permutation_in' eq_refl Hperm).
    unfold stale. rewrite filter_In, <- list_elem_of_In, elem_of_map_to_list.
    reflexivity.
  - rewrite <- (Permutation_map fst Hperm). unfold stale.
    apply NoDup_ListNoDup.
    assert (forall (f : string * Entry.t -> bool) l,
              List.NoDup (List.map fst l) ->
              List.NoDup (List.map fst (List.filter f l))) as Hfilter.
    { intros f l. induction l as [| x l IH]; simpl; intros Hnd; [exact Hnd |].
      inversion Hnd as [| ? ? Hnotin Hnd']; subst.
      destruct (f x); [| now apply IH]. simpl. constructor; [| now apply IH].
      intros Hin. apply Hnotin. apply in_map_iff in Hin as (y & <- & Hy).
      apply in_map. now apply filter_In in Hy as [Hy _]. }
    apply Hfilter, NoDup_ListNoDup, NoDup_fst_map_to_list.
  - intros Hlc.
    apply (js_sort_Sorted cmp (fun _ => True)).
    + intros x y _ _. unfold SortCompare, cmp. apply Hlc.
    + apply List.Forall_forall. trivial.
Qed.

Lemma getStaleRepos_exact_witness :
  exists stale,
    getStaleRepos compare_code_units print_time 3
      (recordVisits empty_catalog (sample_visits ++ sample_later)) 0
    = Some stale
    /\ Sorted (fun a b =>
                 compare_code_units (Entry.lastChecked (snd a))
                   (Entry.lastChecked (snd b)) <= 0) stale.
Proof.
  pose proof (getStaleRepos_exact compare_code_units print_time 3
                (recordVisits empty_catalog (sample_visits ++ sample_later)) 0)
    as H.
  unfold print_time in H at 1. cbv beta iota in H.
  destruct H as (stale & Hstale & _ & _ & Hsorted).
  exists stale. split; [exact Hstale |].
  apply Hsorted. exact compare_code_units_antisym.
Defined.

Example getStaleRepos_run :
  option_map (List.map fst)
    (getStaleRepos compare_code_units print_time 3
       (recordVisits empty_catalog (sample_visits ++ sample_later)) 0)
  = Some ["other/repo"; "owner/repo"].
Proof. vm_compute. reflexivity. Qed.

(** *** The rate-limited client *)

Ltac run_step :=
  unfold bind, httpsGet, emit, sleep, Date_now, ret, throw; simpl.

(** One turn of the loop of [rateLimitedGet]. *)
Lemma rateLimitedGet_loop_step
    (network : nat -> string -> string + RawResponse.t) (url : string)
    (retries : Z) (left : nat) (attempt : Z) (w : World.t) :
  rateLimitedGet_loop network (S left) attempt retries url w
  = match network (World.requests w) url with
    | inl msg => (Throw (NetworkError msg), after_request w)
    | inr r =>
        if (RawResponse.statusCode r =? 403)
           && (RawResponse.rateLimitRemaining r =? 0)
        then
          if attempt <? retries
          then rateLimitedGet_loop network left (attempt + 1) retries url
                 (after_wait w
                    (LogRateLimited (ceil_div (wait_ms w r) 1000))
                    (wait_ms w r))
          else (Throw (MkError ("GitHub API rate limit exceeded. Resets in "
                                ++ show (ceil_div (wait_ms w r) 1000)
                                ++ "s. Set GITHUB_TOKEN for higher limits.")),
                after_request w)
        else if RawResponse.statusCode r =? 422
        then (Return (Some {| Response.statusCode := 422;
                              Response.body := empty_items_body;
                              Response.rateLimitRemaining :=
                                RawResponse.rateLimitRemaining r;
                              Response.rateLimitReset := Undefined |}),
              after_request w)
        else if (500 <=? RawResponse.statusCode r) && (attempt <? retries)
        then rateLimitedGet_loop network left (attempt + 1) retries url
               (after_wait w
                  (LogServerError (RawResponse.statusCode r)
                     (2 * (attempt + 1)))
                  (2000 * (attempt + 1)))
        else (Return (Some (of_raw r)),
              if RawResponse.rateLimitRemaining r <? 10
              then after_log w
                     (LogRateLimitRemaining (RawResponse.rateLimitRemaining r))
              else after_request w)
    end.
Proof.
  simpl rateLimitedGet_loop. unfold bind at 1. unfold httpsGet.
  destruct (network (World.requests w) url) as [msg | r]; [reflexivity |].
  destruct (_ && _).
  { run_step. destruct (attempt <? retries); reflexivity. }
  destruct (RawResponse.statusCode r =? 422); [reflexivity |].
  destruct (_ && _); [reflexivity |].
  destruct (RawResponse.rateLimitRemaining r <? 10); reflexivity.
Qed.

Lemma rateLimitedGet_loop_bounds
    (network : nat -> string -> string + RawResponse.t) (url : string)
    (retries : Z) (left : nat) :
  forall (attempt : Z) (w : World.t),
    attempt + Z.of_nat left = retries + 1 -> (1 <= left)%nat ->
    fst (rateLimitedGet_loop network left attempt retries url w) <> Return None
    /\ (World.requests w
        < World.requests
            (snd (rateLimitedGet_loop network left attempt retries url w))
        <= World.requests w + left)%nat
    /\ World.now w
       <= World.now
            (snd (rateLimitedGet_loop network left attempt retries url w)).
Proof.
  induction left as [| left IH]; intros attempt w Hleft Hpos; [lia |].
  rewrite rateLimitedGet_loop_step.
  destruct (network (World.requests w) url) as [msg | r].
  { simpl. split; [discriminate | lia]. }
  destruct (_ && _).
  { destruct (attempt <? retries) eqn:Hretry.
    - apply Z.ltb_lt in Hretry.
      match goal with
      | |- context [rateLimitedGet_loop network left ?a retries url ?w'] =>
          destruct (IH a w') as (Hnone & Hreq & Hnow); [lia | lia |]
      end.
      simpl in Hreq, Hnow. split; [exact Hnone |]. split; lia.
    - simpl. split; [discriminate | lia]. }
  destruct (RawResponse.statusCode r =? 422).
  { simpl. split; [discriminate | lia]. }
  destruct ((500 <=? RawResponse.statusCode r) && (attempt <? retries))
    eqn:Hretry.
  { apply andb_true_iff in Hretry as [_ Hretry]. apply Z.ltb_lt in Hretry.
    match goal with
    | |- context [rateLimitedGet_loop network left ?a retries url ?w'] =>
        destruct (IH a w') as (Hnone & Hreq & Hnow); [lia | lia |]
    end.
    simpl in Hreq, Hnow. split; [exact Hnone |]. split; lia. }
  destruct (RawResponse.rateLimitRemaining r <? 10); simpl;
    (split; [discriminate | lia]).
Qed.

Lemma rateLimitedGet_bounds
    (network : nat -> string -> string + RawResponse.t) (url : string)
    (retries : nat) (w : World.t) :
  fst (rateLimitedGet network url retries w) <> Return None
  /\ (World.requests w
      < World.requests (snd (rateLimitedGet network url retries w))
      <= World.requests w + retries + 1)%nat
  /\ World.now w <= World.now (snd (rateLimitedGet network url retries w)).
Proof.
  unfold rateLimitedGet.
  destruct (rateLimitedGet_loop_bounds network url (Z.of_nat retries)
              (S retries) 0 w) as (Hnone & Hreq & Hnow); [lia | lia |].
  split; [exact Hnone |]. split; [lia | exact Hnow].
Qed.

(** [rateLimitedGet] always returns a response or throws, never [undefined];
    it sends at least one request and at most one more than [retries]; and
    the clock does not go back. *)
Theorem rateLimitedGet_bounded
    (network : nat -> string -> string + RawResponse.t) (url : string)
    (retries : nat) (w : World.t) :
  fst (rateLimitedGet network url retries w) <> Return None
  /\ (World.requests w
      < World.requests (snd (rateLimitedGet network url retries w))
      <= World.requests w + retries + 1)%nat
  /\ World.now w <= World.now (snd (rateLimitedGet network url retries w)).
Proof. apply rateLimitedGet_bounds. Qed.

Lemma rateLimitedGet_loop_out_of_quota
    (network : nat -> string -> string + RawResponse.t) (url : string)
    (retries : Z) (left : nat) :
  (forall n, exists r,
      network n url = inr r /\ RawResponse.statusCode r = 403
      /\ RawResponse.rateLimitRemaining r = 0) ->
  forall (attempt : Z) (w : World.t),
    attempt + Z.of_nat left = retries + 1 -> (1 <= left)%nat ->
    exists msg w',
      rateLimitedGet_loop network left attempt retries url w
      = (Throw (MkError msg), w')
      /\ World.requests w' = (World.requests w + left)%nat
      /\ World.now w + 1000 * (Z.of_nat left - 1) <= World.now w'
      /\ List.length (World.trace w')
         = (List.length (World.trace w) + 2 * (left - 1))%nat.
Proof.
  intros Hnet. induction left as [| left IH]; intros attempt w Hleft Hpos;
    [lia |].
  rewrite rateLimitedGet_loop_step.
  destruct (Hnet (World.requests w)) as (r & -> & -> & ->).
  change ((403 =? 403) && (0 =? 0)) with true. cbv iota.
  destruct (attempt <? retries) eqn:Hretry.
  - apply Z.ltb_lt in Hretry.
    match goal with
    | |- context [rateLimitedGet_loop network left ?a retries url ?w1] =>
        destruct (IH a w1) as (msg & w' & -> & Hreq & Hnow & Htrace);
          [lia | lia |]
    end.
    simpl in Hreq, Hnow, Htrace. unfold wait_ms in Hnow.
    exists msg, w'. split; [reflexivity |]. repeat split; lia.
  - apply Z.ltb_ge in Hretry. assert (left = 0%nat) as -> by lia.
    do 2 eexists. split; [reflexivity |]. simpl. repeat split; lia.
Qed.

Lemma timer_delay_in_range (ms : Z) :
  1 <= ms <= TIMEOUT_MAX -> timer_delay ms = ms /\ Z.max ms 0 = ms.
Proof.
  intros [Hlow Hhigh]. unfold timer_delay.
  apply Z.leb_le in Hlow as Hl. apply Z.leb_le in Hhigh as Hh.
  rewrite Hl, Hh. split; [reflexivity | lia].
Qed.

Lemma rateLimitedGet_loop_waits_in_range
    (network : nat -> string -> string + RawResponse.t) (url : string)
    (retries : Z) (start : Z) (left : nat) :
  (forall n, exists r,
      network n url = inr r /\ RawResponse.statusCode r = 403
      /\ RawResponse.rateLimitRemaining r = 0
      /\ RawResponse.rateLimitReset r * 1000 - start <= TIMEOUT_MAX) ->
  forall (attempt : Z) (w : World.t),
    attempt + Z.of_nat left = retries + 1 -> (1 <= left)%nat ->
    start <= World.now w ->
    exists msg w' events,
      rateLimitedGet_loop network left attempt retries url w
      = (Throw (MkError msg), w')
      /\ World.requests w' = (World.requests w + left)%nat
      /\ World.now w + 1000 * (Z.of_nat left - 1) <= World.now w'
      /\ World.trace w' = events ++ World.trace w
      /\ List.length events = (2 * (left - 1))%nat
      /\ slept_a_second events.
Proof.
  intros Hnet. induction left as [| left IH];
    intros attempt w Hleft Hpos Hstart; [lia |].
  rewrite rateLimitedGet_loop_step.
  destruct (Hnet (World.requests w)) as (r & -> & -> & -> & Hreset).
  change ((403 =? 403) && (0 =? 0)) with true. cbv iota.
  assert (1000 <= wait_ms w r <= TIMEOUT_MAX) as Hwait
    by (unfold wait_ms, TIMEOUT_MAX in *; lia).
  destruct (timer_delay_in_range (wait_ms w r)) as [Hdelay Hmax]; [lia |].
  destruct (attempt <? retries) eqn:Hretry.
  - apply Z.ltb_lt in Hretry.
    match goal with
    | |- context [rateLimitedGet_loop network left ?a retries url ?w1] =>
        destruct (IH a w1)
          as (msg & w' & events & -> & Hreq & Hnow & Htrace & Hlen & Hslept);
          [lia | lia | simpl; lia |]
    end.
    simpl in Hreq, Hnow, Htrace.
    exists msg, w',
      (events ++ [Sleep (wait_ms w r);
                  LogRateLimited (ceil_div (wait_ms w r) 1000)]).
    split; [reflexivity |]. split; [lia |]. split; [lia |].
    split; [rewrite Htrace, <- app_assoc; reflexivity |].
    split; [rewrite length_app; simpl; lia |].
    apply Forall_app. split; [exact Hslept |].
    repeat constructor; [lia | exact Hdelay].
  - apply Z.ltb_ge in Hretry. assert (left = 0%nat) as -> by lia.
    do 2 eexists. exists []. split; [reflexivity |]. simpl.
    repeat split; try lia. constructor.
Qed.

(** When every answer is a 403 with no quota left, and a reset time that is
    a number and no further ahead than a timer can wait ([TIMEOUT_MAX]
    milliseconds), [rateLimitedGet] throws after one request more than
    [retries], having logged and slept before each retry, at least a second
    each time and each time as long as it asked for. *)
Theorem rateLimitedGet_out_of_quota
    (network : nat -> string -> string + RawResponse.t) (url : string)
    (retries : nat) (w : World.t) :
  (forall n, exists r,
      network n url = inr r /\ RawResponse.statusCode r = 403
      /\ RawResponse.rateLimitRemaining r = 0
      /\ RawResponse.rateLimitReset r * 1000 - World.now w <= TIMEOUT_MAX) ->
  exists msg w' events,
    rateLimitedGet network url retries w = (Throw (MkError msg), w')
    /\ World.requests w' = (World.requests w + retries + 1)%nat
    /\ World.now w + 1000 * Z.of_nat retries <= World.now w'
    /\ World.trace w' = events ++ World.trace w
    /\ List.length events = (2 * retries)%nat
    /\ slept_a_second events.
Proof.
  intros Hnet. unfold rateLimitedGet.
  destruct (rateLimitedGet_loop_waits_in_range network url (Z.of_nat retries)
              (World.now w) (S retries) Hnet 0 w)
    as (msg & w' & events & -> & Hreq & Hnow & Htrace & Hlen & Hslept);
    [lia | lia | lia |].
  exists msg, w', events. split; [reflexivity |].
  repeat split; try exact Hslept; try exact Htrace; lia.
Qed.

Lemma rateLimitedGet_out_of_quota_witness :
  exists msg w',
    rateLimitedGet (always out_of_quota) "https://api.github.com/x" 2 world0
    = (Throw (MkError msg), w')
    /\ World.requests w' = 3%nat
    /\ 2000 <= World.now w'.
Proof.
  destruct (rateLimitedGet_out_of_quota (always out_of_quota)
              "https://api.github.com/x" 2 world0)
    as (msg & w' & events & Hrun & Hreq & Hnow & _).
  - intros n. exists out_of_quota. repeat split. vm_compute. discriminate.
  - exists msg, w'. split; [exact Hrun |]. split; [exact Hreq | exact Hnow].
Defined.

Example rateLimitedGet_out_of_quota_run :
  rateLimitedGet (always out_of_quota) "https://api.github.com/x" 2 world0
  = (Throw (MkError ("GitHub API rate limit exceeded. Resets in 1s. "
                     ++ "Set GITHUB_TOKEN for higher limits.")),
     {| World.requests := 3; World.now := 6000;
        World.trace := [ Sleep 1000; LogRateLimited 1;
                         Sleep 5000; LogRateLimited 5 ] |}).
Proof. vm_compute. reflexivity. Qed.

Lemma rateLimitedGet_loop_server_errors
    (network : nat -> string -> string + RawResponse.t) (url : string)
    (retries : Z) (r : RawResponse.t) (left : nat) :
  (forall n, network n url = inr r) ->
  500 <= RawResponse.statusCode r ->
  forall (attempt : Z) (w : World.t),
    attempt + Z.of_nat left = retries + 1 -> (1 <= left)%nat -> 0 <= attempt ->
    exists w',
      rateLimitedGet_loop network left attempt retries url w
      = (Return (Some (of_raw r)), w')
      /\ World.requests w' = (World.requests w + left)%nat
      /\ World.now w'
         = World.now w
           + 1000 * (retries * (retries + 1) - attempt * (attempt + 1)).
Proof.
  intros Hnet Hstatus.
  induction left as [| left IH]; intros attempt w Hleft Hpos Hattempt; [lia |].
  rewrite rateLimitedGet_loop_step, Hnet.
  replace (RawResponse.statusCode r =? 403) with false
    by (symmetry; apply Z.eqb_neq; lia).
  replace (RawResponse.statusCode r =? 422) with false
    by (symmetry; apply Z.eqb_neq; lia).
  replace (500 <=? RawResponse.statusCode r) with true
    by (symmetry; apply Z.leb_le; lia).
  simpl andb. cbv iota.
  destruct (attempt <? retries) eqn:Hretry.
  - apply Z.ltb_lt in Hretry.
    match goal with
    | |- context [rateLimitedGet_loop network left ?a retries url ?w1] =>
        destruct (IH a w1) as (w' & -> & Hreq & Hnow); [lia | lia | lia |]
    end.
    simpl in Hreq, Hnow. exists w'. split; [reflexivity |].
    split; [lia |]. rewrite Hnow. nia.
  - apply Z.ltb_ge in Hretry. assert (left = 0%nat) as -> by lia.
    assert (attempt = retries) as -> by lia.
    eexists. split; [reflexivity |].
    destruct (RawResponse.rateLimitRemaining r <? 10); simpl; split; lia.
Qed.

(** When every answer is the same server error (status 500 or more),
    [rateLimitedGet] does not throw: after one request more than [retries]
    it returns the error response, having slept 2 seconds more before each
    retry than before the last, [retries * (retries + 1)] seconds in all. *)
Theorem rateLimitedGet_server_errors
    (network : nat -> string -> string + RawResponse.t) (url : string)
    (retries : nat) (r : RawResponse.t) (w : World.t) :
  (forall n, network n url = inr r) ->
  500 <= RawResponse.statusCode r ->
  exists w',
    rateLimitedGet network url retries w = (Return (Some (of_raw r)), w')
    /\ World.requests w' = (World.requests w + retries + 1)%nat
    /\ World.now w'
       = World.now w + 1000 * (Z.of_nat retries * (Z.of_nat retries + 1)).
Proof.
  intros Hnet Hstatus. unfold rateLimitedGet.
  destruct (rateLimitedGet_loop_server_errors network url (Z.of_nat retries) r
              (S retries) Hnet Hstatus 0 w) as (w' & -> & Hreq & Hnow);
    [lia | lia | lia |].
  exists w'. split; [reflexivity |]. split; [lia |]. rewrite Hnow. lia.
Qed.

Lemma rateLimitedGet_server_errors_witness :
  exists w',
    rateLimitedGet (always server_error) "https://api.github.com/x" 2 world0
    = (Return (Some (of_raw server_error)), w')
    /\ World.now w' = 6000.
Proof.
  destruct (rateLimitedGet_server_errors (always server_error)
              "https://api.github.com/x" 2 server_error world0)
    as (w' & Hrun & _ & Hnow);
    [reflexivity | vm_compute; discriminate |].
  exists w'. split; [exact Hrun | exact Hnow].
Defined.

(** A response that is neither a server error nor a 403 without quota is
    answered at once: one request, no sleep, and the status handed on. *)
Lemma rateLimitedGet_at_once
    (network : nat -> string -> string + RawResponse.t) (url : string)
    (retries : nat) (w : World.t) (r : RawResponse.t) :
  network (World.requests w) url = inr r ->
  RawResponse.statusCode r < 500 ->
  (RawResponse.statusCode r =? 403) && (RawResponse.rateLimitRemaining r =? 0)
  = false ->
  exists resp w',
    rateLimitedGet network url retries w = (Return (Some resp), w')
    /\ Response.statusCode resp = RawResponse.statusCode r
    /\ (RawResponse.statusCode r <> 422 -> resp = of_raw r)
    /\ World.requests w' = S (World.requests w)
    /\ World.now w' = World.now w.
Proof.
  intros Hnet Hstatus Hquota. unfold rateLimitedGet.
  rewrite rateLimitedGet_loop_step, Hnet, Hquota.
  destruct (RawResponse.statusCode r =? 422) eqn:H422.
  - apply Z.eqb_eq in H422. do 2 eexists. split; [reflexivity |].
    simpl. repeat split; lia.
  - replace (500 <=? RawResponse.statusCode r) with false
      by (symmetry; apply Z.leb_gt; lia).
    simpl andb. cbv iota. do 2 eexists. split; [reflexivity |].
    destruct (RawResponse.rateLimitRemaining r <? 10); simpl; repeat split.
Qed.

(** The response [rateLimitedGet] returns is the last response of the
    network, or what it makes of it when its status is 422. *)
Lemma rateLimitedGet_loop_last
    (network : nat -> string -> string + RawResponse.t) (url : string)
    (retries : Z) (left : nat) :
  forall (attempt : Z) (w w' : World.t) (resp : Response.t),
    rateLimitedGet_loop network left attempt retries url w
    = (Return (Some resp), w') ->
    exists r,
      network (pred (World.requests w')) url = inr r
      /\ Response.statusCode resp = RawResponse.statusCode r
      /\ (RawResponse.statusCode r <> 422 -> resp = of_raw r)
      /\ (World.requests w < World.requests w')%nat.
Proof.
  induction left as [| left IH]; intros attempt w w' resp Hrun;
    [discriminate Hrun |].
  rewrite rateLimitedGet_loop_step in Hrun.
  destruct (network (World.requests w) url) as [msg | r] eqn:Hnet;
    [discriminate Hrun |].
  destruct (_ && _).
  { destruct (attempt <? retries); [| discriminate Hrun].
    apply IH in Hrun as (r' & Hr' & Hs & Hraw & Hreq). simpl in Hreq.
    exists r'. repeat split; [assumption | assumption | assumption | lia]. }
  destruct (RawResponse.statusCode r =? 422) eqn:H422.
  { apply Z.eqb_eq in H422. injection Hrun as <- <-. exists r. simpl.
    repeat split; [assumption | congruence | congruence | lia]. }
  destruct (_ && _).
  { apply IH in Hrun as (r' & Hr' & Hs & Hraw & Hreq). simpl in Hreq.
    exists r'. repeat split; [assumption | assumption | assumption | lia]. }
  injection Hrun as <- <-. exists r.
  destruct (RawResponse.rateLimitRemaining r <? 10); simpl;
    (repeat split; [assumption | lia]).
Qed.

Section SearchMore.

Variable network : nat -> string -> string + RawResponse.t.
Variable JSON_parse : string -> option json.
Variable encodeURIComponent : string -> string.
Variable ToString : json -> string.

(** [searchRepos] returns a result only when the last response it got has
    the status 200 and a body that parses; after any other last response,
    a 422 among them, it throws or, if the network fails, lets the failure
    through.  It sends between one and three requests. *)
Theorem searchRepos_returns_only_on_200 (query : string) (page perPage : Z)
    (w w' : World.t) (result : SearchResult.t) :
  searchRepos network JSON_parse encodeURIComponent ToString query page
    perPage w = (Return result, w') ->
  exists url r,
    network (pred (World.requests w')) url = inr r
    /\ RawResponse.statusCode r = 200
    /\ JSON_parse (RawResponse.body r) <> None
    /\ (World.requests w < World.requests w' <= World.requests w + 3)%nat.
Proof.
  unfold searchRepos. unfold bind at 1.
  set (url := (_ ++ _)%string).
  pose proof (rateLimitedGet_bounds network url 2 w) as (_ & Hreq & _).
  destruct (rateLimitedGet network url 2 w) as [[[resp |] | e] w1] eqn:Hget;
    try discriminate.
  unfold rateLimitedGet in Hget. simpl in Hreq.
  destruct (Response.statusCode resp =? 200) eqn:H200; simpl negb; cbv iota;
    [| discriminate].
  apply Z.eqb_eq in H200.
  destruct (JSON_parse (Response.body resp)) as [data |] eqn:Hparse;
    [| discriminate].
  intros Hrun.
  assert (w' = w1) as ->.
  { destruct (get_prop data "total_count"); [| discriminate Hrun].
    destruct (get_prop data "items"); [| discriminate Hrun].
    destruct (json_or _ _); try discriminate Hrun.
    destruct (mapM _ _); [| discriminate Hrun].
    now injection Hrun. }
  destruct (rateLimitedGet_loop_last network url _ _ _ _ _ _ Hget)
    as (r & Hr & Hs & Hraw & _).
  exists url, r. split; [exact Hr |]. split; [congruence |]. split; [| lia].
  rewrite Hraw in Hparse by lia. simpl in Hparse. congruence.
Qed.

Lemma to_repo_item_total (item : json) :
  item <> JNull -> is_Some (to_repo_item item).
Proof. destruct item; intros H; try congruence; simpl; eauto. Qed.

Lemma null_or_none (items : list json) :
  Forall (fun item => item <> JNull) items
  \/ Exists (fun item => item = JNull) items.
Proof.
  induction items as [| item items [IH | IH]].
  - left. constructor.
  - destruct item; try (left; constructor; [discriminate | exact IH]).
    right. now constructor.
  - right. now apply Exists_cons_tl.
Qed.

Lemma mapM_to_repo_item_null (items : list json) :
  Exists (fun item => item = JNull) items -> mapM to_repo_item items = None.
Proof.
  induction 1 as [item items -> | item items _ IH]; simpl.
  - reflexivity.
  - rewrite IH. destruct (to_repo_item item); reflexivity.
Qed.

(** On a 200 whose body is an object, [searchRepos] sends one request.  If
    no element of [items] is null it returns one item for each element, in
    the same order, and none when [items] is missing or null; every item has
    a default branch, 'main' if the response names none.  If an element of
    [items] is null it throws a TypeError. *)
Theorem searchRepos_maps_items (query : string) (page perPage : Z)
    (w : World.t) (r : RawResponse.t) (fields : list (string * json))
    (items : list json) :
  (forall url, network (World.requests w) url = inr r) ->
  RawResponse.statusCode r = 200 ->
  JSON_parse (RawResponse.body r) = Some (JObject fields) ->
  json_or (assoc "items" fields) (JArray []) = JArray items ->
  exists w',
    World.requests w' = S (World.requests w)
    /\ ((Forall (fun item => item <> JNull) items
         /\ exists result,
              searchRepos network JSON_parse encodeURIComponent ToString query
                page perPage w = (Return result, w')
              /\ SearchResult.totalCount result
                 = json_or (assoc "total_count" fields) (JNumber 0)
              /\ Forall2 (fun item mapped => to_repo_item item = Some mapped)
                   items (SearchResult.items result)
              /\ Forall (fun mapped =>
                           json_truthy (RepoItem.defaultBranch mapped) = true)
                   (SearchResult.items result))
        \/ (Exists (fun item => item = JNull) items
            /\ searchRepos network JSON_parse encodeURIComponent ToString
                 query page perPage w = (Throw TypeError, w'))).
Proof.
  intros Hnet Hstatus Hparse Hitems.
  unfold searchRepos, bind.
  set (url := (_ ++ _)%string).
  destruct (rateLimitedGet_at_once network url 2 w r (Hnet url))
    as (resp & w' & -> & Hs & Hraw & Hreq & _);
    [lia | rewrite Hstatus; reflexivity |].
  rewrite Hraw by lia. simpl. rewrite Hstatus. simpl. rewrite Hparse. simpl.
  rewrite Hitems. exists w'. split; [exact Hreq |].
  destruct (null_or_none items) as [Hnonnull | Hnull].
  - left. split; [exact Hnonnull |].
    assert (is_Some (mapM to_repo_item items)) as [mapped Hmapped].
    { apply mapM_is_Some. eapply List.Forall_impl; [| exact Hnonnull].
      intros item. apply to_repo_item_total. }
    rewrite Hmapped. eexists. split; [reflexivity |]. simpl.
    split; [reflexivity |].
    apply mapM_Some_1 in Hmapped. split; [exact Hmapped |].
    clear - Hmapped. induction Hmapped as [| item m items ms Hm _ IH];
      constructor; [| exact IH].
    unfold to_repo_item in Hm.
    destruct (get_prop item "full_name"); [| discriminate].
    destruct (get_prop item "html_url"); [| discriminate].
    destruct (get_prop item "stargazers_count"); [| discriminate].
    destruct (get_prop item "forks_count"); [| discriminate].
    destruct (get_prop item "pushed_at"); [| discriminate].
    destruct (get_prop item "description"); [| discriminate].
    destruct (get_prop item "default_branch") as [b |]; [| discriminate].
    simpl in Hm. injection Hm as <-. simpl.
    destruct b as [| | v]; try reflexivity. simpl.
    destruct (json_truthy v) eqn:Hv; [exact Hv | reflexivity].
  - right. split; [exact Hnull |].
    rewrite (mapM_to_repo_item_null items Hnull). reflexivity.
Qed.

End SearchMore.

Lemma searchRepos_returns_only_on_200_witness :
  exists url r,
    always ok_response 0 url = inr r /\ RawResponse.statusCode r = 200.
Proof.
  edestruct (searchRepos_returns_only_on_200 (always ok_response)
               (fun _ => Some found_two) (fun q => q) (fun _ => EmptyString)
               "agent skills" 1 10 world0)
    as (url & r & Hr & Hs & _); [vm_compute; reflexivity |].
  exists url, r. split; [exact Hr | exact Hs].
Defined.

Lemma searchRepos_maps_items_witness :
  exists result w',
    searchRepos (always ok_response) (fun _ => Some found_two) (fun q => q)
      (fun _ => EmptyString) "agent skills" 1 10 world0 = (Return result, w')
    /\ List.length (SearchResult.items result) = 2%nat.
Proof.
  edestruct (searchRepos_maps_items (always ok_response)
               (fun _ => Some found_two) (fun q => q) (fun _ => EmptyString)
               "agent skills" 1 10 world0 ok_response)
    as (w' & _ & [(_ & result & Hrun & _ & Hmapped & _) | (Hnull & _)]);
    [reflexivity | reflexivity | reflexivity | reflexivity | |].
  - exists result, w'. split; [exact Hrun |].
    apply Forall2_length in Hmapped. rewrite <- Hmapped. reflexivity.
  - exfalso. apply List.Exists_exists in Hnull as (item & Hin & ->).
    vm_compute in Hin.
    repeat (destruct Hin as [Hin | Hin]; [discriminate Hin |]). destruct Hin.
Defined.

Example searchRepos_null_item :
  fst (searchRepos (always ok_response) (fun _ => Some found_null) (fun q => q)
         (fun _ => EmptyString) "agent skills" 1 10 world0)
  = Throw TypeError.
Proof. vm_compute. reflexivity. Qed.

Example searchRepos_fills_defaults :
  option_map (List.map
                (fun m => (RepoItem.repo m, RepoItem.stars m,
                           RepoItem.defaultBranch m)))
    match
      fst (searchRepos (always ok_response) (fun _ => Some found_two)
             (fun q => q) (fun _ => EmptyString) "agent skills" 1 10 world0)
    with
    | Return result => Some (SearchResult.items result)
    | Throw _ => None
    end
  = Some [ (Def (JString "owner/repo"), JNumber 7, JString "main");
           (Def (JString "other/repo"), JNumber 0, JString "main") ].
Proof. vm_compute. reflexivity. Qed.

(** *** Repository metadata and the listing of skill files *)

Section ListingProperties.

Variable network : nat -> string -> string + RawResponse.t.
Variable JSON_parse : string -> option json.
Variable ToString : json -> string.

(** When the repository cannot be read, [fetchRepoInfo] does not fail: a
    status other than 200, server errors that outlast the retries among
    them, gives zero stars and forks, no push date, an empty description
    and the branch 'main', after at most three requests.  Only a 403
    without quota that outlasts the retries makes it throw. *)
Theorem fetchRepoInfo_degrades (owner repo : string) (w : World.t)
    (r : RawResponse.t) :
  (forall n url, network n url = inr r) ->
  RawResponse.statusCode r <> 200 ->
  if (RawResponse.statusCode r =? 403)
     && (RawResponse.rateLimitRemaining r =? 0)
  then exists msg w',
         fetchRepoInfo network JSON_parse owner repo w
         = (Throw (MkError msg), w')
  else exists w',
         fetchRepoInfo network JSON_parse owner repo w
         = (Return no_repo_info, w')
         /\ (World.requests w < World.requests w' <= World.requests w + 3)%nat.
Proof.
  intros Hnet Hstatus. unfold fetchRepoInfo, bind. cbv beta.
  match goal with
  | |- context [rateLimitedGet network ?u 2 w] => set (url := u)
  end.
  destruct (_ && _) eqn:Hquota.
  - apply andb_true_iff in Hquota as [H403 H0].
    apply Z.eqb_eq in H403, H0.
    destruct (rateLimitedGet_loop_out_of_quota network url (Z.of_nat 2) 3)
      with (attempt := 0) (w := w) as (msg & w' & Hrun & _);
      [intros n; exists r; auto | lia | lia |].
    unfold rateLimitedGet. rewrite Hrun. eauto.
  - destruct (Z_lt_le_dec (RawResponse.statusCode r) 500) as [Hlt | Hge].
    + destruct (rateLimitedGet_at_once network url 2 w r (Hnet _ url) Hlt
                  Hquota)
        as (resp & w' & -> & Hs & _ & Hreq & _).
      replace (Response.statusCode resp =? 200) with false
        by (symmetry; apply Z.eqb_neq; congruence).
      exists w'. split; [reflexivity | lia].
    + destruct (rateLimitedGet_loop_server_errors network url (Z.of_nat 2) r 3
                  (fun n => Hnet n url) Hge 0 w) as (w' & Hrun & Hreq & _);
        [lia | lia | lia |].
      unfold rateLimitedGet. rewrite Hrun. simpl.
      replace (RawResponse.statusCode r =? 200) with false
        by (symmetry; apply Z.eqb_neq; congruence).
      exists w'. split; [reflexivity | lia].
Qed.

Lemma skill_blobs_kept (nodes kept : list json) :
  skill_blobs nodes = Some kept ->
  Forall (fun node => is_skill_blob node = Some true) kept
  /\ (List.length kept <= List.length nodes)%nat.
Proof.
  revert kept. induction nodes as [| node nodes IH]; intros kept; simpl.
  - intros [= <-]. split; [apply Forall_nil_2 | simpl; lia].
  - destruct (is_skill_blob node) as [keep |] eqn:Hnode; [| discriminate].
    destruct (skill_blobs nodes) as [kept' |]; [| discriminate].
    destruct (IH kept' eq_refl) as [Hall Hlen].
    intros [= <-]. destruct keep; simpl; split; try lia; try assumption.
    now constructor.
Qed.

Lemma skill_files_end_in_SKILL_md (nodes : list json)
    (files : list SkillFile.t) :
  skill_blobs nodes ≫= mapM to_skill_file = Some files ->
  Forall (fun f => endsWith (SkillFile.path f) "SKILL.md" = true
                   /\ SkillFile.name f = "SKILL.md") files
  /\ (List.length files <= List.length nodes)%nat.
Proof.
  destruct (skill_blobs nodes) as [kept |] eqn:Hkept; [| discriminate].
  simpl. intros Hfiles. apply skill_blobs_kept in Hkept as [Hall Hlen].
  apply mapM_Some_1 in Hfiles. split.
  - clear Hlen. induction Hfiles as [| node f kept files Hf _ IH];
      [constructor |].
    apply Forall_cons in Hall as [Hnode Hall].
    constructor; [| now apply IH].
    unfold to_skill_file in Hf. unfold is_skill_blob in Hnode.
    destruct (get_prop node "type") as [type |]; [| discriminate].
    simpl in Hnode. destruct (is_string "blob" type); [| discriminate].
    destruct (get_prop node "path") as [[| | [| | | p | |]] |];
      try discriminate.
    simpl in Hnode. injection Hf as <-. simpl. split; congruence.
  - apply Forall2_length in Hfiles. lia.
Qed.

Lemma listSkillFiles_within_spec (calls : nat) (owner repo : string) :
  forall (branch : js json) (w : World.t),
    (2 <= calls)%nat
    \/ ((1 <= calls)%nat /\ is_string "master" branch = true) ->
    let run :=
      listSkillFiles_within network JSON_parse ToString calls owner repo
        branch w in
    fst run <> Return None
    /\ (World.requests (snd run)
        <= World.requests w
           + (if is_string "master" branch then 3 else 6))%nat
    /\ (forall files,
          fst run = Return (Some files) ->
          Forall (fun f => endsWith (SkillFile.path f) "SKILL.md" = true
                           /\ SkillFile.name f = "SKILL.md") files).
Proof.
  induction calls as [| calls IH]; intros branch w Hcalls; [lia |].
  cbv zeta. simpl listSkillFiles_within. unfold bind at 1 2 3.
  match goal with
  | |- context [rateLimitedGet network ?u 2 w] => set (url := u)
  end.
  pose proof (rateLimitedGet_bounds network url 2 w) as (Hnone & Hreq & _).
  destruct (rateLimitedGet network url 2 w) as [[[resp |] | e] w1];
    simpl in Hnone, Hreq; [| congruence | ].
  2:{ simpl. split; [discriminate |].
      split; [destruct (is_string "master" branch); lia | discriminate]. }
  destruct (Response.statusCode resp =? 200); simpl negb; cbv iota.
  - destruct (JSON_parse (Response.body resp)) as [data |];
      [| simpl; split; [discriminate |];
         split; [destruct (is_string "master" branch); lia | discriminate]].
    destruct (get_prop data "tree") as [tree |];
      [| simpl; split; [discriminate |];
         split; [destruct (is_string "master" branch); lia | discriminate]].
    destruct (json_or tree (JArray [])) as [| | | | nodes |];
      try (simpl; split; [discriminate |];
           split; [destruct (is_string "master" branch); lia | discriminate]).
    destruct (skill_blobs nodes ≫= mapM to_skill_file) as [files |]
      eqn:Hfiles;
      (simpl; split; [discriminate |];
       split; [destruct (is_string "master" branch); lia |]);
      [| discriminate].
    intros files' [= <-]. now apply (skill_files_end_in_SKILL_md nodes).
  - destruct (is_string "master" branch) eqn:Hmaster.
    + simpl. split; [discriminate |]. split; [lia |].
      intros files [= <-]. apply Forall_nil_2.
    + destruct (IH (Def (JString "master")) w1) as (Hn & Hr & Hf);
        [right; split; [lia | reflexivity] |].
      cbv zeta in Hn, Hr, Hf. simpl is_string in Hr. cbv iota in Hr.
      split; [exact Hn |].
      split; [eapply Nat.le_trans; [exact Hr | lia] | exact Hf].
Qed.

(** [listSkillFiles] always comes to an answer: it lists at most two
    branches, the one asked for and then 'master', with at most six requests
    (three when 'master' was asked for); and every file it returns is named
    SKILL.md and has a path that ends in SKILL.md. *)
Theorem listSkillFiles_answers (owner repo : string) (branch : js json)
    (w : World.t) :
  let run := listSkillFiles network JSON_parse ToString owner repo branch w in
  fst run <> Return None
  /\ (World.requests (snd run)
      <= World.requests w + (if is_string "master" branch then 3 else 6))%nat
  /\ (forall files,
        fst run = Return (Some files) ->
        Forall (fun f => endsWith (SkillFile.path f) "SKILL.md" = true
                         /\ SkillFile.name f = "SKILL.md") files).
Proof. apply listSkillFiles_within_spec. left. lia. Qed.

End ListingProperties.

Lemma fetchRepoInfo_degrades_witness :
  exists w',
    fetchRepoInfo (always server_error) (fun _ => None) "owner" "repo" world0
    = (Return no_repo_info, w').
Proof.
  pose proof (fetchRepoInfo_degrades (always server_error) (fun _ => None)
                "owner" "repo" world0 server_error) as H.
  simpl in H. destruct H as (w' & Hrun & _);
    [reflexivity | discriminate |].
  exists w'. exact Hrun.
Defined.

Lemma listSkillFiles_answers_witness :
  Forall (fun f => endsWith (SkillFile.path f) "SKILL.md" = true
                   /\ SkillFile.name f = "SKILL.md")
    [ {| SkillFile.path := "skills/foo/SKILL.md";
         SkillFile.name := "SKILL.md" |};
      {| SkillFile.path := "docs/NOT_A_SKILL.md";
         SkillFile.name := "SKILL.md" |};
      {| SkillFile.path := "SKILL.md"; SkillFile.name := "SKILL.md" |} ].
Proof.
  apply (listSkillFiles_answers first_missing (fun _ => Some some_tree)
           (fun _ => EmptyString) "owner" "repo" (Def (JString "main")) world0).
  vm_compute. reflexivity.
Defined.

Example listSkillFiles_falls_back_to_master :
  listSkillFiles first_missing (fun _ => Some some_tree) (fun _ => EmptyString)
    "owner" "repo" (Def (JString "main")) world0
  = (Return
       (Some
          [ {| SkillFile.path := "skills/foo/SKILL.md";
               SkillFile.name := "SKILL.md" |};
            {| SkillFile.path := "docs/NOT_A_SKILL.md";
               SkillFile.name := "SKILL.md" |};
            {| SkillFile.path := "SKILL.md"; SkillFile.name := "SKILL.md" |} ]),
     {| World.requests := 2; World.now := 0; World.trace := [] |})
  /\ fst (listSkillFiles (always not_found) (fun _ => None)
            (fun _ => EmptyString) "owner" "repo" (Def (JString "main")) world0)
     = Return (Some []).
Proof. vm_compute. split; reflexivity. Qed.

(** *** The report: truncated descriptions *)

Lemma str_length_append (s t : string) :
  str_length (s ++ t)%string = str_length s + str_length t.
Proof.
  unfold str_length. rewrite <- Nat2Z.inj_add. f_equal.
  induction s as [| c s IH]; simpl; [reflexivity | now rewrite IH].
Qed.

Lemma substring_prefix (n : nat) (s : string) :
  (n <= String.length s)%nat ->
  String.length (String.substring 0 n s) = n
  /\ String.prefix (String.substring 0 n s) s = true.
Proof.
  revert s. induction n as [| n IH]; intros s Hn.
  - destruct s; simpl; auto.
  - destruct s as [| c s]; simpl in Hn; [lia |].
    destruct (IH s) as [Hlen Hpre]; [lia |]. simpl. rewrite Hlen, Hpre.
    split; [reflexivity |].
    destruct (Ascii.ascii_dec c c); [reflexivity | congruence].
Qed.

(** With a limit of 3 or more, [truncate] gives a text of at most [limit]
    characters: the value itself when it is that short (nothing for a
    missing value), and otherwise its first [limit - 3] characters followed
    by three dots. *)
Theorem truncate_fits (value : option string) (limit : Z) :
  3 <= limit ->
  str_length (truncate value limit) <= limit
  /\ (forall v, value = Some v -> str_length v <= limit ->
                truncate value limit = v)
  /\ (forall v, value = Some v -> limit < str_length v ->
        exists kept,
          truncate value limit = (kept ++ "...")%string
          /\ str_length kept = limit - 3
          /\ String.prefix kept v = true).
Proof.
  intros Hlimit.
  assert (forall v, limit < str_length v ->
            truncate (Some v) limit
            = (String.substring 0 (Z.to_nat (limit - 3)) v ++ "...")%string
            /\ str_length (String.substring 0 (Z.to_nat (limit - 3)) v)
               = limit - 3
            /\ String.prefix (String.substring 0 (Z.to_nat (limit - 3)) v) v
               = true) as Hlong.
  { intros v Hv. unfold truncate, slice_to.
    replace (str_length v <=? limit) with false
      by (symmetry; apply Z.leb_gt; exact Hv).
    replace (nonempty v) with true
      by (symmetry; apply nonempty_length; lia).
    simpl orb. cbv iota.
    replace (limit - 3 <? 0) with false by (symmetry; apply Z.ltb_ge; lia).
    rewrite Z.min_l by lia.
    destruct (substring_prefix (Z.to_nat (limit - 3)) v) as [Hlen Hpre];
      [unfold str_length in Hv; lia |].
    split; [reflexivity |]. split; [| exact Hpre].
    unfold str_length. rewrite Hlen. lia. }
  split; [| split].
  - destruct value as [v |]; [| simpl; unfold str_length; simpl; lia].
    destruct (Z_le_gt_dec (str_length v) limit) as [Hshort | Hlong'].
    + unfold truncate.
      replace (str_length v <=? limit) with true
        by (symmetry; apply Z.leb_le; exact Hshort).
      now rewrite orb_true_r.
    + destruct (Hlong v) as (-> & Hlen & _); [lia |].
      rewrite str_length_append, Hlen. unfold str_length. simpl. lia.
  - intros v -> Hshort. unfold truncate.
    replace (str_length v <=? limit) with true
      by (symmetry; apply Z.leb_le; exact Hshort).
    now rewrite orb_true_r.
  - intros v -> Hv. destruct (Hlong v Hv) as (Heq & Hlen & Hpre). eauto.
Qed.

Lemma truncate_fits_witness :
  str_length (truncate (Some "A description that goes on and on") 12) <= 12.
Proof.
  apply (truncate_fits (Some "A description that goes on and on") 12). lia.
Defined.

Example truncate_runs :
  truncate (Some "A description that goes on and on") 12 = "A descrip..."
  /\ truncate (Some "short") 12 = "short"
  /\ truncate None 12 = EmptyString
  /\ truncate (Some "abcdef") 2 = "abcde...".
Proof. repeat split. Qed.

(** *** The inventory *)

Lemma score_then_id_trans (localeCompare : string -> string -> Z) :
  (forall x y z, localeCompare x y <= 0 -> localeCompare y z <= 0 ->
                 localeCompare x z <= 0) ->
  forall a b c,
    score_then_id localeCompare a b -> score_then_id localeCompare b c ->
    score_then_id localeCompare a c.
Proof.
  intros Htrans a b c (sa & sb & Ha & Hb & Hab & Htie)
    (sb' & sc & Hb' & Hc & Hbc & Htie').
  rewrite Hb in Hb'. injection Hb' as <-.
  exists sa, sc. repeat split; try assumption; [lia |].
  intros Hac. eapply Htrans; [apply Htie | apply Htie']; lia.
Qed.

Lemma Sorted_filter {A} (R : A -> A -> Prop) (f : A -> bool) (l : list A) :
  (forall a b c, R a b -> R b c -> R a c) ->
  Sorted R l -> Sorted R (List.filter f l).
Proof.
  intros Htrans Hsorted.
  apply StronglySorted_Sorted.
  apply Sorted_StronglySorted in Hsorted; [| exact Htrans].
  induction Hsorted as [| x l Hl IH Hx]; simpl; [constructor |].
  destruct (f x); [| exact IH]. constructor; [exact IH |].
  apply List.Forall_forall. intros y Hy. apply filter_In in Hy as [Hy _].
  rewrite List.Forall_forall in Hx. now apply Hx.
Qed.

(** The inventory [consolidate] returns holds rankings of discovered skills
    only, each with a score of at least the minimum when one is asked for;
    [totalDiscovered] is the number of its skills, which is at most the
    number discovered; without a minimum every discovered skill is in it; and
    against a catalog that is not empty it is sorted by score, then id, when
    the comparison of ids is an order. *)
Theorem consolidate_inventory (tokenize : string -> list string)
    (Date_parse : string -> option Z) (localeCompare : string -> string -> Z)
    (ROOT : string) (options : Options.t) (env : Env.t)
    (inventory : Inventory.t) :
  let discovered :=
    snd (Env.discoverSkills env
           [str_or (Options.query options) "filename:SKILL.md path:skills"]
           (num_or (Options.limit options) 20)
           (num_or (Options.durationMs options) 0)) in
  let minScore := num_or (Options.minScore options) 0 in
  fst (consolidate tokenize Date_parse localeCompare ROOT options env)
  = Some inventory ->
  Inventory.totalDiscovered inventory
  = Z.of_nat (List.length (Inventory.skills inventory))
  /\ (List.length (Inventory.skills inventory) <= List.length discovered)%nat
  /\ (forall r, In r (Inventory.skills inventory) ->
        (exists now skill,
            In skill discovered
            /\ r = rankSkill tokenize Date_parse now skill
                     (Env.existingSkills env))
        /\ (0 < minScore -> js_ge (Ranked.score r) (Num minScore) = true))
  /\ (minScore <= 0 ->
      Permutation (List.map Ranked.id (Inventory.skills inventory))
        (List.map Skill.id discovered))
  /\ ((forall x y, 0 < localeCompare x y -> localeCompare y x <= 0) ->
      (forall x y z, localeCompare x y <= 0 -> localeCompare y z <= 0 ->
                     localeCompare x z <= 0) ->
      Env.existingSkills env <> [] ->
      Sorted (score_then_id localeCompare) (Inventory.skills inventory)).
Proof.
  cbv zeta. unfold consolidate.
  destruct (Env.discoverSkills env _ _ _) as [reposScanned discovered].
  simpl snd.
  destruct (List.length discovered =? 0)%nat; [discriminate |].
  set (ranked := rankAll tokenize Date_parse localeCompare (Env.clock env)
                   discovered (Env.existingSkills env)).
  pose proof (rankAll_length tokenize Date_parse localeCompare (Env.clock env)
                discovered (Env.existingSkills env)) as Hlen.
  fold ranked in Hlen.
  destruct (0 <? num_or (Options.minScore options) 0) eqn:Hmin;
    simpl; intros [= <-]; simpl.
  - apply Z.ltb_lt in Hmin.
    split; [reflexivity |]. split; [| split; [| split]].
    + rewrite <- Hlen. apply List.filter_length_le.
    + intros r Hr. apply filter_In in Hr as [Hr Hge]. split; [| auto].
      apply rankAll_In in Hr as (now & skill & Hin & ->). eauto.
    + lia.
    + intros Hanti Htrans Hne. apply Sorted_filter.
      * now apply score_then_id_trans.
      * now apply rankAll_sorted.
  - apply Z.ltb_ge in Hmin.
    split; [reflexivity |]. split; [lia |]. split; [| split].
    + intros r Hr. split; [| lia].
      apply rankAll_In in Hr as (now & skill & Hin & ->). eauto.
    + intros _. unfold ranked, rankAll.
      rewrite <- (Permutation_map Ranked.id (js_sort_Permutation _ _)).
      now rewrite map_id_imap by reflexivity.
    + intros Hanti _ Hne. now apply rankAll_sorted.
Qed.

Lemma consolidate_inventory_witness :
  exists inventory,
    fst (consolidate words no_date all_tie "/repo" options_30
           (env_finding [bare_document; rich_document])) = Some inventory
    /\ Inventory.totalDiscovered inventory
       = Z.of_nat (List.length (Inventory.skills inventory))
    /\ Sorted (score_then_id all_tie) (Inventory.skills inventory).
Proof.
  eexists. split; [vm_compute; reflexivity |].
  edestruct (consolidate_inventory words no_date all_tie "/repo" options_30
               (env_finding [bare_document; rich_document]))
    as (Htotal & _ & _ & _ & Hsorted); [vm_compute; reflexivity |].
  split; [exact Htotal |].
  apply Hsorted; [unfold all_tie; lia | unfold all_tie; lia | discriminate].
Defined.

Example consolidate_keeps_score_30 :
  option_map
    (fun inventory =>
       List.map (fun r => (Ranked.id r, Ranked.score r))
         (Inventory.skills inventory))
    (fst (consolidate words no_date all_tie "/repo" options_30
            (env_finding [bare_document; rich_document])))
  = Some [("zeta", Num 56)].
Proof. vm_compute. reflexivity. Qed.

(** *** The ids of the skills of a repository *)

Lemma split_no_separator (sep : ascii) (s : string) :
  has_char sep s = false -> split sep s = [s].
Proof.
  induction s as [| c s IH]; simpl; [reflexivity |].
  intros H. apply orb_false_elim in H as [Hc Hs].
  rewrite Hc, (IH Hs). reflexivity.
Qed.

Lemma split_append (sep : ascii) (s t : string) :
  has_char sep s = false ->
  split sep (s ++ String sep t) = s :: split sep t.
Proof.
  induction s as [| c s IH]; simpl.
  - intros _. now rewrite Ascii.eqb_refl.
  - intros H. apply orb_false_elim in H as [Hc Hs].
    rewrite Hc, (IH Hs). reflexivity.
Qed.

Lemma split_join (sep : ascii) (parts : list string) :
  parts <> [] ->
  Forall (fun p => has_char sep p = false) parts ->
  split sep (join (String sep EmptyString) parts) = parts.
Proof.
  induction parts as [| p rest IH]; [congruence |].
  intros _ Hall. inversion Hall as [| ? ? Hp Hrest]; subst.
  destruct rest as [| q rest].
  - simpl. now apply split_no_separator.
  - change (join (String sep EmptyString) (p :: q :: rest))
      with (p ++ String sep (join (String sep EmptyString) (q :: rest)))%string.
    rewrite split_append by exact Hp.
    rewrite IH; [reflexivity | congruence | exact Hrest].
Qed.

Lemma has_char_prefix (c : ascii) (pattern s : string) :
  String.prefix pattern s = true -> has_char c pattern = true ->
  has_char c s = true.
Proof.
  revert s. induction pattern as [| x pattern IH]; intros s; simpl;
    [intros _ H; discriminate H |].
  destruct s as [| y s]; simpl; [discriminate |].
  destruct (ascii_dec x y) as [-> |]; [| discriminate].
  intros Hp H. apply orb_true_iff in H as [H | H].
  - now rewrite H.
  - rewrite (IH s Hp H). apply orb_true_r.
Qed.

Lemma remove_first_step (pattern s : string) :
  remove_first pattern s
  = if String.prefix pattern s then
      String.substring (String.length pattern)
        (String.length s - String.length pattern) s
    else
      match s with
      | EmptyString => EmptyString
      | String c rest => String c (remove_first pattern rest)
      end.
Proof. destruct s; reflexivity. Qed.

Lemma remove_first_absent (c : ascii) (pattern s : string) :
  has_char c pattern = true -> has_char c s = false ->
  remove_first pattern s = s.
Proof.
  intros Hpat. induction s as [| x s IH]; intros Hs;
    rewrite remove_first_step;
    destruct (String.prefix pattern _) eqn:Hp;
    try (now rewrite (has_char_prefix c _ _ Hp Hpat) in Hs);
    [reflexivity |].
  simpl in Hs. apply orb_false_elim in Hs as [_ Hs]. now rewrite (IH Hs).
Qed.

Lemma prefix_length (pattern s : string) :
  String.prefix pattern s = true ->
  (String.length pattern <= String.length s)%nat.
Proof.
  revert s. induction pattern as [| x pattern IH]; intros s; simpl; [lia |].
  destruct s as [| y s]; simpl; [discriminate |].
  destruct (ascii_dec x y); [| discriminate].
  intros H. apply IH in H. lia.
Qed.

Lemma substring_length (n m : nat) (s : string) :
  (n + m <= String.length s)%nat ->
  String.length (String.substring n m s) = m.
Proof.
  revert n m. induction s as [| c s IH]; intros n m; simpl.
  - intros H. assert (n = 0%nat) by lia. assert (m = 0%nat) by lia.
    subst. reflexivity.
  - intros H. destruct n as [| n].
    + destruct m as [| m]; [reflexivity |]. simpl. f_equal. apply IH. lia.
    + apply IH. lia.
Qed.

Lemma remove_first_length (pattern s : string) :
  occurs pattern s = true ->
  (String.length (remove_first pattern s) + String.length pattern
   = String.length s)%nat.
Proof.
  induction s as [| c s IH]; intros H; rewrite remove_first_step;
    destruct (String.prefix pattern _) eqn:Hp.
  - apply prefix_length in Hp. rewrite substring_length; lia.
  - cbn [occurs] in H. rewrite Hp in H. discriminate H.
  - apply prefix_length in Hp. rewrite substring_length; lia.
  - cbn [occurs] in H. rewrite Hp in H. cbn [orb] in H.
    cbn [String.length]. rewrite <- (IH H). lia.
Qed.

Lemma substring_all (s : string) :
  String.substring 0 (String.length s) s = s.
Proof. induction s as [| c s IH]; simpl; [reflexivity | now rewrite IH]. Qed.

Lemma substring_cut (n : nat) (s : string) :
  (n <= String.length s)%nat ->
  s = (String.substring 0 n s
       ++ String.substring n (String.length s - n) s)%string.
Proof.
  revert n. induction s as [| c s IH]; intros n Hn.
  - simpl in Hn. assert (n = 0%nat) as -> by lia. reflexivity.
  - destruct n as [| n].
    + rewrite Nat.sub_0_r, substring_all. reflexivity.
    + cbn [String.length] in *. cbn [String.substring]. rewrite Nat.sub_succ.
      change (String c s
              = String c (String.substring 0 n s
                          ++ String.substring n (String.length s - n) s)).
      f_equal. apply IH. lia.
Qed.

Lemma endsWith_append (s suffix : string) :
  endsWith s suffix = true -> exists before, s = (before ++ suffix)%string.
Proof.
  unfold endsWith. intros H. apply andb_prop in H as [Hle Heq].
  apply Nat.leb_le in Hle. apply String.eqb_eq in Heq.
  exists (String.substring 0 (String.length s - String.length suffix) s).
  set (k := (String.length s - String.length suffix)%nat) in *.
  rewrite (substring_cut k s) at 1 by lia. f_equal.
  replace (String.length s - k)%nat with (String.length suffix) by lia.
  exact Heq.
Qed.

Lemma occurs_append (pattern before s : string) :
  occurs pattern s = true -> occurs pattern (before ++ s) = true.
Proof.
  intros H. induction before as [| c before IH]; [exact H |].
  change (String.prefix pattern (String c (before ++ s))
          || occurs pattern (before ++ s) = true).
  rewrite IH. apply orb_true_r.
Qed.

(** The two ids of a skill.  [scanSingleRepo] and [discoverSkills] each
    derive an id from the path of a file that ends in SKILL.md.  For a file
    in a directory both take the name of the directory; for a file at the
    root of the repository they differ: the catalog entry lists the path
    itself, and the discovered skill has the path less its first '.md'. *)
Theorem skill_ids_differ_at_the_root (before : list string) (file : string) :
  Forall (fun part => has_char "/" part = false) (before ++ [file]) ->
  endsWith file "SKILL.md" = true ->
  let path := join "/" (before ++ [file]) in
  match last before with
  | Some dir => scanned_skill_id path = dir /\ discovered_skill_id path = dir
  | None =>
      scanned_skill_id path = path
      /\ (String.length (discovered_skill_id path) + 3
          = String.length path)%nat
  end.
Proof.
  intros Hparts Hends. cbv zeta.
  destruct before as [| dir before _] using rev_ind.
  - simpl in *. apply Forall_inv in Hparts.
    unfold scanned_skill_id, discovered_skill_id.
    rewrite (split_no_separator _ _ Hparts).
    cbn [List.length Nat.ltb Nat.leb nth]. split.
    + now apply (remove_first_absent "/").
    + apply (remove_first_length ".md").
      destruct (endsWith_append _ _ Hends) as [stem ->].
      now apply occurs_append.
  - rewrite last_snoc. rewrite <- app_assoc in *. cbn [app] in *.
    unfold scanned_skill_id, discovered_skill_id.
    rewrite (split_join "/" (before ++ [dir; file]))
      by (try exact Hparts; now destruct before).
    rewrite length_app. cbn [List.length].
    replace (1 <? List.length before + 2)%nat with true
      by (symmetry; apply Nat.ltb_lt; lia).
    replace (List.length before + 2 - 2)%nat with (List.length before + 0)%nat
      by lia.
    rewrite app_nth2_plus. split; reflexivity.
Qed.

Lemma skill_ids_differ_at_the_root_witness :
  (scanned_skill_id "skills/foo/SKILL.md" = "foo"
   /\ discovered_skill_id "skills/foo/SKILL.md" = "foo")
  /\ (scanned_skill_id "SKILL.md" = "SKILL.md"
      /\ (String.length (discovered_skill_id "SKILL.md") + 3
          = String.length "SKILL.md")%nat).
Proof.
  split.
  - apply (skill_ids_differ_at_the_root ["skills"; "foo"] "SKILL.md");
      [repeat constructor | reflexivity].
  - apply (skill_ids_differ_at_the_root [] "SKILL.md");
      [repeat constructor | reflexivity].
Defined.

Example skill_ids_of_a_file_at_the_root :
  scanned_skill_id "SKILL.md" = "SKILL.md"
  /\ discovered_skill_id "SKILL.md" = "SKILL"
  /\ scanned_skill_id "docs/NOT_A_SKILL.md" = "docs".
Proof. repeat split. Qed.

(** *** The crawl *)

Lemma goes_on_refl (w : World.t) : goes_on w w.
Proof. split; lia. Qed.

Lemma goes_on_trans (w1 w2 w3 : World.t) :
  goes_on w1 w2 -> goes_on w2 w3 -> goes_on w1 w3.
Proof. unfold goes_on. lia. Qed.

Lemma bind_goes_on {A B} (m : M A) (k : A -> M B) :
  (forall w, goes_on w (snd (m w))) ->
  (forall a w, goes_on w (snd (k a w))) ->
  forall w, goes_on w (snd (bind m k w)).
Proof.
  intros Hm Hk w. unfold bind. specialize (Hm w).
  destruct (m w) as [[a | e] w1]; simpl in *; [| exact Hm].
  eapply goes_on_trans; [exact Hm | apply Hk].
Qed.

Lemma bind_sends {A B} (m : M A) (k : A -> M B) :
  (forall w, (World.requests w < World.requests (snd (m w)))%nat) ->
  (forall a w, goes_on w (snd (k a w))) ->
  forall w, (World.requests w < World.requests (snd (bind m k w)))%nat.
Proof.
  intros Hm Hk w. unfold bind. specialize (Hm w).
  destruct (m w) as [[a | e] w1]; simpl in *; [| exact Hm].
  destruct (Hk a w1) as [_ Hreq]. lia.
Qed.

Lemma sleep_goes_on (ms : Z) (w : World.t) : goes_on w (snd (sleep ms w)).
Proof. unfold sleep, goes_on. simpl. lia. Qed.

Lemma keeps_kret {A} (I : Crawl.t -> Prop) (a : A) : keeps I (kret a).
Proof. intros s H. exact H. Qed.



Lemma keeps_read {A} (I : Crawl.t -> Prop) (f : Crawl.t -> A) :
  keeps I (read f).
Proof. intros s H. exact H. Qed.

Lemma keeps_kbind {A B} (I : Crawl.t -> Prop) (m : K A) (k : A -> K B) :
  keeps I m -> (forall a, keeps I (k a)) -> keeps I (kbind m k).
Proof.
  intros Hm Hk s H. unfold kbind. specialize (Hm s H).
  destruct (m s) as [[a | e] s' | why]; [apply Hk | |]; assumption.
Qed.


Lemma keeps_and {A} (I J : Crawl.t -> Prop) (m : K A) :
  keeps I m -> keeps J m -> keeps (fun s => I s /\ J s) m.
Proof.
  intros HI HJ s [Hi Hj]. specialize (HI s Hi). specialize (HJ s Hj).
  destruct (m s) as [r s' | why]; [split |]; assumption.
Qed.

(** What does not mind requests and the passing of time is kept by a
    request, a pause and a look at the clock. *)
Lemma keeps_lift {A} (I : Crawl.t -> Prop) (m : M A) :
  steady I -> (forall w, goes_on w (snd (m w))) -> keeps I (lift m).
Proof.
  intros Hsteady Hgoes s H. unfold lift. specialize (Hgoes (Crawl.world s)).
  destruct (m (Crawl.world s)) as [r w']. now apply Hsteady.
Qed.

Lemma Date_now_goes_on (w : World.t) : goes_on w (snd (Date_now w)).
Proof. apply goes_on_refl. Qed.

Lemma collected_steady (maxResults : Z) : steady (collected maxResults).
Proof. intros s w _ H. exact H. Qed.

Lemma recorded_steady (loaded : Catalog.t) : steady (recorded loaded).
Proof. intros s w _ H. exact H. Qed.

Lemma steady_after (w0 : World.t) : steady (after w0).
Proof. intros s w Hgo H. exact (goes_on_trans _ _ _ H Hgo). Qed.




Lemma same_value_text (a b : string) :
  same_value (Def (JString a)) (Def (JString b)) = true <-> a = b.
Proof. simpl. apply String.eqb_eq. Qed.


Lemma collected_add (maxResults : Z) (v : js json) :
  keeps (collected maxResults) (add v).
Proof. intros s H. exact H. Qed.


Lemma log_after (w0 : World.t) (line : Line) : keeps (after w0) (log line).
Proof. intros s H. exact H. Qed.

Lemma add_after (w0 : World.t) (v : js json) : keeps (after w0) (add v).
Proof. intros s H. exact H. Qed.

Lemma push_after (w0 : World.t) (item : Item.t) : keeps (after w0) (push item).
Proof. intros s H. exact H. Qed.

Lemma ends_kret {A} (a : A) : ends (kret a).
Proof. intros s. now eexists _, _. Qed.

Lemma ends_kthrow {A} (e : Error) : ends (@kthrow A e).
Proof. intros s. now eexists _, _. Qed.

Lemma ends_read {A} (f : Crawl.t -> A) : ends (read f).
Proof. intros s. now eexists _, _. Qed.

Lemma ends_log (line : Line) : ends (log line).
Proof. intros s. now eexists _, _. Qed.

Lemma ends_add (v : js json) : ends (add v).
Proof. intros s. now eexists _, _. Qed.

Lemma ends_push (item : Item.t) : ends (push item).
Proof. intros s. now eexists _, _. Qed.

Lemma ends_lift {A} (m : M A) : ends (lift m).
Proof.
  intros s. unfold lift. destruct (m (Crawl.world s)) as [r w].
  now eexists _, _.
Qed.

Lemma ends_kbind {A B} (m : K A) (k : A -> K B) :
  ends m -> (forall a, ends (k a)) -> ends (kbind m k).
Proof.
  intros Hm Hk s. unfold kbind. destruct (Hm s) as (r & s' & ->).
  destruct r as [a | e]; [apply Hk | now eexists _, _].
Qed.

Lemma ends_try_catch {A} (m : K A) (handler : Error -> K A) :
  ends m -> (forall e, ends (handler e)) -> ends (try_catch m handler).
Proof.
  intros Hm Hh s. unfold try_catch. destruct (Hm s) as (r & s' & ->).
  destruct r as [a | e]; [now eexists _, _ | apply Hh].
Qed.

Lemma never_throws_kret {A} (a : A) : never_throws (kret a).
Proof. intros s. exact Logic.I. Qed.

Lemma never_throws_stop {A} (why : Stop) : never_throws (@stop A why).
Proof. intros s. exact Logic.I. Qed.

Lemma never_throws_read {A} (f : Crawl.t -> A) : never_throws (read f).
Proof. intros s. exact Logic.I. Qed.

Lemma never_throws_log (line : Line) : never_throws (log line).
Proof. intros s. exact Logic.I. Qed.

Lemma never_throws_sleep (ms : Z) : never_throws (lift (sleep ms)).
Proof. intros s. exact Logic.I. Qed.

Lemma never_throws_Date_now : never_throws (lift Date_now).
Proof. intros s. exact Logic.I. Qed.

Lemma never_throws_kbind {A B} (m : K A) (k : A -> K B) :
  never_throws m -> (forall a, never_throws (k a)) -> never_throws (kbind m k).
Proof.
  intros Hm Hk s. unfold kbind. specialize (Hm s).
  destruct (m s) as [[a | e] s' | why]; [apply Hk | exact Hm | exact Logic.I].
Qed.

Lemma never_throws_try_catch {A} (m : K A) (handler : Error -> K A) :
  (forall e, never_throws (handler e)) -> never_throws (try_catch m handler).
Proof.
  intros Hh s. unfold try_catch.
  destruct (m s) as [[a | e] s' | why];
    [exact Logic.I | apply Hh | exact Logic.I].
Qed.

Ltac crawl_fields :=
  cbn [with_world Crawl.world Crawl.catalog Crawl.written Crawl.lines
         Crawl.allItems Crawl.checkedRepos World.now World.requests
         World.trace fst snd].

Section CrawlSteps.

Variable network : nat -> string -> string + RawResponse.t.
Variable JSON_parse : string -> option json.
Variable encodeURIComponent : string -> string.
Variable ToString : json -> string.
Variable hasToken : bool.
Variable toISOString : Z -> string.

Lemma rateLimitedGet_goes_on (url : string) (retries : nat) (w : World.t) :
  goes_on w (snd (rateLimitedGet network url retries w)).
Proof.
  destruct (rateLimitedGet_bounds network url retries w) as (_ & Hreq & Hnow).
  split; [exact Hnow | lia].
Qed.

Lemma fetchRepoInfo_goes_on (owner repo : string) (w : World.t) :
  goes_on w (snd (fetchRepoInfo network JSON_parse owner repo w)).
Proof.
  unfold fetchRepoInfo. apply bind_goes_on.
  - intros w0. apply rateLimitedGet_goes_on.
  - intros a w0. repeat case_match; apply goes_on_refl.
Qed.

Lemma fetchRepoInfo_sends (owner repo : string) (w : World.t) :
  (World.requests w
   < World.requests (snd (fetchRepoInfo network JSON_parse owner repo w))
   <= World.requests w + 3)%nat.
Proof.
  unfold fetchRepoInfo, bind. cbv beta.
  match goal with
  | |- context [rateLimitedGet network ?u 2 w] =>
      pose proof (rateLimitedGet_bounds network u 2 w) as (_ & Hreq & _);
      destruct (rateLimitedGet network u 2 w) as [[a | e] w1]
  end; simpl in *; [| lia].
  repeat case_match; simpl; lia.
Qed.

Lemma searchRepos_goes_on (query : string) (page perPage : Z) (w : World.t) :
  goes_on w
    (snd (searchRepos network JSON_parse encodeURIComponent ToString query
            page perPage w)).
Proof.
  unfold searchRepos. apply bind_goes_on.
  - intros w0. apply rateLimitedGet_goes_on.
  - intros a w0. repeat case_match; apply goes_on_refl.
Qed.

Lemma searchCode_goes_on (query : string) (page perPage : Z) (w : World.t) :
  goes_on w
    (snd (searchCode network JSON_parse encodeURIComponent ToString query
            page perPage w)).
Proof.
  unfold searchCode. apply bind_goes_on.
  - intros w0. apply rateLimitedGet_goes_on.
  - intros a w0. repeat case_match; apply goes_on_refl.
Qed.

Lemma listSkillFiles_within_goes_on (calls : nat) (owner repo : string) :
  forall (branch : js json) (w : World.t),
    goes_on w
      (snd (listSkillFiles_within network JSON_parse ToString calls owner
              repo branch w)).
Proof.
  induction calls as [| calls IH]; intros branch w; [apply goes_on_refl |].
  simpl listSkillFiles_within. apply bind_goes_on.
  - intros w0. apply rateLimitedGet_goes_on.
  - intros a w0. repeat case_match; try apply goes_on_refl. apply IH.
Qed.

Ltac goes :=
  first [ apply sleep_goes_on | apply Date_now_goes_on
        | apply fetchRepoInfo_goes_on | apply searchRepos_goes_on
        | apply searchCode_goes_on
        | apply (listSkillFiles_within_goes_on 2) ].

Ltac keeps_lifted :=
  apply keeps_lift;
  [ first [ assumption | apply recorded_steady | apply collected_steady
          | apply steady_after ]
  | intros; goes ].

Lemma listSkillFiles_within_sends (calls : nat) (owner repo : string)
    (branch : js json) (w : World.t) :
  (1 <= calls)%nat ->
  (World.requests w
   < World.requests
       (snd (listSkillFiles_within network JSON_parse ToString calls owner
               repo branch w)))%nat.
Proof.
  destruct calls as [| calls]; [lia |]. intros _.
  simpl listSkillFiles_within. apply bind_sends.
  - intros w0.
    match goal with
    | |- context [rateLimitedGet network ?u 2 w0] =>
        destruct (rateLimitedGet_bounds network u 2 w0) as (_ & Hreq & _)
    end.
    lia.
  - intros a w0. repeat case_match; try apply goes_on_refl.
    apply listSkillFiles_within_goes_on.
Qed.

Lemma getDelay_positive (isSearch : bool) :
  800 <= getDelay hasToken isSearch
  /\ (isSearch = true -> 2200 <= getDelay hasToken isSearch).
Proof. unfold getDelay. destruct hasToken, isSearch; lia. Qed.

Lemma scanSingleRepo_run (name : string) (s : Crawl.t) :
  match
    scanSingleRepo network JSON_parse ToString hasToken toISOString
      (Def (JString name)) s
  with
  | Ran r s' =>
      scanned (Crawl.lines s') = name :: scanned (Crawl.lines s)
      /\ Crawl.allItems s' = Crawl.allItems s
      /\ Crawl.checkedRepos s' = Crawl.checkedRepos s
      /\ goes_on (Crawl.world s) (Crawl.world s')
      /\ match r with
         | Return (repoInfo, skillFiles) =>
             Forall is_skill_file skillFiles
             /\ (exists info,
                   checked_info repoInfo (Z.of_nat (List.length skillFiles))
                     (Some (map (fun f => scanned_skill_id (SkillFile.path f))
                              skillFiles))
                   = Some info
                   /\ Crawl.catalog s'
                      = stamped (toISOString (clock s'))
                          (logRepoCheck (toISOString (clock s'))
                             (Crawl.catalog s) name info))
             /\ Crawl.written s' = Crawl.catalog s' :: Crawl.written s
             /\ clock s + 2 * getDelay hasToken false <= clock s'
             /\ (sent s + 2 <= sent s' <= sent s + 9)%nat
         | Throw _ =>
             Crawl.catalog s' = Crawl.catalog s
             /\ Crawl.written s' = Crawl.written s
         end
  | Stopped why => why = NotTyped
  end.
Proof.
  destruct s as [w catalog written lines allItems checkedRepos].
  unfold scanSingleRepo. cbv zeta.
  set (owner := nth 0 (split "/" name) "undefined").
  set (repo := nth 1 (split "/" name) "undefined").
  unfold kbind at 1. unfold log at 1. cbv beta iota.
  unfold kbind at 1. unfold lift at 1. cbn [Crawl.world].
  pose proof (fetchRepoInfo_goes_on owner repo w) as Hgo1.
  pose proof (fetchRepoInfo_sends owner repo w) as Hsent1.
  destruct (fetchRepoInfo network JSON_parse owner repo w)
    as [[repoInfo | e] w1]; simpl in Hgo1, Hsent1.
  2: { simpl. repeat split; try reflexivity; apply Hgo1. }
  unfold kbind at 1. unfold lift at 1, sleep at 1. crawl_fields.
  unfold kbind at 1. unfold log at 1. crawl_fields.
  unfold kbind at 1. unfold lift at 1. crawl_fields.
  match goal with
  | |- context [listSkillFiles network JSON_parse ToString owner repo ?b ?w2] =>
      pose proof (listSkillFiles_within_goes_on 2 owner repo b w2) as Hgo2;
      pose proof (listSkillFiles_within_sends 2 owner repo b w2
                    ltac:(lia)) as Hsent2;
      destruct (listSkillFiles_within_spec network JSON_parse ToString 2
                  owner repo b w2) as (Hnone & Hmost & Hfiles); [left; lia |];
      fold (listSkillFiles network JSON_parse ToString owner repo b w2)
        in Hgo2, Hsent2, Hnone, Hmost, Hfiles;
      destruct (listSkillFiles network JSON_parse ToString owner repo b w2)
        as [[[skillFiles |] | e] w3]
  end; simpl in Hgo2, Hsent2, Hnone, Hmost, Hfiles.
  3: { simpl. unfold goes_on in *. simpl in *.
       repeat split; try reflexivity; lia. }
  2: congruence.
  specialize (Hfiles skillFiles eq_refl).
  assert (Hmost' : (World.requests w3 <= World.requests w1 + 6)%nat)
    by (destruct (match RepoInfo.defaultBranch repoInfo with
                  | JString _ => _ | _ => _ end); lia).
  clear Hmost Hnone.
  pose proof (getDelay_positive false) as [Hdelay _].
  unfold kbind at 1. unfold lift at 1, sleep at 1. crawl_fields.
  destruct (checked_info repoInfo _ _) as [info |] eqn:Hinfo; [| reflexivity].
  unfold kbind, log_check, saveRepoCatalog, log, kret. crawl_fields.
  unfold clock, sent. crawl_fields. unfold goes_on in *. simpl in *.
  rewrite !Z.max_l in * by lia.
  repeat split; try reflexivity; try lia.
  - destruct (0 <? List.length skillFiles)%nat; reflexivity.
  - exact Hfiles.
  - exists info. split; [exact Hinfo | reflexivity].
Qed.


Lemma scanSingleRepo_no_text (v : js json) (s : Crawl.t) :
  (forall name, v <> Def (JString name)) ->
  scanSingleRepo network JSON_parse ToString hasToken toISOString v s
  = Ran (Throw TypeError) s.
Proof.
  intros Hv. destruct v as [| | [| | | name | |]]; try reflexivity.
  now destruct (Hv name).
Qed.

Lemma upsert_entry_fields (now : string) (repos : gmap string Entry.t)
    (repoName : string) (info : Info.t) (status : string) (count : Z)
    (ids : list string) :
  Info.status info = Some status -> nonempty status = true ->
  Info.skillCount info = Some count ->
  Info.skillIds info = Some ids ->
  exists entry,
    upsert_entry now repos repoName info !! repoName = Some entry
    /\ Entry.lastChecked entry = now
    /\ Entry.status entry = status
    /\ (count <> 0 -> Entry.skillCount entry = count)
    /\ (ids <> [] -> Entry.skillIds entry = ids).
Proof.
  intros Hstatus Hnonempty Hcount Hids. unfold upsert_entry.
  destruct (repos !! repoName) as [old |]; rewrite lookup_insert_eq;
    eexists; (split; [reflexivity |]); cbn [Entry.lastChecked Entry.status
      Entry.skillCount Entry.skillIds];
    rewrite Hstatus, Hcount, Hids; unfold str_or, num_or; rewrite Hnonempty;
    (split; [reflexivity |]); (split; [reflexivity |]); split.
  - intros Hne. apply Z.eqb_neq in Hne. now rewrite Hne.
  - intros Hne. destruct ids; [congruence | reflexivity].
  - intros Hne. apply Z.eqb_neq in Hne. now rewrite Hne.
  - reflexivity.
Qed.

(** [scanSingleRepo] needs a text for a name: on anything else it throws a
    TypeError and nothing has happened.  When it returns for a repository,
    every file it returns is named SKILL.md and has a path ending in
    SKILL.md, and the visit is on the books: the entry of the repository has
    the time as [lastChecked], 'has-skills' or 'no-skills' as [status]
    according to whether files were found, and the visit with the number of
    files as the last of its checks; if files were found, the entry has
    their number and their ids; no other entry has changed; and the catalog
    was written out as it now is.  It took two pauses and between two and
    nine requests, and did not touch the items collected nor the set of
    repositories met. *)
Theorem scanSingleRepo_records (repoName : js json) (s : Crawl.t) :
  match repoName with
  | Def (JString name) =>
      forall repoInfo skillFiles s',
        scanSingleRepo network JSON_parse ToString hasToken toISOString
          repoName s
        = Ran (Return (repoInfo, skillFiles)) s' ->
        let now := toISOString (clock s') in
        let found := Z.of_nat (List.length skillFiles) in
        let status := if 0 <? found then "has-skills" else "no-skills" in
        Forall is_skill_file skillFiles
        /\ (exists entry,
              Catalog.repos (Crawl.catalog s') !! name = Some entry
              /\ Entry.lastChecked entry = now
              /\ Entry.status entry = status
              /\ last (Entry.checks entry)
                 = Some {| Check.timestamp := now;
                           Check.skillCount := found;
                           Check.status := status |}
              /\ (skillFiles <> [] ->
                  Entry.skillCount entry = found
                  /\ Entry.skillIds entry
                     = map (fun f => scanned_skill_id (SkillFile.path f))
                         skillFiles))
        /\ (forall other,
              other <> name ->
              Catalog.repos (Crawl.catalog s') !! other
              = Catalog.repos (Crawl.catalog s) !! other)
        /\ Catalog.lastUpdated (Crawl.catalog s') = Some now
        /\ Crawl.written s' = Crawl.catalog s' :: Crawl.written s
        /\ clock s + 2 * getDelay hasToken false <= clock s'
        /\ (sent s + 2 <= sent s' <= sent s + 9)%nat
        /\ Crawl.allItems s' = Crawl.allItems s
        /\ Crawl.checkedRepos s' = Crawl.checkedRepos s
  | _ =>
      scanSingleRepo network JSON_parse ToString hasToken toISOString
        repoName s
      = Ran (Throw TypeError) s
  end.
Proof.
  destruct repoName as [| | [| | | name | |]]; try reflexivity.
  intros repoInfo skillFiles s' Hrun. cbv zeta.
  pose proof (scanSingleRepo_run name s) as H. rewrite Hrun in H.
  destruct H as (_ & Hitems & Hchecked & _ & Hfiles & (info & Hinfo & Hcatalog)
                 & Hwritten & Hclock & Hsent).
  split; [exact Hfiles |].
  set (now := toISOString (clock s')) in *.
  set (found := Z.of_nat (List.length skillFiles)) in *.
  set (ids := map (fun f => scanned_skill_id (SkillFile.path f)) skillFiles)
    in *.
  set (status := if 0 <? found then "has-skills" else "no-skills").
  assert (Hstatus : Info.status info = Some status
                    /\ Info.skillCount info = Some found
                    /\ Info.skillIds info = Some ids).
  { unfold checked_info in Hinfo.
    destruct (RepoInfo.stars repoInfo); try discriminate.
    destruct (RepoInfo.forks repoInfo); try discriminate.
    destruct (RepoInfo.description repoInfo); try discriminate.
    injection Hinfo as <-. repeat split. }
  destruct Hstatus as (Hstatus & Hcount & Hids).
  assert (Hnonempty : nonempty status = true)
    by (unfold status; destruct (0 <? found); reflexivity).
  split; [| split; [| split; [| repeat split; try assumption; lia]]].
  - destruct (upsert_entry_fields now (Catalog.repos (Crawl.catalog s)) name
                info status found ids Hstatus Hnonempty Hcount Hids)
      as (upserted & Hup & Hlast & Hst & Hn & Hi).
    destruct (logRepoCheck_entry now (Crawl.catalog s) name info)
      as (upserted' & Hup' & Hentry).
    rewrite Hup in Hup'. injection Hup' as <-.
    exists (push_check now info upserted). rewrite Hcatalog.
    split; [exact Hentry |]. split; [exact Hlast |]. split; [exact Hst |].
    split.
    + destruct (push_check_last now info upserted) as [Hcheck _].
      rewrite Hcheck. unfold check_of. rewrite Hstatus, Hcount.
      unfold str_or, num_or. rewrite Hnonempty.
      destruct (found =? 0) eqn:Hzero; [| reflexivity].
      apply Z.eqb_eq in Hzero. now rewrite Hzero.
    + intros Hsome. cbn [push_check Entry.skillCount Entry.skillIds].
      split; [apply Hn | apply Hi].
      * unfold found. destruct skillFiles; [congruence | simpl; lia].
      * unfold ids. destruct skillFiles; [congruence | discriminate].
  - intros other Hother. rewrite Hcatalog. now apply logRepoCheck_other.
  - now rewrite Hcatalog.
Qed.

Section Loops.

Variable maxResults : Z.
Variable durationMs : Z.
Variable startTime : Z.
Variable searchQueries : list string.
Variable loaded : Catalog.t.

Lemma keeps_isTimeUp (I : Crawl.t -> Prop) :
  steady I ->
  keeps I (isTimeUp startTime durationMs).
Proof.
  intros Hsteady. unfold isTimeUp. destruct (durationMs =? 0).
  - apply keeps_kret.
  - apply keeps_kbind; [keeps_lifted | intros; apply keeps_kret].
Qed.

Lemma keeps_enough (I : Crawl.t -> Prop) :
  steady I ->
  keeps I (enough maxResults durationMs startTime).
Proof.
  intros Hsteady. unfold enough.
  apply keeps_kbind; [now apply keeps_isTimeUp |]. intros up.
  apply keeps_kbind; [apply keeps_read | intros; apply keeps_kret].
Qed.























Lemma never_throws_enough :
  never_throws (enough maxResults durationMs startTime).
Proof.
  unfold enough, isTimeUp. apply never_throws_kbind.
  - destruct (durationMs =? 0); [apply never_throws_kret |].
    apply never_throws_kbind; [apply never_throws_Date_now |].
    intros; apply never_throws_kret.
  - intros up. apply never_throws_kbind; [apply never_throws_read |].
    intros; apply never_throws_kret.
Qed.

Lemma never_throws_phase2 (turns : nat) :
  forall queryIndex pageIndex,
    never_throws
      (phase2 network JSON_parse encodeURIComponent ToString hasToken
         toISOString maxResults durationMs startTime searchQueries turns
         queryIndex pageIndex).
Proof.
  induction turns as [| turns IH]; intros queryIndex pageIndex; simpl;
    [apply never_throws_stop |].
  apply never_throws_kbind; [apply never_throws_enough |].
  intros [|]; [apply never_throws_kret |].
  apply never_throws_kbind.
  { unfold next_query. repeat case_match; try apply never_throws_kret.
    apply never_throws_kbind; [apply never_throws_log |]. intros _.
    apply never_throws_kbind; [apply never_throws_sleep |].
    intros; apply never_throws_kret. }
  intros [[queryIndex' pageIndex'] |]; [| apply never_throws_kret].
  apply never_throws_kbind; [| intros; apply IH].
  apply never_throws_try_catch. intros e. unfold search_failed.
  apply never_throws_kbind; [apply never_throws_log |]. intros _.
  destruct (slowWalk durationMs); [| apply never_throws_kret].
  apply never_throws_kbind; [apply never_throws_log |].
  intros; apply never_throws_sleep.
Qed.

Lemma never_throws_code_searches (queries : list string) :
  never_throws
    (code_searches network JSON_parse encodeURIComponent ToString hasToken
       toISOString maxResults durationMs startTime queries).
Proof.
  induction queries as [| query rest IH]; simpl; [apply never_throws_kret |].
  apply never_throws_kbind; [apply never_throws_enough |].
  intros [|]; [apply never_throws_kret |].
  apply never_throws_kbind; [| intros; exact IH].
  apply never_throws_try_catch. intros e. apply never_throws_log.
Qed.

Lemma never_throws_search_phases (turns : nat) :
  never_throws
    (search_phases network JSON_parse encodeURIComponent ToString hasToken
       toISOString maxResults durationMs startTime searchQueries turns).
Proof.
  unfold search_phases.
  apply never_throws_kbind; [apply never_throws_log |]. intros _.
  apply never_throws_kbind; [apply never_throws_phase2 |]. intros _.
  apply never_throws_kbind.
  { unfold phase3.
    pose proof (never_throws_code_searches codeQueries) as Hsearches.
    destruct hasToken; [| apply never_throws_kret].
    apply never_throws_kbind; [apply never_throws_enough |].
    intros [|]; [apply never_throws_kret |].
    apply never_throws_kbind; [apply never_throws_log |].
    intros _. exact Hsearches. }
  intros _.
  apply never_throws_kbind; [apply never_throws_Date_now |]. intros now.
  apply never_throws_kbind; [apply never_throws_log |]. intros _.
  apply never_throws_kbind; [apply never_throws_read |]. intros checked.
  apply never_throws_kbind; [apply never_throws_read |]. intros found.
  apply never_throws_kbind; [apply never_throws_log |]. intros _.
  apply never_throws_kbind; [apply never_throws_read |]. intros tracked.
  apply never_throws_kbind; [apply never_throws_log |]. intros _.
  apply never_throws_read.
Qed.

(** The world only goes on. *)
Lemma scanSingleRepo_after (w0 : World.t) (v : js json) :
  keeps (after w0)
    (scanSingleRepo network JSON_parse ToString hasToken toISOString v).
Proof.
  intros s H. destruct v as [| | [| | | name | |]]; try exact H.
  pose proof (scanSingleRepo_run name s) as Hrun.
  destruct (scanSingleRepo _ _ _ _ _ _ s) as [r s' | why]; [| exact Logic.I].
  destruct Hrun as (_ & _ & _ & Hgo & _). exact (goes_on_trans _ _ _ H Hgo).
Qed.

Lemma push_files_after (w0 : World.t) (item_of : SkillFile.t -> Item.t)
    (skillFiles : list SkillFile.t) :
  keeps (after w0) (push_files maxResults item_of skillFiles).
Proof.
  induction skillFiles as [| file rest IH]; simpl; [apply keeps_kret |].
  apply keeps_kbind; [apply keeps_read |]. intros n.
  destruct (maxResults <=? Z.of_nat n); [apply keeps_kret |].
  apply keeps_kbind; [apply push_after | intros; exact IH].
Qed.

Lemma scan_and_collect_after (w0 : World.t) (v : js json)
    (item_of : RepoInfo.t -> SkillFile.t -> Item.t) :
  keeps (after w0)
    (scan_and_collect network JSON_parse ToString hasToken toISOString
       maxResults v item_of).
Proof.
  unfold scan_and_collect.
  apply keeps_kbind; [apply add_after |]. intros _.
  apply keeps_kbind; [apply scanSingleRepo_after |]. intros scanned.
  apply push_files_after.
Qed.

Lemma phase1_after (w0 : World.t) (repos : list string) :
  keeps (after w0)
    (phase1 network JSON_parse ToString hasToken toISOString maxResults
       durationMs startTime repos).
Proof.
  induction repos as [| repoName rest IH]; simpl; [apply keeps_kret |].
  apply keeps_kbind; [apply keeps_enough, steady_after |].
  intros [|]; [apply keeps_kret |].
  apply keeps_kbind; [apply keeps_read |]. intros [|]; [exact IH |].
  apply keeps_kbind; [apply scan_and_collect_after | intros; exact IH].
Qed.

Lemma scan_found_after (w0 : World.t) (items : list RepoItem.t) :
  keeps (after w0)
    (scan_found network JSON_parse ToString hasToken toISOString maxResults
       durationMs startTime items).
Proof.
  induction items as [| repoItem rest IH]; simpl; [apply keeps_kret |].
  apply keeps_kbind; [apply keeps_enough, steady_after |].
  intros [|]; [apply keeps_kret |].
  apply keeps_kbind; [apply keeps_read |]. intros [|]; [exact IH |].
  apply keeps_kbind; [apply scan_and_collect_after | intros; exact IH].
Qed.

Lemma next_query_after (w0 : World.t) (queryIndex : nat) (pageIndex : Z) :
  keeps (after w0) (next_query durationMs searchQueries queryIndex pageIndex).
Proof.
  unfold next_query. repeat case_match; try apply keeps_kret.
  apply keeps_kbind; [apply log_after |]. intros _.
  apply keeps_kbind; [| intros; apply keeps_kret].
  keeps_lifted.
Qed.

(** In a slow walk every turn of phase 2 takes time: the pause after the
    search, or the pause after its failure. *)
Lemma turn_takes_time (query : string) (pageIndex : Z) (s : Crawl.t) :
  slowWalk durationMs = true ->
  match
    try_catch
      (search_and_scan network JSON_parse encodeURIComponent ToString
         hasToken toISOString maxResults durationMs startTime query pageIndex)
      (search_failed durationMs query) s
  with
  | Ran _ s' => clock s + getDelay hasToken true <= clock s'
  | Stopped _ => True
  end.
Proof.
  intros Hslow.
  assert (Hdelay : 2200 <= getDelay hasToken true <= 6500)
    by (unfold getDelay; destruct hasToken; lia).
  assert (Hfailed : forall e s1,
            clock s <= clock s1 ->
            match search_failed durationMs query e s1 with
            | Ran _ s' => clock s + getDelay hasToken true <= clock s'
            | Stopped _ => True
            end).
  { intros e s1 Hs1. unfold search_failed. rewrite Hslow.
    unfold kbind, log, lift, sleep, clock in *. simpl. lia. }
  unfold try_catch, search_and_scan. unfold kbind at 1. unfold log at 1.
  unfold kbind at 1. unfold lift at 1. crawl_fields.
  match goal with
  | |- context [searchRepos _ _ _ _ ?q ?p ?n ?w1] =>
      pose proof (searchRepos_goes_on q p n w1) as [Hgo _];
      destruct (searchRepos network JSON_parse encodeURIComponent ToString
                  q p n w1) as [[result | e] w2]
  end; simpl in Hgo.
  2: { apply Hfailed. unfold clock. simpl. exact Hgo. }
  unfold kbind at 1. unfold lift at 1, sleep at 1. crawl_fields.
  match goal with
  | |- context [match ?m ?s2 with _ => _ end] =>
      assert (Hafter : keeps (after (Crawl.world s2)) m);
      [| specialize (Hafter s2 (goes_on_refl _));
         assert (Hs2 : clock s + getDelay hasToken true <= clock s2)
           by (unfold clock; simpl; lia);
         destruct (m s2) as [[[] | e] s3 | why] ]
  end.
  - destruct (SearchResult.items result);
      [apply log_after | apply scan_found_after].
  - destruct Hafter as [Hnow _]. unfold clock in *. lia.
  - apply Hfailed. destruct Hafter as [Hnow _]. unfold clock in *.
    pose proof (getDelay_positive true). lia.
  - exact Logic.I.
Qed.

Section Ending.

(** The responses are typed: see [typed_repo]. *)
Hypothesis typed_responses :
  forall body data, JSON_parse body = Some data -> typed_repo data = true.

Lemma fetchRepoInfo_typed (owner repo : string) (w w' : World.t)
    (repoInfo : RepoInfo.t) (skillCount : Z) (skillIds : option (list string)) :
  fetchRepoInfo network JSON_parse owner repo w = (Return repoInfo, w') ->
  is_Some (checked_info repoInfo skillCount skillIds).
Proof.
  unfold fetchRepoInfo, bind.
  destruct (rateLimitedGet network _ 2 w) as [[[result |] | e] w1];
    try discriminate.
  destruct (negb (Response.statusCode result =? 200)).
  { intros [= <- <-]. now eexists. }
  destruct (JSON_parse (Response.body result)) as [data |] eqn:Hdata;
    [| discriminate].
  pose proof (typed_responses _ _ Hdata) as Htyped. unfold typed_repo in Htyped.
  destruct (get_prop data "stargazers_count") as [stars |]; [| discriminate].
  destruct (get_prop data "forks_count") as [forks |]; [| discriminate].
  destruct (get_prop data "pushed_at") as [pushed |]; [| discriminate].
  destruct (get_prop data "description") as [description |]; [| discriminate].
  destruct (get_prop data "default_branch") as [branch |]; [| discriminate].
  intros [= <- <-]. unfold checked_info, is_count, is_text in *.
  cbn [RepoInfo.stars RepoInfo.forks RepoInfo.description].
  destruct (json_or stars (JNumber 0)); try discriminate.
  destruct (json_or forks (JNumber 0)); try discriminate.
  destruct (json_or description (JString EmptyString)); try discriminate.
  now eexists.
Qed.

Lemma ends_scanSingleRepo (v : js json) :
  ends (scanSingleRepo network JSON_parse ToString hasToken toISOString v).
Proof.
  destruct v as [| | [| | | name | |]]; try apply ends_kthrow.
  intros s. pose proof (scanSingleRepo_run name s) as Hrun.
  destruct (scanSingleRepo _ _ _ _ _ _ s) as [r s' | why] eqn:Hscan;
    [now eexists _, _ |].
  exfalso. subst why. revert Hscan.
  unfold scanSingleRepo. cbv zeta.
  unfold kbind at 1. unfold log at 1.
  unfold kbind at 1. unfold lift at 1. crawl_fields.
  destruct (fetchRepoInfo network JSON_parse _ _ (Crawl.world s))
    as [[repoInfo | e] w1] eqn:Hinfo; [| discriminate].
  unfold kbind at 1. unfold lift at 1, sleep at 1. crawl_fields.
  unfold kbind at 1. unfold log at 1.
  unfold kbind at 1. unfold lift at 1. crawl_fields.
  destruct (listSkillFiles _ _ _ _ _ _ _) as [[[skillFiles |] | e] w2];
    try discriminate.
  unfold kbind at 1. unfold lift at 1, sleep at 1. crawl_fields.
  destruct (fetchRepoInfo_typed _ _ _ _ _
              (Z.of_nat (List.length skillFiles))
              (Some (map (fun f => scanned_skill_id (SkillFile.path f))
                       skillFiles)) Hinfo) as [info ->].
  discriminate.
Qed.

Lemma ends_note_repo (v : js json) :
  ends (note_repo network JSON_parse hasToken toISOString v).
Proof.
  destruct v as [| | [| | | name | |]]; try apply ends_kthrow.
  intros s. unfold note_repo. cbv zeta.
  unfold kbind at 1. unfold lift at 1.
  destruct (fetchRepoInfo network JSON_parse _ _ (Crawl.world s))
    as [[repoInfo | e] w1] eqn:Hinfo; [| now eexists _, _].
  unfold kbind at 1. unfold lift at 1, sleep at 1. crawl_fields.
  destruct (fetchRepoInfo_typed _ _ _ _ _ 1 None Hinfo) as [info ->].
  now eexists _, _.
Qed.

Lemma ends_isTimeUp : ends (isTimeUp startTime durationMs).
Proof.
  unfold isTimeUp. destruct (durationMs =? 0); [apply ends_kret |].
  apply ends_kbind; [apply ends_lift | intros; apply ends_kret].
Qed.

Lemma ends_enough : ends (enough maxResults durationMs startTime).
Proof.
  unfold enough. apply ends_kbind; [apply ends_isTimeUp |]. intros up.
  apply ends_kbind; [apply ends_read | intros; apply ends_kret].
Qed.

Lemma ends_push_files (item_of : SkillFile.t -> Item.t)
    (skillFiles : list SkillFile.t) :
  ends (push_files maxResults item_of skillFiles).
Proof.
  induction skillFiles as [| file rest IH]; simpl; [apply ends_kret |].
  apply ends_kbind; [apply ends_read |]. intros n.
  destruct (maxResults <=? Z.of_nat n); [apply ends_kret |].
  apply ends_kbind; [apply ends_push | intros; exact IH].
Qed.

Lemma ends_scan_and_collect (v : js json)
    (item_of : RepoInfo.t -> SkillFile.t -> Item.t) :
  ends (scan_and_collect network JSON_parse ToString hasToken toISOString
          maxResults v item_of).
Proof.
  unfold scan_and_collect.
  apply ends_kbind; [apply ends_add |]. intros _.
  apply ends_kbind; [apply ends_scanSingleRepo |]. intros scanned.
  apply ends_push_files.
Qed.

Lemma ends_phase1 (repos : list string) :
  ends (phase1 network JSON_parse ToString hasToken toISOString maxResults
          durationMs startTime repos).
Proof.
  induction repos as [| repoName rest IH]; simpl; [apply ends_kret |].
  apply ends_kbind; [apply ends_enough |]. intros [|]; [apply ends_kret |].
  apply ends_kbind; [apply ends_read |]. intros [|]; [exact IH |].
  apply ends_kbind; [apply ends_scan_and_collect | intros; exact IH].
Qed.

Lemma ends_scan_found (items : list RepoItem.t) :
  ends (scan_found network JSON_parse ToString hasToken toISOString
          maxResults durationMs startTime items).
Proof.
  induction items as [| repoItem rest IH]; simpl; [apply ends_kret |].
  apply ends_kbind; [apply ends_enough |]. intros [|]; [apply ends_kret |].
  apply ends_kbind; [apply ends_read |]. intros [|]; [exact IH |].
  apply ends_kbind; [apply ends_scan_and_collect | intros; exact IH].
Qed.

Lemma ends_turn (query : string) (pageIndex : Z) :
  ends
    (try_catch
       (search_and_scan network JSON_parse encodeURIComponent ToString
          hasToken toISOString maxResults durationMs startTime query
          pageIndex)
       (search_failed durationMs query)).
Proof.
  apply ends_try_catch.
  - unfold search_and_scan.
    apply ends_kbind; [apply ends_log |]. intros _.
    apply ends_kbind; [apply ends_lift |]. intros result.
    apply ends_kbind; [apply ends_lift |]. intros _.
    destruct (SearchResult.items result); [apply ends_log |].
    apply ends_scan_found.
  - intros e. unfold search_failed.
    apply ends_kbind; [apply ends_log |]. intros _.
    destruct (slowWalk durationMs); [| apply ends_kret].
    apply ends_kbind; [apply ends_log | intros; apply ends_lift].
Qed.

Lemma ends_next_query (queryIndex : nat) (pageIndex : Z) :
  ends (next_query durationMs searchQueries queryIndex pageIndex).
Proof.
  unfold next_query. repeat case_match; try apply ends_kret.
  apply ends_kbind; [apply ends_log |]. intros _.
  apply ends_kbind; [apply ends_lift | intros; apply ends_kret].
Qed.

Lemma ends_phase3 :
  ends (phase3 network JSON_parse encodeURIComponent ToString hasToken
          toISOString maxResults durationMs startTime).
Proof.
  assert (Hitems : forall items,
            ends (add_code_items network JSON_parse ToString hasToken
                    toISOString items)).
  { induction items as [| item rest IH]; simpl; [apply ends_kret |].
    apply ends_kbind; [apply ends_read |]. intros known.
    apply ends_kbind; [| intros; exact IH].
    destruct known; [apply ends_kret |].
    apply ends_kbind; [apply ends_push |]. intros _.
    apply ends_kbind; [apply ends_read |]. intros [|]; [apply ends_kret |].
    apply ends_kbind; [apply ends_add | intros; apply ends_note_repo]. }
  assert (Hsearches : forall queries,
            ends (code_searches network JSON_parse encodeURIComponent
                    ToString hasToken toISOString maxResults durationMs
                    startTime queries)).
  { induction queries as [| query rest IH]; simpl; [apply ends_kret |].
    apply ends_kbind; [apply ends_enough |]. intros [|]; [apply ends_kret |].
    apply ends_kbind; [| intros; exact IH].
    apply ends_try_catch; [| intros; apply ends_log].
    unfold code_search.
    apply ends_kbind; [apply ends_log |]. intros _.
    apply ends_kbind; [apply ends_read |]. intros n.
    apply ends_kbind; [apply ends_lift |]. intros result.
    apply ends_kbind; [apply ends_lift |]. intros _. apply Hitems. }
  unfold phase3. specialize (Hsearches codeQueries).
  destruct hasToken; [| apply ends_kret].
  apply ends_kbind; [apply ends_enough |]. intros [|]; [apply ends_kret |].
  apply ends_kbind; [apply ends_log | intros; exact Hsearches].
Qed.

Lemma enough_runs (s : Crawl.t) :
  enough maxResults durationMs startTime s
  = Ran (Return
           ((if durationMs =? 0 then false
             else durationMs <=? clock s - startTime)
            || (maxResults <=? Z.of_nat (List.length (Crawl.allItems s)))))
      s.
Proof.
  destruct s. unfold enough, isTimeUp, clock.
  destruct (durationMs =? 0); reflexivity.
Qed.

Lemma next_query_runs (queryIndex : nat) (pageIndex : Z) (s : Crawl.t) :
  exists next s1,
    next_query durationMs searchQueries queryIndex pageIndex s
    = Ran (Return next) s1
    /\ clock s <= clock s1
    /\ (slowWalk durationMs = false ->
        match next with
        | None => True
        | Some (queryIndex', pageIndex') =>
            queryIndex' = queryIndex
            /\ (queryIndex < List.length searchQueries)%nat
        end).
Proof.
  unfold next_query.
  destruct (List.length searchQueries <=? queryIndex)%nat eqn:Hused.
  - destruct (slowWalk durationMs); cbn [negb].
    + destruct (5 <? pageIndex + 1).
      * eexists _, _. unfold kbind, log, lift, sleep, kret. simpl.
        split; [reflexivity |]. unfold clock. simpl.
        split; [lia | discriminate].
      * eexists _, _. unfold kret. split; [reflexivity |].
        split; [lia | discriminate].
    + eexists _, _. unfold kret. split; [reflexivity |]. split; [lia | easy].
  - apply Nat.leb_gt in Hused. eexists _, _. unfold kret.
    split; [reflexivity |]. split; [lia |]. intros _.
    split; [reflexivity | lia].
Qed.

(** Phase 2 comes to an end if it is given turns enough: in a single pass,
    one for each query that is left and one more; in a slow walk, one for
    each pause after a search that fits in the time that is left, and one
    more. *)
Lemma ends_phase2 (turns : nat) :
  forall (queryIndex : nat) (pageIndex : Z) (s : Crawl.t),
    (slowWalk durationMs = false ->
     (queryIndex <= List.length searchQueries)%nat
     /\ (List.length searchQueries + 1 <= turns + queryIndex)%nat) ->
    (slowWalk durationMs = true ->
     (1 <= turns)%nat
     /\ durationMs - (clock s - startTime)
        <= getDelay hasToken true * (Z.of_nat turns - 1)) ->
    exists r s',
      phase2 network JSON_parse encodeURIComponent ToString hasToken
        toISOString maxResults durationMs startTime searchQueries turns
        queryIndex pageIndex s
      = Ran r s'.
Proof.
  assert (Hdelay : 2200 <= getDelay hasToken true)
    by (apply getDelay_positive; reflexivity).
  induction turns as [| turns IH]; intros queryIndex pageIndex s Hsingle Hslow.
  { destruct (slowWalk durationMs); [destruct Hslow | destruct Hsingle]; lia. }
  simpl phase2. unfold kbind at 1. rewrite enough_runs.
  destruct (_ || _) eqn:Hdone; [now eexists _, _ |].
  apply orb_false_elim in Hdone as [Hup _].
  unfold kbind at 1.
  destruct (next_query_runs queryIndex pageIndex s)
    as (next & s1 & -> & Hclock1 & Hnext).
  destruct next as [[queryIndex' pageIndex'] |]; [| now eexists _, _].
  unfold kbind.
  pose proof (turn_takes_time
                (nth queryIndex' searchQueries "undefined") pageIndex' s1)
    as Htime.
  destruct (ends_turn (nth queryIndex' searchQueries "undefined") pageIndex'
              s1) as (r & s2 & Hturn).
  rewrite Hturn in *. destruct r as [[] | e]; [| now eexists _, _].
  apply IH.
  - intros Hwalk. destruct (Hnext Hwalk) as [-> Hless].
    destruct (Hsingle Hwalk). lia.
  - intros Hwalk. specialize (Htime Hwalk). destruct (Hslow Hwalk) as [_ Hleft].
    unfold slowWalk in Hwalk. apply Z.ltb_lt in Hwalk.
    destruct (durationMs =? 0) eqn:Hzero; [apply Z.eqb_eq in Hzero; lia |].
    apply Z.leb_gt in Hup. split; nia.
Qed.

End Ending.

End Loops.





(** [searchForSkillRepos] only throws what the scan of a known repository
    throws: a run ends with an exception exactly when the part up to the end
    of phase 1 does, with that exception and in that state.  What goes wrong
    in a search of phase 2 or 3, or in a scan of phase 2, is logged and the
    crawl goes on. *)
Theorem searchForSkillRepos_throws_in_phase1 (turns : nat)
    (options : ScanOptions.t) (loaded : Catalog.t) (w : World.t)
    (e : Error) (s : Crawl.t) :
  searchForSkillRepos network JSON_parse encodeURIComponent ToString hasToken
    toISOString turns options loaded w
  = Ran (Throw e) s
  <-> known_phase network JSON_parse ToString hasToken toISOString options
        (start loaded w)
      = Ran (Throw e) s.
Proof.
  unfold searchForSkillRepos, kbind.
  destruct (known_phase _ _ _ _ _ _ (start loaded w))
    as [[startTime | e'] s1 | why]; cbv beta iota;
    [| split; intros [= -> ->]; reflexivity | split; discriminate].
  pose proof (never_throws_search_phases (maxResults_of options)
                (durationMs_of options) startTime (searchQueries_of options)
                turns s1) as Hnever.
  split; [| discriminate]. intros Hrun. rewrite Hrun in Hnever.
  destruct Hnever.
Qed.

(** [searchForSkillRepos] comes to an end, with a list or with an
    exception, when the responses are typed and the loop of phase 2 is given
    its turns: a single pass needs one turn for each query and one more,
    because every turn uses up a query; a slow walk needs one turn for each
    pause after a search that fits in [durationMs] and two more, because
    every turn pauses, after the search or after its failure. *)
Theorem searchForSkillRepos_ends (turns : nat) (options : ScanOptions.t)
    (loaded : Catalog.t) (w : World.t) :
  (forall body data, JSON_parse body = Some data -> typed_repo data = true) ->
  (enough_turns hasToken options <= turns)%nat ->
  exists r s,
    searchForSkillRepos network JSON_parse encodeURIComponent ToString
      hasToken toISOString turns options loaded w
    = Ran r s.
Proof.
  intros Htyped Hturns.
  set (maxResults := maxResults_of options).
  set (durationMs := durationMs_of options).
  set (searchQueries := searchQueries_of options).
  unfold searchForSkillRepos. unfold kbind at 1. unfold known_phase.
  fold maxResults durationMs searchQueries. cbv zeta.
  unfold kbind at 1. unfold lift at 1, Date_now at 1.
  change (with_world (start loaded w) (Crawl.world (start loaded w)))
    with (start loaded w).
  change (World.now (Crawl.world (start loaded w))) with (World.now w).
  unfold kbind at 1.
  assert (Hfirst : exists s0,
            (if slowWalk durationMs then log (LogSlowWalk durationMs)
             else kret tt) (start loaded w) = Ran (Return tt) s0
            /\ Crawl.world s0 = w).
  { destruct (slowWalk durationMs); eexists; split; reflexivity. }
  destruct Hfirst as (s0 & -> & Hs0).
  unfold kbind at 1. unfold log at 1. unfold kbind at 1.
  match goal with
  | |- context [phase1 _ _ _ _ _ _ _ _ _ ?s1] =>
      pose proof (phase1_after maxResults durationMs (World.now w) w
                    KNOWN_SKILL_REPOS s1) as Hafter;
      destruct (ends_phase1 maxResults durationMs (World.now w) Htyped
                  KNOWN_SKILL_REPOS s1) as (r1 & s2 & Hphase1);
      rewrite Hphase1 in *
  end.
  destruct r1 as [[] | e]; [| now eexists _, _].
  unfold kret.
  assert (Hclock : World.now w <= clock s2).
  { apply Hafter. cbn [Crawl.world]. rewrite Hs0. apply goes_on_refl. }
  clear Hafter Hphase1. unfold search_phases.
  unfold kbind at 1. unfold log at 1. unfold kbind at 1.
  match goal with
  | |- context [phase2 _ _ _ _ _ _ _ _ _ _ _ _ _ ?s3] =>
      destruct (ends_phase2 maxResults durationMs (World.now w) searchQueries
                  Htyped turns 0%nat 1 s3) as (r2 & s4 & ->)
  end.
  - intros Hwalk. unfold enough_turns in Hturns. fold durationMs in Hturns.
    unfold slowWalk in Hwalk. apply Z.ltb_ge in Hwalk.
    apply Z.leb_le in Hwalk. rewrite Hwalk in Hturns.
    fold searchQueries in Hturns. lia.
  - intros Hwalk. unfold enough_turns in Hturns. fold durationMs in Hturns.
    unfold slowWalk in Hwalk. apply Z.ltb_lt in Hwalk.
    destruct (durationMs <=? 0) eqn:Hle; [apply Z.leb_le in Hle; lia |].
    assert (Hdelay : 2200 <= getDelay hasToken true)
      by (apply getDelay_positive; reflexivity).
    pose proof (Z.mul_succ_div_gt durationMs (getDelay hasToken true)
                  ltac:(lia)) as Hdiv.
    pose proof (Z.div_pos durationMs (getDelay hasToken true) ltac:(lia)
                  ltac:(lia)) as Hpos.
    split; [lia |]. unfold clock in *. cbn [Crawl.world]. nia.
  - destruct r2 as [[] | e]; [| now eexists _, _].
    match goal with
    | |- exists r s, ?m s4 = Ran r s => assert (Hrest : ends m); [| apply Hrest]
    end.
    apply ends_kbind; [now apply ends_phase3 |]. intros _.
    apply ends_kbind; [apply ends_lift |]. intros now.
    apply ends_kbind; [apply ends_log |]. intros _.
    apply ends_kbind; [apply ends_read |]. intros checked.
    apply ends_kbind; [apply ends_read |]. intros found.
    apply ends_kbind; [apply ends_log |]. intros _.
    apply ends_kbind; [apply ends_read |]. intros tracked.
    apply ends_kbind; [apply ends_log |]. intros _.
    apply ends_read.
Qed.

End CrawlSteps.

Lemma read_names_typed (body : string) (data : json) :
  read_names body = Some data -> typed_repo data = true.
Proof.
  unfold read_names. repeat case_match; intros [= <-]; reflexivity.
Qed.

Lemma scanSingleRepo_records_witness :
  exists repoInfo skillFiles s',
    scanSingleRepo small_github read_names no_text false show
      (Def (JString "owner/repo")) (start empty_catalog world0)
    = Ran (Return (repoInfo, skillFiles)) s'
    /\ Crawl.written s' = [Crawl.catalog s']
    /\ exists entry,
         Catalog.repos (Crawl.catalog s') !! "owner/repo" = Some entry
         /\ Entry.status entry = "has-skills".
Proof.
  destruct (scanSingleRepo small_github read_names no_text false show
              (Def (JString "owner/repo")) (start empty_catalog world0))
    as [[[repoInfo skillFiles] | e] s' | why] eqn:Hrun;
    [| vm_compute in Hrun; discriminate Hrun
     | vm_compute in Hrun; discriminate Hrun].
  exists repoInfo, skillFiles, s'. split; [reflexivity |].
  destruct (scanSingleRepo_records small_github read_names no_text false show
              (Def (JString "owner/repo")) (start empty_catalog world0)
              repoInfo skillFiles s' Hrun)
    as (_ & (entry & Hentry & _ & Hstatus & _) & _ & _ & Hwritten & _).
  split; [exact Hwritten |]. exists entry. split; [exact Hentry |].
  rewrite Hstatus. vm_compute in Hrun. injection Hrun as _ <- _.
  reflexivity.
Defined.

Example scanSingleRepo_needs_a_text :
  scanSingleRepo small_github read_names no_text false show Undefined
    (start empty_catalog world0)
  = Ran (Throw TypeError) (start empty_catalog world0).
Proof. reflexivity. Qed.


(** A crawl of the small GitHub for four files: the two known repositories
    are scanned, with two requests and two pauses of two seconds each, and
    the limit is reached before any search. *)
Example searchForSkillRepos_collects_four :
  match
    searchForSkillRepos small_github read_names (fun s => s) no_text false
      show 2 (one_query 4) empty_catalog world0
  with
  | Ran (Return items) s =>
      map Item.path items
      = [ Def (JString "skills/foo/SKILL.md");
          Def (JString "docs/NOT_A_SKILL.md");
          Def (JString "SKILL.md");
          Def (JString "skills/foo/SKILL.md") ]
      /\ scanned (Crawl.lines s)
         = [ "rmyndharis/antigravity-skills"; "wshobson/agents" ]
      /\ sent s = 4%nat
      /\ clock s = 8000
  | _ => False
  end.
Proof. vm_compute. repeat split. Qed.

(** Out of quota, the crawl throws at the first known repository, after the
    three requests of [fetchRepoInfo], and has written nothing; with every
    answer a 422 it goes through its phases and returns an empty list (with
    a token too: the failures of the searches are logged). *)
Example searchForSkillRepos_out_of_quota :
  match
    searchForSkillRepos (always out_of_quota) read_names (fun s => s) no_text
      false show 2 (one_query 4) empty_catalog world0
  with
  | Ran (Throw (MkError _)) s =>
      sent s = 3%nat /\ Crawl.written s = []
      /\ scanned (Crawl.lines s) = [ "wshobson/agents" ]
  | _ => False
  end.
Proof. vm_compute. repeat split. Qed.

Example searchForSkillRepos_unprocessable :
  match
    searchForSkillRepos (always unprocessable) read_names (fun s => s) no_text
      true show 2 (one_query 4) empty_catalog world0
  with
  | Ran (Return items) s =>
      items = []
      /\ List.length (List.filter (fun line =>
                                match line with
                                | LogSearchFailed _ _
                                | LogCodeSearchFailed _ _ => true
                                | _ => false
                                end) (Crawl.lines s)) = 3%nat
  | _ => False
  end.
Proof. vm_compute. repeat split. Qed.

Lemma searchForSkillRepos_ends_witness :
  exists r s,
    searchForSkillRepos small_github read_names (fun s => s) no_text false
      show 2 (one_query 4) empty_catalog world0
    = Ran r s.
Proof.
  apply (searchForSkillRepos_ends small_github read_names (fun s => s)
           no_text false show 2 (one_query 4) empty_catalog world0).
  - exact read_names_typed.
  - vm_compute. lia.
Defined.
